(** * MovieLens top-20 ranking: scoring pipeline and recommendation queries

    A shallow embedding of [Scripts/build_db.py], [main.py], [analysis.py]
    and [app/main.py], and the properties the specification states about
    them.

    Conventions of the embedding.
    - A pandas [float64] cell is a value of [float]: a rational number, one
      of the two infinities, or NaN.  The arithmetic of module [Float] is
      exact on finite values and keeps the IEEE rules for NaN, the
      infinities and division by zero.  Module [Binary64] adds the rounding
      of every operation to the nearest binary64 number, and module
      [Rounded] is the scorer with that arithmetic and with 64-bit
      integers: the statements about the size or the order of scores are
      made there.
    - A pandas [int64] cell is an integer within the 64-bit range; in the
      modules with exact arithmetic sums of integers are exact, and the
      statements about their values assume that they fit in 64 bits.
    - A missing CSV cell is NaN, as [read_csv] produces it, and NULL once
      stored in SQLite.
    - A [DataFrame] is a Python object: it lives in a store and is passed by
      reference, so that in-place column assignment is visible to every
      holder of the reference. *)

From Stdlib Require Import Ascii.
From Stdlib Require Import QArith Qabs Qminmax Qround Qpower Lqa ZArith List Bool.
From stdpp Require Import gmap strings list fin_maps sorting.

Local Open Scope Z_scope.

(** ** Floating-point cells *)

Module Float.

Inductive float : Type :=
| Fin (q : Q)
| PInf
| NInf
| NaN.

Definition of_Z (z : Z) : float := Fin (inject_Z z).

Definition isna (x : float) : bool :=
  match x with NaN => true | _ => false end.

Definition Qsgn_pos (q : Q) : bool := Z.ltb 0 (Qnum q).
Definition Qis_zero (q : Q) : bool := Z.eqb (Qnum q) 0.

(** The infinity of a given sign ([true] is positive). *)
Definition inf (positive : bool) : float := if positive then PInf else NInf.

Definition add (x y : float) : float :=
  match x, y with
  | NaN, _ | _, NaN => NaN
  | Fin p, Fin q => Fin (p + q)
  | PInf, NInf | NInf, PInf => NaN
  | PInf, _ | _, PInf => PInf
  | NInf, _ | _, NInf => NInf
  end.

(** [inf * 0] is NaN; otherwise the sign of a product with an infinity is
    the product of the signs. *)
Definition mul_inf (positive : bool) (y : float) : float :=
  match y with
  | NaN => NaN
  | Fin q => if Qis_zero q then NaN else inf (Bool.eqb positive (Qsgn_pos q))
  | PInf => inf positive
  | NInf => inf (negb positive)
  end.

Definition mul (x y : float) : float :=
  match x, y with
  | NaN, _ => NaN
  | PInf, _ => mul_inf true y
  | NInf, _ => mul_inf false y
  | Fin p, Fin q => Fin (p * q)
  | Fin _, PInf => mul_inf true x
  | Fin _, NInf => mul_inf false x
  | Fin _, NaN => NaN
  end.

(** True division.  A zero divisor is the positive zero an integer converts
    to: [x / 0] is the infinity of the sign of [x], and [0 / 0] is NaN. *)
Definition div (x y : float) : float :=
  match x, y with
  | NaN, _ | _, NaN => NaN
  | Fin p, Fin q =>
      if Qis_zero q then
        if Qis_zero p then NaN else inf (Qsgn_pos p)
      else Fin (p / q)
  | Fin _, _ => Fin 0
  | PInf, Fin q => if Qis_zero q then PInf else inf (Qsgn_pos q)
  | NInf, Fin q => if Qis_zero q then NInf else inf (negb (Qsgn_pos q))
  | _, _ => NaN
  end.

(** [x <= y] as numpy compares: anything against NaN is [False]. *)
Definition leb (x y : float) : bool :=
  match x, y with
  | NaN, _ | _, NaN => false
  | NInf, _ | _, PInf => true
  | Fin p, Fin q => Qle_bool p q
  | _, _ => false
  end.

Definition geb (x y : float) : bool := leb y x.

(** Equality of cells as [duplicated] sees it: numbers by value, and a
    missing cell equal to a missing cell. *)
Definition same (x y : float) : bool :=
  match x, y with
  | Fin p, Fin q => Qeq_bool p q
  | PInf, PInf | NInf, NInf | NaN, NaN => true
  | _, _ => false
  end.

Definition sum (xs : list float) : float := fold_left add xs (Fin 0).

(** [Series.mean()] with the default [skipna=True]: the mean of the cells
    that are not NaN, and NaN when there is none. *)
Definition nanmean (xs : list float) : float :=
  let ys := List.filter (fun x => negb (isna x)) xs in
  match ys with
  | [] => NaN
  | _ :: _ => div (sum ys) (of_Z (Z.of_nat (length ys)))
  end.

End Float.

Abbreviation float := Float.float.

(** ** 64-bit integers *)

Module Int64.

Definition min : Z := - 2 ^ 63.
Definition max : Z := 2 ^ 63 - 1.

(** The integers an [int64] cell, and an SQLite INTEGER, can hold. *)
Definition fits (z : Z) : bool := (min <=? z) && (z <=? max).

(** What [int64] arithmetic keeps of an exact result: it wraps around. *)
Definition wrap (z : Z) : Z := (z - min) mod 2 ^ 64 + min.

End Int64.

(** ** Rounding to binary64 *)

Module Binary64.

Local Open Scope Q_scope.

(** The integer nearest to [q]; halfway between two, the even one. *)
Definition rne (q : Q) : Z :=
  let f := Qfloor q in
  match Qcompare (q - inject_Z f) (1 # 2) with
  | Lt => f
  | Gt => (f + 1)%Z
  | Eq => if Z.even f then f else (f + 1)%Z
  end.

(** The binary exponent of a positive [q]: [2 ^ e <= q < 2 ^ (e + 1)]. *)
Definition ilog2 (q : Q) : Z :=
  let e := (Z.log2 (Qnum q) - Z.log2 (Zpos (Qden q)))%Z in
  if Qle_bool (2 ^ e) q then e else (e - 1)%Z.

(** The binary64 number nearest to [q], ties to the even significand: 53
    significant bits, the spacing of the numbers below [2 ^ -1022] is that
    of the smallest exponent, and a result of magnitude [2 ^ 1024] or more
    is an infinity.  (The sign of a zero is not kept.) *)
Definition round (q : Q) : float :=
  if Qeq_bool q 0 then Float.Fin 0 else
  let e := Z.max (ilog2 (Qabs q)) (-1022) in
  let ulp := 2 ^ (e - 52) in
  let r := Qred (inject_Z (rne (q / ulp)) * ulp) in
  if Qle_bool (2 ^ 1024) (Qabs r) then Float.inf (Float.Qsgn_pos q)
  else Float.Fin r.

Definition rounded (x : float) : float :=
  match x with
  | Float.Fin q => round q
  | _ => x
  end.

(** [int64] to [float64]. *)
Definition of_int64 (z : Z) : float := round (inject_Z z).

(** Each operation gives the exact result, rounded. *)
Definition add (x y : float) : float := rounded (Float.add x y).
Definition mul (x y : float) : float := rounded (Float.mul x y).
Definition div (x y : float) : float := rounded (Float.div x y).

(** A sum accumulated from left to right. *)
Definition sum (xs : list float) : float := fold_left add xs (Float.Fin 0).

End Binary64.

(** ** Python objects: results, the store of data frames, the monad *)

Inductive exn : Type :=
| KeyError (key : string)
| FileNotFoundError
| RequestValidationError
| OverflowError
| DanglingRef.  (* a reference outside the store: no Python program has one *)

Inductive result (A : Type) : Type :=
| Returns (a : A)
| Raises (e : exn).
Arguments Returns {A} a.
Arguments Raises {A} e.

(** A column of a frame, with its dtype. *)
Inductive column : Type :=
| IntCol (xs : list Z)
| FloatCol (xs : list float).

Definition col_len (c : column) : nat :=
  match c with IntCol xs => length xs | FloatCol xs => length xs end.

(** The cells of a column as floats (what [astype(float64)] gives). *)
Definition floats (c : column) : list float :=
  match c with IntCol xs => map Float.of_Z xs | FloatCol xs => xs end.

(** A frame maps column labels to columns; references are store addresses. *)
Abbreviation DataFrame := (gmap string column).
Abbreviation ref := nat.
Abbreviation heap := (gmap nat (gmap string column)).

Definition Py (A : Type) : Type := heap -> result A * heap.

Definition ret {A} (a : A) : Py A := fun h => (Returns a, h).
Definition raise {A} (e : exn) : Py A := fun h => (Raises e, h).
Definition bind {A B} (c : Py A) (k : A -> Py B) : Py B :=
  fun h => match c h with
           | (Returns a, h') => k a h'
           | (Raises e, h') => (Raises e, h')
           end.

Declare Scope py_scope.
Delimit Scope py_scope with py.
Notation "x <- c ;; k" := (bind c (fun x => k))
  (at level 100, c at next level, right associativity) : py_scope.
Notation "c ;;; k" := (bind c (fun _ => k))
  (at level 100, right associativity) : py_scope.

(** [df[name]] *)
Definition getitem (df : ref) (name : string) : Py column :=
  fun h => match h !! df with
           | None => (Raises DanglingRef, h)
           | Some frame =>
               match frame !! name with
               | Some c => (Returns c, h)
               | None => (Raises (KeyError name), h)
               end
           end.

(** [df[name] = values]: the column is created or replaced inside the
    object [df] refers to. *)
Definition setitem (df : ref) (name : string) (values : column) : Py unit :=
  fun h => match h !! df with
           | None => (Raises DanglingRef, h)
           | Some frame => (Returns tt, <[df := <[name := values]> frame]> h)
           end.

(** *** Series arithmetic, cell by cell *)

(** [s + k] for an integer [k]: an integer column stays one. *)
Definition series_add_int (s : column) (k : Z) : column :=
  match s with
  | IntCol xs => IntCol (map (fun x => x + k) xs)
  | FloatCol xs => FloatCol (map (fun x => Float.add x (Float.of_Z k)) xs)
  end.

(** [a / b]: true division, always a float column. *)
Definition series_truediv (a b : column) : column :=
  FloatCol (zip_with Float.div (floats a) (floats b)).

(** [k / s] for an integer [k]. *)
Definition int_rtruediv (k : Z) (s : column) : column :=
  FloatCol (map (fun x => Float.div (Float.of_Z k) x) (floats s)).

(** [a * b] *)
Definition series_mul (a b : column) : column :=
  match a, b with
  | IntCol xs, IntCol ys => IntCol (zip_with Z.mul xs ys)
  | _, _ => FloatCol (zip_with Float.mul (floats a) (floats b))
  end.

(** [s * c] for a float scalar [c]. *)
Definition series_mul_scalar (s : column) (c : float) : column :=
  FloatCol (map (fun x => Float.mul x c) (floats s)).

(** [a + b] *)
Definition series_add (a b : column) : column :=
  match a, b with
  | IntCol xs, IntCol ys => IntCol (zip_with Z.add xs ys)
  | _, _ => FloatCol (zip_with Float.add (floats a) (floats b))
  end.

(** [s.mean()] *)
Definition series_mean (s : column) : float := Float.nanmean (floats s).

(** [DataFrame(...)]: a new object at an address the store does not use. *)
Definition new_frame (frame : DataFrame) : Py ref :=
  fun h => let r := fresh (dom h) in (Returns r, <[r := frame]> h).

(** ** Rows of the tables *)

(** A row of [ratings.csv].  An absent cell is [None] (NaN for the rating). *)
Module Rating.
Record t : Type := mk {
  userId : option Z;
  movieId : option Z;
  rating : float;
  timestamp : option Z
}.

Definition same_cell (a b : option Z) : bool :=
  match a, b with
  | Some x, Some y => Z.eqb x y
  | None, None => true
  | _, _ => false
  end.

(** Two rows are duplicates when all their cells are equal. *)
Definition same (a b : t) : bool :=
  same_cell (userId a) (userId b) && same_cell (movieId a) (movieId b)
  && Float.same (rating a) (rating b) && same_cell (timestamp a) (timestamp b).

Definition isna (c : option Z) : bool :=
  match c with None => true | Some _ => false end.

Definition all_na (r : t) : bool :=
  isna (userId r) && isna (movieId r) && Float.isna (rating r)
  && isna (timestamp r).
End Rating.

(** A row of the per-movie statistics. *)
Module Stats.
Record t : Type := mk {
  movieId : Z;
  rating_count : Z;
  avg_rating : float
}.
End Stats.

(** A row of the scored statistics as it is read back from the frame and
    stored in the [movie_scores] table.  Every cell is numeric; SQLite
    compares integers and reals by value, and a NaN cell is stored as NULL. *)
Module Scored.
Record t : Type := mk {
  movieId : float;
  rating_count : float;
  avg_rating : float;
  weighted_rating : float
}.
End Scored.

(** A row of [movies.csv], reduced to the three columns the pipeline keeps. *)
Module Movie.
Record t : Type := mk {
  movieId : Z;
  title : option string;
  genres : option string
}.
End Movie.

(** A row of the merged table: the scored statistics with the title and the
    genres of the movie, NaN/NULL where [movies.csv] has no row for it. *)
Module Entry.
Record t : Type := mk {
  movieId : float;
  rating_count : float;
  avg_rating : float;
  weighted_rating : float;
  title : option string;
  genres : option string
}.
End Entry.

(** A row of the [movies] table of the database. *)
Module MovieRow.
Record t : Type := mk {
  movieId : float;
  title : option string;
  genres : option string
}.
End MovieRow.

(** The SQLite database: the two tables the pipeline replaces, each in
    rowid order. *)
Record Database : Type := mkDatabase {
  movies : list MovieRow.t;
  movie_scores : list Scored.t
}.

(** The input files of the pipeline, [None] for a file that does not exist. *)
Record Files : Type := mkFiles {
  ratings_csv : option (list Rating.t);
  movies_csv : option (list Movie.t);
  schema_sql : option unit
}.

(** ** Scripts/build_db.py *)

Module BuildDb.

Local Open Scope py_scope.

(** [clean_ratings(ratings)]: each step keeps or drops whole rows. *)

Definition dropna_all (ratings : list Rating.t) : list Rating.t :=
  List.filter (fun r => negb (Rating.all_na r)) ratings.

(** [drop_duplicates()] keeps a row when no earlier row equals it. *)
Fixpoint drop_duplicates_from (seen ratings : list Rating.t) : list Rating.t :=
  match ratings with
  | [] => []
  | r :: rest =>
      if existsb (Rating.same r) seen
      then drop_duplicates_from (r :: seen) rest
      else r :: drop_duplicates_from (r :: seen) rest
  end.

Definition drop_duplicates (ratings : list Rating.t) : list Rating.t :=
  drop_duplicates_from [] ratings.

Definition dropna_subset (ratings : list Rating.t) : list Rating.t :=
  List.filter
    (fun r => negb (Rating.isna (Rating.userId r))
              && negb (Rating.isna (Rating.movieId r))
              && negb (Float.isna (Rating.rating r)))
    ratings.

Definition in_range (r : Rating.t) : bool :=
  Float.geb (Rating.rating r) (Float.Fin (1 # 2))
  && Float.leb (Rating.rating r) (Float.Fin 5).

Definition clean_ratings (ratings : list Rating.t) : list Rating.t :=
  let ratings := drop_duplicates (dropna_all ratings) in
  let ratings := dropna_subset ratings in
  let ratings := List.filter in_range ratings in
  ratings.

(** [groupby("movieId")]: the group keys are the movie identifiers that are
    present, each once, in ascending order. *)
Fixpoint insert_key (k : Z) (keys : list Z) : list Z :=
  match keys with
  | [] => [k]
  | x :: rest =>
      if k <? x then k :: keys
      else if k =? x then keys
      else x :: insert_key k rest
  end.

Definition group_keys (ratings : list Rating.t) : list Z :=
  fold_right insert_key [] (omap Rating.movieId ratings).

(** The ratings of one group, in row order. *)
Definition group_ratings (k : Z) (ratings : list Rating.t) : list float :=
  map Rating.rating
    (List.filter (fun r => Rating.same_cell (Rating.movieId r) (Some k)) ratings).

(** ["count"] counts the cells that are not NaN, ["mean"] averages them. *)
Definition agg_count (xs : list float) : Z :=
  Z.of_nat (length (List.filter (fun x => negb (Float.isna x)) xs)).

Definition movie_stats_rows (ratings : list Rating.t) : list Stats.t :=
  map (fun k => let g := group_ratings k ratings in
                Stats.mk k (agg_count g) (Float.nanmean g))
      (group_keys ratings).

(** The frame [reset_index()] returns for these rows. *)
Definition stats_frame (rows : list Stats.t) : DataFrame :=
  <["movieId" := IntCol (map Stats.movieId rows)]>
  (<["rating_count" := IntCol (map Stats.rating_count rows)]>
  (<["avg_rating" := FloatCol (map Stats.avg_rating rows)]> ∅)).

Definition build_movie_stats (ratings : list Rating.t) : Py ref :=
  new_frame (stats_frame (movie_stats_rows ratings)).

(** [bayesian_weighted(movie_stats, m)]: the operands are evaluated in the
    order Python evaluates them, then the column is assigned and the
    argument itself is returned. *)
Definition bayesian_weighted (movie_stats : ref) (m : Z) : Py ref :=
  avg <- getitem movie_stats "avg_rating" ;;
  let C := series_mean avg in
  cnt1 <- getitem movie_stats "rating_count" ;;
  cnt2 <- getitem movie_stats "rating_count" ;;
  avg1 <- getitem movie_stats "avg_rating" ;;
  cnt3 <- getitem movie_stats "rating_count" ;;
  let weighted_rating :=
    series_add
      (series_mul (series_truediv cnt1 (series_add_int cnt2 m)) avg1)
      (series_mul_scalar (int_rtruediv m (series_add_int cnt3 m)) C) in
  setitem movie_stats "weighted_rating" weighted_rating ;;;
  ret movie_stats.


(** [movies[["movieId", "title", "genres"]].drop_duplicates("movieId")]:
    the first row of each identifier. *)
Fixpoint drop_duplicates_movieId_from (seen : list Z) (movies : list Movie.t)
  : list Movie.t :=
  match movies with
  | [] => []
  | mv :: rest =>
      if existsb (Z.eqb (Movie.movieId mv)) seen
      then drop_duplicates_movieId_from seen rest
      else mv :: drop_duplicates_movieId_from (Movie.movieId mv :: seen) rest
  end.

Definition drop_duplicates_movieId (movies : list Movie.t) : list Movie.t :=
  drop_duplicates_movieId_from [] movies.

(** The rows of the scored frame, read column by column. *)
Fixpoint zip_rows (ids counts avgs ws : list float) : list Scored.t :=
  match ids, counts, avgs, ws with
  | i :: ids, c :: counts, a :: avgs, w :: ws =>
      Scored.mk i c a w :: zip_rows ids counts avgs ws
  | _, _, _, _ => []
  end.

Definition frame_rows (stats : ref) : Py (list Scored.t) :=
  ids <- getitem stats "movieId" ;;
  counts <- getitem stats "rating_count" ;;
  avgs <- getitem stats "avg_rating" ;;
  ws <- getitem stats "weighted_rating" ;;
  ret (zip_rows (floats ids) (floats counts) (floats avgs) (floats ws)).

(** [stats.merge(movies, on="movieId", how="left")]: every row of [stats],
    in order, once per matching row of [movies], and once with missing
    title and genres when no row of [movies] matches. *)
Definition matches (s : Scored.t) (mv : Movie.t) : bool :=
  Float.same (Scored.movieId s) (Float.of_Z (Movie.movieId mv)).

Definition merge_row (movies : list Movie.t) (s : Scored.t) : list Entry.t :=
  match List.filter (matches s) movies with
  | [] =>
      [Entry.mk (Scored.movieId s) (Scored.rating_count s)
                (Scored.avg_rating s) (Scored.weighted_rating s) None None]
  | found =>
      map (fun mv =>
             Entry.mk (Scored.movieId s) (Scored.rating_count s)
                      (Scored.avg_rating s) (Scored.weighted_rating s)
                      (Movie.title mv) (Movie.genres mv))
          found
  end.

Definition merge_left (stats : list Scored.t) (movies : list Movie.t)
  : list Entry.t :=
  flat_map (merge_row movies) stats.

Definition merge (stats : ref) (movies : list Movie.t) : Py (list Entry.t) :=
  rows <- frame_rows stats ;;
  ret (merge_left rows movies).

(** The two column selections [to_sql] writes. *)
Definition movies_table (merged : list Entry.t) : list MovieRow.t :=
  map (fun e => MovieRow.mk (Entry.movieId e) (Entry.title e) (Entry.genres e))
      merged.

Definition movie_scores_table (merged : list Entry.t) : list Scored.t :=
  map (fun e => Scored.mk (Entry.movieId e) (Entry.rating_count e)
                          (Entry.avg_rating e) (Entry.weighted_rating e))
      merged.

(** [main()]: the database it leaves on disk.  Both tables are replaced as
    a whole; the progress messages and the top-5 sample it prints are not
    part of the result. *)
Definition main (files : Files) : Py Database :=
  match ratings_csv files with
  | None => raise FileNotFoundError
  | Some ratings =>
  match movies_csv files with
  | None => raise FileNotFoundError
  | Some movies =>
  match schema_sql files with
  | None => raise FileNotFoundError
  | Some _ =>
      let ratings := clean_ratings ratings in
      stats <- build_movie_stats ratings ;;
      stats <- bayesian_weighted stats 1000 ;;
      let movies := drop_duplicates_movieId movies in
      merged <- merge stats movies ;;
      ret (mkDatabase (movies_table merged) (movie_scores_table merged))
  end end end.

End BuildDb.

(** ** analysis.py *)

Module Analysis.

(** [clean_ratings(ratings)]: the steps of [Scripts/build_db.py], and the
    line ["[Clean] ratings rows: before -> after"] printed before the
    result is returned. *)
Record CleanLog : Type := mkCleanLog { before : nat; after : nat }.

Definition clean_ratings (ratings : list Rating.t) : CleanLog * list Rating.t :=
  let before := length ratings in
  let ratings := BuildDb.drop_duplicates (BuildDb.dropna_all ratings) in
  let ratings := BuildDb.dropna_subset ratings in
  let ratings := List.filter BuildDb.in_range ratings in
  let after := length ratings in
  (mkCleanLog before after, ratings).

End Analysis.

(** ** main.py *)

Module Top20.

Local Open Scope py_scope.

(** [bayesian_weighted(movie_stats, m)], the same text as in
    [Scripts/build_db.py]. *)
Definition bayesian_weighted (movie_stats : ref) (m : Z) : Py ref :=
  avg <- getitem movie_stats "avg_rating" ;;
  let C := series_mean avg in
  cnt1 <- getitem movie_stats "rating_count" ;;
  cnt2 <- getitem movie_stats "rating_count" ;;
  avg1 <- getitem movie_stats "avg_rating" ;;
  cnt3 <- getitem movie_stats "rating_count" ;;
  let weighted_rating :=
    series_add
      (series_mul (series_truediv cnt1 (series_add_int cnt2 m)) avg1)
      (series_mul_scalar (int_rtruediv m (series_add_int cnt3 m)) C) in
  setitem movie_stats "weighted_rating" weighted_rating ;;;
  ret movie_stats.

End Top20.

(** ** The scorer with the arithmetic of the machine

    [bayesian_weighted] once more, with [int64] counts that wrap around and
    [float64] operations that round. *)

Module Rounded.

Local Open Scope py_scope.

Section Accumulation.

(** [numpy] and [bottleneck] accumulate the sum of a column in an order of
    their own, rounding after each addition: the sum is a parameter. *)
Variable total : list float -> float.

Definition floats (c : column) : list float :=
  match c with IntCol xs => map Binary64.of_int64 xs | FloatCol xs => xs end.

(** [s.mean()] with [skipna=True]: the sum of the cells, a missing one
    counting as zero, over the number of cells that are present; NaN when
    none is. *)
Definition series_mean (s : column) : float :=
  let xs := floats s in
  let present := List.filter (fun x => negb (Float.isna x)) xs in
  match present with
  | [] => Float.NaN
  | _ :: _ =>
      Binary64.div
        (total (map (fun x => if Float.isna x then Float.Fin 0 else x) xs))
        (Binary64.of_int64 (Z.of_nat (length present)))
  end.

(** [s + k] for an integer [k] *)
Definition series_add_int (s : column) (k : Z) : column :=
  match s with
  | IntCol xs => IntCol (map (fun x => Int64.wrap (x + k)) xs)
  | FloatCol xs => FloatCol (map (fun x => Binary64.add x (Binary64.of_int64 k)) xs)
  end.

(** [a / b] *)
Definition series_truediv (a b : column) : column :=
  FloatCol (zip_with Binary64.div (floats a) (floats b)).

(** [k / s] for an integer [k] *)
Definition int_rtruediv (k : Z) (s : column) : column :=
  FloatCol (map (fun x => Binary64.div (Binary64.of_int64 k) x) (floats s)).

(** [a * b] *)
Definition series_mul (a b : column) : column :=
  match a, b with
  | IntCol xs, IntCol ys => IntCol (zip_with (fun x y => Int64.wrap (x * y)) xs ys)
  | _, _ => FloatCol (zip_with Binary64.mul (floats a) (floats b))
  end.

(** [s * c] for a float scalar [c] *)
Definition series_mul_scalar (s : column) (c : float) : column :=
  FloatCol (map (fun x => Binary64.mul x c) (floats s)).

(** [a + b] *)
Definition series_add (a b : column) : column :=
  match a, b with
  | IntCol xs, IntCol ys => IntCol (zip_with (fun x y => Int64.wrap (x + y)) xs ys)
  | _, _ => FloatCol (zip_with Binary64.add (floats a) (floats b))
  end.

Definition bayesian_weighted (movie_stats : ref) (m : Z) : Py ref :=
  avg <- getitem movie_stats "avg_rating" ;;
  let C := series_mean avg in
  cnt1 <- getitem movie_stats "rating_count" ;;
  cnt2 <- getitem movie_stats "rating_count" ;;
  avg1 <- getitem movie_stats "avg_rating" ;;
  cnt3 <- getitem movie_stats "rating_count" ;;
  let weighted_rating :=
    series_add
      (series_mul (series_truediv cnt1 (series_add_int cnt2 m)) avg1)
      (series_mul_scalar (int_rtruediv m (series_add_int cnt3 m)) C) in
  setitem movie_stats "weighted_rating" weighted_rating ;;;
  ret movie_stats.

End Accumulation.

End Rounded.

(** ** app/main.py *)

(** A row of the recommendation query: the columns of its [SELECT]. *)
Module Item.
Record t : Type := mk {
  movieId : float;
  title : option string;
  genres : option string;
  rating_count : float;
  avg_rating : float;
  weighted_rating : float
}.
End Item.

(** *** Python strings and SQLite text.  A character is a code point below
    256. *)
Module Str.

Local Open Scope N_scope.

Definition between (lo hi n : N) : bool := (lo <=? n) && (n <=? hi).

(** The characters [str.strip()] removes. *)
Definition is_space (c : ascii) : bool :=
  let n := N_of_ascii c in
  between 9 13 n || between 28 32 n || (n =? 133) || (n =? 160).

(** [str.lower()] on one character. *)
Definition lower_char (c : ascii) : ascii :=
  let n := N_of_ascii c in
  if between 65 90 n || between 192 214 n || between 216 222 n
  then ascii_of_N (n + 32) else c.

Fixpoint lower (s : string) : string :=
  match s with
  | EmptyString => EmptyString
  | String c rest => String (lower_char c) (lower rest)
  end.

Fixpoint lstrip (s : string) : string :=
  match s with
  | EmptyString => EmptyString
  | String c rest => if is_space c then lstrip rest else s
  end.

Fixpoint rstrip (s : string) : string :=
  match s with
  | EmptyString => EmptyString
  | String c rest =>
      match rstrip rest with
      | EmptyString => if is_space c then EmptyString else String c EmptyString
      | kept => String c kept
      end
  end.

Definition strip (s : string) : string := rstrip (lstrip s).

(** The text as SQLite's string functions read it: up to the first NUL. *)
Fixpoint c_str (s : string) : string :=
  match s with
  | EmptyString => EmptyString
  | String c rest =>
      if Ascii.eqb c Ascii.zero then EmptyString else String c (c_str rest)
  end.

(** SQLite folds the case of the 26 ASCII letters only. *)
Definition fold_ascii (c : ascii) : ascii :=
  let n := N_of_ascii c in
  if between 65 90 n then ascii_of_N (n + 32) else c.

Definition eq_nocase (c d : ascii) : bool :=
  Ascii.eqb (fold_ascii c) (fold_ascii d).

(** [text LIKE pattern] on two strings: [%] matches any run of characters,
    [_] any one character, any other character itself up to ASCII case. *)
Fixpoint like (pattern : string) : string -> bool :=
  match pattern with
  | EmptyString =>
      fun text => match text with EmptyString => true | String _ _ => false end
  | String c pattern' =>
      if Ascii.eqb c "%" then
        fix any_run (text : string) : bool :=
          like pattern' text
          || match text with
             | EmptyString => false
             | String _ text' => any_run text'
             end
      else if Ascii.eqb c "_" then
        fun text =>
          match text with
          | EmptyString => false
          | String _ text' => like pattern' text'
          end
      else
        fun text =>
          match text with
          | EmptyString => false
          | String d text' => eq_nocase c d && like pattern' text'
          end
  end.

End Str.

(** *** SQL on the two tables *)
Module Sql.

(** [value LIKE pattern] in a [WHERE] clause: a NULL value is not a match,
    and the pattern and the text both end at their first NUL. *)
Definition like (value : option string) (pattern : string) : bool :=
  match value with
  | None => false
  | Some text => Str.like (Str.c_str pattern) (Str.c_str text)
  end.

(** [x = y]: NULL equals nothing, numbers are compared by value. *)
Definition eq (x y : float) : bool :=
  negb (Float.isna x) && negb (Float.isna y) && Float.same x y.

(** [x >= y] in a [WHERE] clause: false when either side is NULL. *)
Definition ge (x y : float) : bool := Float.geb x y.

(** The order [ORDER BY] sorts with: NULL first, then the numbers. *)
Definition le (x y : float) : bool :=
  match x, y with
  | Float.NaN, _ => true
  | _, Float.NaN => false
  | _, _ => Float.leb x y
  end.

(** [LIMIT k]: a negative [k] means no limit. *)
Definition limit {A} (k : Z) (rows : list A) : list A :=
  if k <? 0 then rows else firstn (Z.to_nat k) rows.

End Sql.

Module App.

Definition MOOD_TO_GENRES : gmap string (list string) :=
  list_to_map
    [ ("calm", ["Drama"; "Romance"]);
      ("fun", ["Comedy"]);
      ("intense", ["Action"; "Thriller"]);
      ("sad", ["Drama"]);
      ("inspire", ["Adventure"; "Animation"]) ].

(** [get_conn()]: the database file is [None] when it has not been built. *)
Definition get_conn (db_file : option Database) : result Database :=
  match db_file with
  | None => Raises FileNotFoundError
  | Some db => Returns db
  end.

Record Health : Type := mkHealth { status : string; db : string }.

(** [health()] reports the path of the database file without opening it. *)
Definition health (db_path : string) : Health := mkHealth "ok" db_path.

Record Titles : Type := mkTitles { title_items : list MovieRow.t }.

(** [titles(query, limit)]; the validator of [Query("", max_length=80)]
    rejects a longer query before the body runs, and [execute] cannot bind
    a [limit] that is no SQLite INTEGER. *)
Definition titles (db_file : option Database) (query : string) (limit : Z)
  : result Titles :=
  if (80 <? String.length query)%nat then Raises RequestValidationError else
  let q := ("%" ++ Str.strip query ++ "%")%string in
  match get_conn db_file with
  | Raises e => Raises e
  | Returns conn =>
      if negb (Int64.fits limit) then Raises OverflowError else
      let rows :=
        Sql.limit limit
          (List.filter (fun m => Sql.like (MovieRow.title m) q) (movies conn)) in
      Returns (mkTitles rows)
  end.

(** [FROM movie_scores s JOIN movies m ON m.movieId = s.movieId], with the
    columns of the [SELECT]. *)
Definition join (conn : Database) : list Item.t :=
  flat_map
    (fun s =>
       map (fun m =>
              Item.mk (MovieRow.movieId m) (MovieRow.title m) (MovieRow.genres m)
                      (Scored.rating_count s) (Scored.avg_rating s)
                      (Scored.weighted_rating s))
           (List.filter (fun m => Sql.eq (MovieRow.movieId m) (Scored.movieId s))
                        (movies conn)))
    (movie_scores conn).

(** [ORDER BY s.weighted_rating DESC]; rows with equal scores keep the order
    of the join. *)
Fixpoint insert_desc (r : Item.t) (sorted : list Item.t) : list Item.t :=
  match sorted with
  | [] => [r]
  | x :: rest =>
      if Sql.le (Item.weighted_rating x) (Item.weighted_rating r)
      then r :: sorted
      else x :: insert_desc r rest
  end.

Definition order_by_weighted_desc (rows : list Item.t) : list Item.t :=
  fold_right insert_desc [] rows.

(** The [WHERE] clause of the two queries. *)
Definition eligible (min_count : Z) (genres : list string) (r : Item.t) : bool :=
  Sql.ge (Item.rating_count r) (Float.of_Z min_count)
  && match genres with
     | [] => true
     | _ :: _ =>
         existsb (fun g => Sql.like (Item.genres r) ("%" ++ g ++ "%")%string) genres
     end.

Record Recommendations : Type := mkRecommendations {
  mood : string;
  genres_filter : list string;
  k : Z;
  min_count : Z;
  items : list Item.t
}.

(** [recommendations(mood, k, min_count)]; [k] and [min_count] are bound as
    SQLite integers, which [execute] refuses when one of them does not fit
    in 64 bits. *)
Definition recommendations (db_file : option Database) (mood : string)
    (k min_count : Z) : result Recommendations :=
  let mood := Str.strip (Str.lower mood) in
  let genres := default [] (MOOD_TO_GENRES !! mood) in
  match get_conn db_file with
  | Raises e => Raises e
  | Returns conn =>
      if negb (Int64.fits min_count && Int64.fits k) then Raises OverflowError else
      let rows :=
        Sql.limit k
          (order_by_weighted_desc
             (List.filter (eligible min_count genres) (join conn))) in
      Returns (mkRecommendations mood genres k min_count rows)
  end.

End App.

(** ** Definitions used in the statements *)

Section Statements.

Import BuildDb.

(** The column the scorer assigns, as an expression of the two columns it
    reads. *)
Definition weighted_column (cnt avg : column) (m : Z) : column :=
  series_add
    (series_mul (series_truediv cnt (series_add_int cnt m)) avg)
    (series_mul_scalar (int_rtruediv m (series_add_int cnt m)) (series_mean avg)).

(** The score of one row, given the global mean [C]. *)
Definition weigh (m : Z) (C : float) (count : Z) (avg : float) : float :=
  Float.add
    (Float.mul (Float.div (Float.of_Z count) (Float.of_Z (count + m))) avg)
    (Float.mul (Float.div (Float.of_Z m) (Float.of_Z (count + m))) C).

(** The score of one row as the machine computes it, given the mean [C]. *)
Definition weigh_rounded (m : Z) (C : float) (count : Z) (avg : float) : float :=
  let den := Binary64.of_int64 (Int64.wrap (count + m)) in
  Binary64.add
    (Binary64.mul (Binary64.div (Binary64.of_int64 count) den) avg)
    (Binary64.mul (Binary64.div (Binary64.of_int64 m) den) C).

(** The tolerance the specification grants to floating-point results. *)
Definition tolerance : Q := 1 # 1000000000.

(** The unweighted mean of a list of numbers. *)
Definition Qmean (qs : list Q) : Q :=
  (fold_left Qplus qs 0 / inject_Z (Z.of_nat (length qs)))%Q.

(** The specification's formula for the score, on exact numbers:
    [(count / (count + m)) * avg + (m / (count + m)) * C]. *)
Definition spec_weighted_rating (m : Z) (C : Q) (count : Z) (avg : Q) : Q :=
  (inject_Z count / inject_Z (count + m) * avg
   + inject_Z m / inject_Z (count + m) * C)%Q.

(** The scenario of the specification: two ratings of 5.0 for movie 1 and
    one rating of 1.0 for movie 2, by three users. *)
Definition scenario_ratings : list Rating.t :=
  [ Rating.mk (Some 1) (Some 1) (Float.Fin 5) None;
    Rating.mk (Some 2) (Some 1) (Float.Fin 5) None;
    Rating.mk (Some 3) (Some 2) (Float.Fin 1) None ].


(** Two tables of statistics with the same averages, used as concrete
    inputs: the second has more ratings for movie 1. *)
Definition two_movies : list Stats.t :=
  [Stats.mk 1 2 (Float.Fin 5); Stats.mk 2 1 (Float.Fin 1)].

Definition two_movies_later : list Stats.t :=
  [Stats.mk 1 40 (Float.Fin 5); Stats.mk 2 1 (Float.Fin 1)].

(** One movie with two ratings of 5.0; and one movie with the average 3.5
    after two ratings, and after three. *)
Definition one_movie : list Stats.t := [Stats.mk 1 2 (Float.Fin 5)].
Definition level_two : list Stats.t := [Stats.mk 1 2 (Float.Fin (7 # 2))].
Definition level_three : list Stats.t := [Stats.mk 1 3 (Float.Fin (7 # 2))].

(** Rows that differ, pairwise and from every row of [seen], in the sense
    of [Rating.same]. *)
Fixpoint distinct_from (seen rows : list Rating.t) : Prop :=
  match rows with
  | [] => True
  | r :: rest =>
      existsb (Rating.same r) seen = false /\ distinct_from (r :: seen) rest
  end.

(** Descending order of the scores, as [ORDER BY ... DESC] produces it. *)
Definition ranked_desc (rows : list Item.t) : Prop :=
  StronglySorted
    (fun a b => Sql.le (Item.weighted_rating b) (Item.weighted_rating a) = true)
    rows.

(** The genres a mood resolves to, and the rows a request ranks. *)
Definition resolved_genres (mood : string) : list string :=
  default [] (App.MOOD_TO_GENRES !! Str.strip (Str.lower mood)).

Definition eligible_rows (db : Database) (mood : string) (min_count : Z)
  : list Item.t :=
  List.filter (App.eligible min_count (resolved_genres mood)) (App.join db).

(** A string of whitespace only (the empty string included). *)
Fixpoint blank (s : string) : bool :=
  match s with
  | EmptyString => true
  | String c rest => Str.is_space c && blank rest
  end.

Definition has_title (m : MovieRow.t) : bool :=
  match MovieRow.title m with Some _ => true | None => false end.

(** Concrete databases: ten eligible movies, and a movie without title in
    front of one with a title. *)
Definition ten_movies : Database :=
  let ids := [1; 2; 3; 4; 5; 6; 7; 8; 9; 10] in
  mkDatabase
    (map (fun i => MovieRow.mk (Float.of_Z i) (Some "Movie") (Some "Drama")) ids)
    (map (fun i => Scored.mk (Float.of_Z i) (Float.of_Z (50 + i))
                             (Float.Fin 4) (Float.of_Z i)) ids).

Definition untitled_first : Database :=
  mkDatabase
    [MovieRow.mk (Float.of_Z 1) None None;
     MovieRow.mk (Float.of_Z 2) (Some "Heat") (Some "Action")]
    [Scored.mk (Float.of_Z 1) (Float.of_Z 60) (Float.Fin 4) (Float.Fin 3);
     Scored.mk (Float.of_Z 2) (Float.of_Z 70) (Float.Fin 4) (Float.Fin (7 # 2))].

(** The rows the scored frame holds for the statistics [rows]. *)
Definition scored_rows (rows : list Stats.t) (m : Z) : list Scored.t :=
  map (fun r =>
         Scored.mk (Float.of_Z (Stats.movieId r)) (Float.of_Z (Stats.rating_count r))
                   (Stats.avg_rating r)
                   (weigh m (Float.nanmean (map Stats.avg_rating rows))
                          (Stats.rating_count r) (Stats.avg_rating r)))
      rows.

Definition pipeline_scores (ratings : list Rating.t) : list Scored.t :=
  scored_rows (movie_stats_rows (clean_ratings ratings)) 1000.

(** A scored row joined with the first row of [movies] that has its
    identifier, if any. *)
Definition merged_row (movies : list Movie.t) (s : Scored.t) : Entry.t :=
  match find (matches s) movies with
  | Some mv =>
      Entry.mk (Scored.movieId s) (Scored.rating_count s) (Scored.avg_rating s)
               (Scored.weighted_rating s) (Movie.title mv) (Movie.genres mv)
  | None =>
      Entry.mk (Scored.movieId s) (Scored.rating_count s) (Scored.avg_rating s)
               (Scored.weighted_rating s) None None
  end.

(** Input files with a movie that nobody rated. *)
Definition unrated_movie_files : Files :=
  mkFiles (Some scenario_ratings)
          (Some [Movie.mk 1 (Some "Toy Story") (Some "Comedy");
                 Movie.mk 9 (Some "Heat") (Some "Action")])
          (Some tt).

End Statements.

(** ** Sorting a table by a column, keeping the order of equal rows *)

Section StableSort.

Variable A : Type.

(** [before x y]: row [x] may stand in front of row [y]. *)
Variable before : A -> A -> bool.

Fixpoint insert_by (x : A) (sorted : list A) : list A :=
  match sorted with
  | [] => [x]
  | y :: rest => if before x y then x :: sorted else y :: insert_by x rest
  end.

Definition sort_by (rows : list A) : list A := fold_right insert_by [] rows.

End StableSort.

Arguments insert_by {A} before x sorted.
Arguments sort_by {A} before rows.

(** ** main.py: the top-20 export *)

Module MainPy.

(** [ratings.csv] as [read_csv] returns it: the column labels and the rows
    (a cell of an absent column is missing in every row). *)
Record RatingsCsv : Type := mkRatingsCsv {
  columns : list string;
  rows : list Rating.t
}.

(** The exceptions of this script: those of the scorer, and the
    [ValueError] that names the missing columns. *)
Inductive error : Type :=
| PyError (e : exn)
| ValueError (missing : gset string).

Inductive outcome (A : Type) : Type :=
| Ok (a : A)
| Fail (e : error).
Arguments Ok {A} a.
Arguments Fail {A} e.

(** [load_ratings()] *)
Definition load_ratings (file : option RatingsCsv) : outcome RatingsCsv :=
  match file with
  | None => Fail (PyError FileNotFoundError)
  | Some ratings => Ok ratings
  end.

Definition need : gset string := {[ "movieId"; "rating" ]}.

(** [build_movie_stats(ratings)]: the column check, then the aggregation of
    [Scripts/build_db.py]. *)
Definition build_movie_stats (ratings : RatingsCsv) (h : heap)
  : outcome ref * heap :=
  let missing := need ∖ list_to_set (columns ratings) in
  if decide (missing = ∅) then
    match new_frame (BuildDb.stats_frame (BuildDb.movie_stats_rows (rows ratings))) h with
    | (Returns movie_stats, h') => (Ok movie_stats, h')
    | (Raises e, h') => (Fail (PyError e), h')
    end
  else (Fail (ValueError missing), h).

(** [sort_values("weighted_rating", ascending=False)]: higher scores first,
    NaN last. *)
Definition score_before (a b : Scored.t) : bool :=
  Sql.le (Scored.weighted_rating b) (Scored.weighted_rating a).

(** [main()]: the table it hands to [save_outputs], which writes it to
    [top20_weighted.csv] and draws one bar per row. *)
Definition main (file : option RatingsCsv) (h : heap)
  : outcome (list Scored.t) * heap :=
  match load_ratings file with
  | Fail e => (Fail e, h)
  | Ok ratings =>
  match build_movie_stats ratings h with
  | (Fail e, h) => (Fail e, h)
  | (Ok movie_stats, h) =>
  match Top20.bayesian_weighted movie_stats 1000 h with
  | (Raises e, h) => (Fail (PyError e), h)
  | (Returns movie_stats, h) =>
  match BuildDb.frame_rows movie_stats h with
  | (Raises e, h) => (Fail (PyError e), h)
  | (Returns scored, h) =>
      let top20 := firstn 20 (sort_by score_before scored) in
      (Ok top20, h)
  end end end end.

End MainPy.

(** ** analysis.py: the popularity and activity rankings *)

(** A row of [df = ratings.merge(movies, on="movieId", how="left")]; the
    columns of [movies.csv] are [movieId], [title] and [genres]. *)
Module Merged.
Record t : Type := mk {
  userId : option Z;
  movieId : option Z;
  rating : float;
  timestamp : option Z;
  title : option string;
  genres : option string
}.
End Merged.

(** A row of the statistics per movie and title. *)
Module MovieStat.
Record t : Type := mk {
  movieId : Z;
  title : string;
  rating_count : Z;
  avg_rating : float
}.
End MovieStat.

(** A row of the statistics per user. *)
Module UserStat.
Record t : Type := mk {
  userId : Z;
  rating_count : Z;
  avg_rating : float
}.
End UserStat.

Module AnalysisPy.

(** [load()]: [read_csv] raises [FileNotFoundError] for a missing file. *)
Definition load (ratings_file : option (list Rating.t))
    (movies_file : option (list Movie.t))
  : result (list Rating.t * list Movie.t) :=
  match ratings_file with
  | None => Raises FileNotFoundError
  | Some ratings =>
      match movies_file with
      | None => Raises FileNotFoundError
      | Some movies => Returns (ratings, movies)
      end
  end.

Definition with_meta (r : Rating.t) (title genres : option string) : Merged.t :=
  Merged.mk (Rating.userId r) (Rating.movieId r) (Rating.rating r)
            (Rating.timestamp r) title genres.

(** The left merge: every rating, once per row of [movies] with its
    [movieId] (the metadata is not de-duplicated here), or once with
    missing title and genres. *)
Definition merge_row (movies : list Movie.t) (r : Rating.t) : list Merged.t :=
  match List.filter
          (fun mv => Rating.same_cell (Rating.movieId r) (Some (Movie.movieId mv)))
          movies with
  | [] => [with_meta r None None]
  | found => map (fun mv => with_meta r (Movie.title mv) (Movie.genres mv)) found
  end.

Definition merge (ratings : list Rating.t) (movies : list Movie.t) : list Merged.t :=
  flat_map (merge_row movies) ratings.

(** [groupby(["movieId", "title"], as_index=False)]: a row with a missing
    key forms no group; the groups come in ascending order of the pair. *)
Definition key_of (d : Merged.t) : option (Z * string) :=
  match Merged.movieId d, Merged.title d with
  | Some k, Some t => Some (k, t)
  | _, _ => None
  end.

Definition key_compare (a b : Z * string) : comparison :=
  match Z.compare (fst a) (fst b) with
  | Eq => String.compare (snd a) (snd b)
  | c => c
  end.

Fixpoint insert_key (k : Z * string) (keys : list (Z * string)) : list (Z * string) :=
  match keys with
  | [] => [k]
  | x :: rest =>
      match key_compare k x with
      | Lt => k :: keys
      | Eq => keys
      | Gt => x :: insert_key k rest
      end
  end.

Definition movie_keys (df : list Merged.t) : list (Z * string) :=
  fold_right insert_key [] (omap key_of df).

Definition in_group (k : Z * string) (d : Merged.t) : bool :=
  match key_of d with
  | Some k' => (fst k =? fst k') && String.eqb (snd k) (snd k')
  | None => false
  end.

(** ["size"] counts the rows of the group, ["mean"] averages its ratings. *)
Definition movie_stats (df : list Merged.t) : list MovieStat.t :=
  map (fun k =>
         let g := List.filter (in_group k) df in
         MovieStat.mk (fst k) (snd k) (Z.of_nat (length g))
                      (Float.nanmean (map Merged.rating g)))
      (movie_keys df).

(** [sort_values(["rating_count", "avg_rating"], ascending=[False, False])] *)
Definition popular_before (a b : MovieStat.t) : bool :=
  (MovieStat.rating_count b <? MovieStat.rating_count a)
  || ((MovieStat.rating_count a =? MovieStat.rating_count b)
      && Sql.le (MovieStat.avg_rating b) (MovieStat.avg_rating a)).

Definition popular_top20 (stats : list MovieStat.t) : list MovieStat.t :=
  firstn 20
    (sort_by popular_before
       (List.filter (fun s => 50 <=? MovieStat.rating_count s) stats)).

(** [groupby("userId", as_index=False)] and its ranking by count. *)
Definition user_keys (df : list Merged.t) : list Z :=
  fold_right BuildDb.insert_key [] (omap Merged.userId df).

Definition of_user (u : Z) (d : Merged.t) : bool :=
  Rating.same_cell (Merged.userId d) (Some u).

Definition user_stats (df : list Merged.t) : list UserStat.t :=
  map (fun u =>
         let g := List.filter (of_user u) df in
         UserStat.mk u (Z.of_nat (length g)) (Float.nanmean (map Merged.rating g)))
      (user_keys df).

Definition user_before (a b : UserStat.t) : bool :=
  UserStat.rating_count b <=? UserStat.rating_count a.

Definition user_top20 (stats : list UserStat.t) : list UserStat.t :=
  firstn 20 (sort_by user_before stats).

(** The three files [main()] writes, and the line the cleaning prints. *)
Record Outputs : Type := mkOutputs {
  clean_log : Analysis.CleanLog;
  ratings_merged_cleaned : list Merged.t;
  top20_popular_movies : list MovieStat.t;
  top20_active_users : list UserStat.t
}.

Definition main (ratings_file : option (list Rating.t))
    (movies_file : option (list Movie.t)) : result Outputs :=
  match load ratings_file movies_file with
  | Raises e => Raises e
  | Returns (ratings, movies) =>
      let (log, ratings) := Analysis.clean_ratings ratings in
      let df := merge ratings movies in
      let popular_top20 := popular_top20 (movie_stats df) in
      let user_top20 := user_top20 (user_stats df) in
      Returns (mkOutputs log df popular_top20 user_top20)
  end.

End AnalysisPy.

(** ** Definitions used in the further statements *)

Section MoreStatements.

Import BuildDb.

(** A rating row that no step of the cleaning drops for its own content:
    the three required cells are present and the rating is in range. *)
Definition valid_row (r : Rating.t) : bool :=
  negb (Rating.isna (Rating.userId r))
  && negb (Rating.isna (Rating.movieId r))
  && negb (Float.isna (Rating.rating r))
  && in_range r.

(** The rows of a rating table that belong to movie [k]. *)
Definition ratings_of (k : Z) (ratings : list Rating.t) : list Rating.t :=
  List.filter (fun r => Rating.same_cell (Rating.movieId r) (Some k)) ratings.

(** A cell that is a number (neither NaN nor an infinity). *)
Definition is_fin (x : float) : bool :=
  match x with Float.Fin _ => true | _ => false end.

(** A frame without any column, and the scenario's table with a movie that
    has no rating at all. *)
Definition unrated_row : list Stats.t :=
  [Stats.mk 1 2 (Float.Fin 5); Stats.mk 2 0 (Float.Fin 1)].

Definition nan_row : list Stats.t :=
  [Stats.mk 1 2 (Float.Fin 5); Stats.mk 2 0 Float.NaN].

(** A table where the two movies have the same count, and one where they
    have the same average. *)
Definition same_count : list Stats.t :=
  [Stats.mk 1 7 (Float.Fin 2); Stats.mk 2 7 (Float.Fin 4)].

Definition same_average : list Stats.t :=
  [Stats.mk 1 3 (Float.Fin 4); Stats.mk 2 90 (Float.Fin 4);
   Stats.mk 3 10 (Float.Fin 1)].

(** The item the recommendation query builds from a row of the merged
    table. *)
Definition item_of (e : Entry.t) : Item.t :=
  Item.mk (Entry.movieId e) (Entry.title e) (Entry.genres e)
          (Entry.rating_count e) (Entry.avg_rating e) (Entry.weighted_rating e).

(** [g] and [text] have the same length and the same characters up to the
    case of the ASCII letters. *)
Fixpoint same_nocase (g text : string) : bool :=
  match g, text with
  | EmptyString, EmptyString => true
  | String c g', String d text' => Str.eq_nocase c d && same_nocase g' text'
  | _, _ => false
  end.

(** A string without the two wildcards of [LIKE]. *)
Fixpoint no_wildcard (g : string) : bool :=
  match g with
  | EmptyString => true
  | String c g' => negb (Ascii.eqb c "%") && negb (Ascii.eqb c "_") && no_wildcard g'
  end.

(** [text] contains [g] as a substring, up to ASCII case. *)
Definition contains_nocase (g text : string) : Prop :=
  exists pre mid suf : string,
    text = (pre ++ mid ++ suf)%string /\ same_nocase g mid = true.

(** A database whose [movies] table has four titled rows. *)
Definition four_titles : Database :=
  mkDatabase
    [MovieRow.mk (Float.of_Z 1) (Some "Heat") (Some "Action|Crime");
     MovieRow.mk (Float.of_Z 2) (Some "The Heat") (Some "Comedy");
     MovieRow.mk (Float.of_Z 3) None (Some "Drama");
     MovieRow.mk (Float.of_Z 4) (Some "Cheaters") (Some "Dramatic-Fiction")]
    [Scored.mk (Float.of_Z 1) (Float.of_Z 60) (Float.Fin 4) (Float.Fin 3);
     Scored.mk (Float.of_Z 4) (Float.of_Z 70) (Float.Fin 4) (Float.Fin (7 # 2))].

(** [ratings.csv] files for [main.py]: the scenario, and one without the
    [rating] column. *)
Definition scenario_csv : MainPy.RatingsCsv :=
  MainPy.mkRatingsCsv ["userId"; "movieId"; "rating"; "timestamp"] scenario_ratings.

Definition csv_without_rating : MainPy.RatingsCsv :=
  MainPy.mkRatingsCsv ["userId"; "movieId"; "timestamp"] [].

(** The rating a merged row comes from. *)
Definition rating_of (d : Merged.t) : Rating.t :=
  Rating.mk (Merged.userId d) (Merged.movieId d) (Merged.rating d)
            (Merged.timestamp d).

(** The rating rows of user [u]. *)
Definition ratings_by (u : Z) (ratings : list Rating.t) : list Rating.t :=
  List.filter (fun r => Rating.same_cell (Rating.userId r) (Some u)) ratings.

(** A row of the statistics of [analysis.py], without its title, as a row
    of the statistics of [build_db.py]. *)
Definition stats_of (s : MovieStat.t) : Stats.t :=
  Stats.mk (MovieStat.movieId s) (MovieStat.rating_count s) (MovieStat.avg_rating s).

(** Metadata for the movies of the scenario: movie 2 has none. *)
Definition scenario_movies : list Movie.t :=
  [Movie.mk 1 (Some "Toy Story") (Some "Comedy");
   Movie.mk 9 (Some "Heat") (Some "Action")].

End MoreStatements.

(** * Properties *)

(** ** The scorer *)

Section Scorer.

Import BuildDb.

Lemma bayesian_weighted_run (h : heap) (p : ref) (frame : DataFrame)
    (m : Z) (cnt avg : column) :
  h !! p = Some frame ->
  frame !! "avg_rating" = Some avg ->
  frame !! "rating_count" = Some cnt ->
  bayesian_weighted p m h =
    (Returns p, <[p := <["weighted_rating" := weighted_column cnt avg m]> frame]> h).
Proof.
  intros Hp Havg Hcnt.
  unfold bayesian_weighted, bind, getitem, setitem, ret.
  repeat (rewrite ?Hp, ?Havg, ?Hcnt; cbv beta iota zeta).
  reflexivity.
Qed.

Lemma bayesian_weighted_missing (h : heap) (p : ref) (frame : DataFrame) (m : Z) :
  h !! p = Some frame ->
  frame !! "avg_rating" = None ->
  bayesian_weighted p m h = (Raises (KeyError "avg_rating"), h).
Proof.
  intros Hp Havg.
  unfold bayesian_weighted, bind, getitem.
  rewrite Hp; cbv beta iota. rewrite Havg. reflexivity.
Qed.

Lemma zip_with_map_map {A B C D} (f : B -> C -> D) (g : A -> B) (k : A -> C)
    (l : list A) :
  zip_with f (map g l) (map k l) = map (fun x => f (g x) (k x)) l.
Proof. induction l as [|x l IH]; simpl; [reflexivity | now rewrite IH]. Qed.

Lemma weighted_column_rows (rows : list Stats.t) (m : Z) :
  weighted_column (IntCol (map Stats.rating_count rows))
                  (FloatCol (map Stats.avg_rating rows)) m
  = FloatCol
      (map (fun r => weigh m (Float.nanmean (map Stats.avg_rating rows))
                       (Stats.rating_count r) (Stats.avg_rating r))
           rows).
Proof.
  unfold weighted_column, series_add, series_mul, series_truediv,
    series_mul_scalar, int_rtruediv, series_add_int, series_mean, floats.
  f_equal.
  generalize (Float.nanmean (map Stats.avg_rating rows)) as C. intros C.
  induction rows as [|r rows IH]; [reflexivity|].
  cbn [map zip_with]. f_equal. exact IH.
Qed.

Lemma stats_frame_avg (rows : list Stats.t) :
  stats_frame rows !! "avg_rating" = Some (FloatCol (map Stats.avg_rating rows)).
Proof. reflexivity. Qed.

Lemma stats_frame_count (rows : list Stats.t) :
  stats_frame rows !! "rating_count" = Some (IntCol (map Stats.rating_count rows)).
Proof. reflexivity. Qed.

(** What the call does to a store that holds the statistics of [rows]. *)
Lemma bayesian_weighted_stats (h : heap) (p : ref) (rows : list Stats.t) (m : Z) :
  h !! p = Some (stats_frame rows) ->
  bayesian_weighted p m h =
    (Returns p,
     <[p := <["weighted_rating" :=
                FloatCol
                  (map (fun r => weigh m (Float.nanmean (map Stats.avg_rating rows))
                                   (Stats.rating_count r) (Stats.avg_rating r))
                       rows)]>
              (stats_frame rows)]> h).
Proof.
  intros Hp.
  rewrite (bayesian_weighted_run h p _ m _ _ Hp
             (stats_frame_avg rows) (stats_frame_count rows)).
  now rewrite weighted_column_rows.
Qed.

(** *** The mean and the score of finite cells *)


Lemma filter_fin (qs : list Q) :
  List.filter (fun x => negb (Float.isna x)) (map Float.Fin qs) = map Float.Fin qs.
Proof. induction qs as [|q qs IH]; simpl; [reflexivity | now rewrite IH]. Qed.


Lemma weigh_fin (m n : Z) (c a : Q) :
  n + m <> 0 ->
  weigh m (Float.Fin c) n (Float.Fin a)
  = Float.Fin (spec_weighted_rating m c n a).
Proof.
  intros Hd.
  unfold spec_weighted_rating, weigh, Float.div, Float.of_Z, Float.Qis_zero.
  cbn [Qnum inject_Z].
  destruct (Z.eqb_spec (n + m) 0) as [E|_]; [contradiction|].
  reflexivity.
Qed.

(** *** Arithmetic of the formula *)

Local Open Scope Q_scope.

Lemma den_pos (m n : Z) : (0 < m)%Z -> (0 <= n)%Z -> 0 < inject_Z (n + m).
Proof. intros Hm Hn. change 0 with (inject_Z 0). rewrite <- Zlt_Qlt. lia. Qed.

Lemma shrink_decomp (m n : Z) (a c : Q) :
  (0 < m)%Z -> (0 <= n)%Z ->
  spec_weighted_rating m c n a == a + (inject_Z m / inject_Z (n + m)) * (c - a).
Proof.
  intros Hm Hn. pose proof (den_pos m n Hm Hn) as Hd. unfold spec_weighted_rating.
  rewrite inject_Z_plus in *. field. lra.
Qed.

Lemma pull_bounds (m n : Z) :
  (0 < m)%Z -> (0 <= n)%Z -> 0 < inject_Z m / inject_Z (n + m) <= 1.
Proof.
  intros Hm Hn. pose proof (den_pos m n Hm Hn) as Hd.
  assert (0 < inject_Z m) as Hm' by (change 0 with (inject_Z 0); rewrite <- Zlt_Qlt; lia).
  assert (inject_Z m <= inject_Z (n + m)) as Hle by (rewrite <- Zle_Qle; lia).
  split.
  - apply Qlt_shift_div_l; lra.
  - apply Qle_shift_div_r; lra.
Qed.

Lemma pull_antitone (m n1 n2 : Z) :
  (0 < m)%Z -> (0 <= n1)%Z -> (n1 <= n2)%Z ->
  inject_Z m / inject_Z (n2 + m) <= inject_Z m / inject_Z (n1 + m).
Proof.
  intros Hm H1 H2.
  pose proof (den_pos m n1 Hm H1) as Hd1.
  assert (0 <= n2)%Z as H2' by lia.
  pose proof (den_pos m n2 Hm H2') as Hd2.
  assert (0 < inject_Z m) as Hm' by (change 0 with (inject_Z 0); rewrite <- Zlt_Qlt; lia).
  assert (inject_Z (n1 + m) <= inject_Z (n2 + m)) as Hle by (rewrite <- Zle_Qle; lia).
  apply Qle_shift_div_l; [assumption|].
  assert (E : inject_Z m / inject_Z (n2 + m) * inject_Z (n1 + m)
              == inject_Z m * (inject_Z (n1 + m) / inject_Z (n2 + m))) by (field; lra).
  rewrite E.
  assert (inject_Z (n1 + m) / inject_Z (n2 + m) <= 1) by (apply Qle_shift_div_r; lra).
  nra.
Qed.

Lemma pull_strict (m n1 n2 : Z) :
  (0 < m)%Z -> (0 <= n1)%Z -> (n1 < n2)%Z ->
  inject_Z m / inject_Z (n2 + m) < inject_Z m / inject_Z (n1 + m).
Proof.
  intros Hm H1 H2.
  pose proof (den_pos m n1 Hm H1) as Hd1.
  assert (0 <= n2)%Z as H2' by lia.
  pose proof (den_pos m n2 Hm H2') as Hd2.
  assert (0 < inject_Z m) as Hm' by (change 0 with (inject_Z 0); rewrite <- Zlt_Qlt; lia).
  assert (inject_Z (n1 + m) < inject_Z (n2 + m)) as Hle by (rewrite <- Zlt_Qlt; lia).
  apply Qlt_shift_div_l; [assumption|].
  assert (E : inject_Z m / inject_Z (n2 + m) * inject_Z (n1 + m)
              == inject_Z m * (inject_Z (n1 + m) / inject_Z (n2 + m))) by (field; lra).
  rewrite E.
  assert (inject_Z (n1 + m) / inject_Z (n2 + m) < 1) by (apply Qlt_shift_div_r; lra).
  nra.
Qed.

Lemma shrink_between (m n : Z) (a c : Q) :
  (0 < m)%Z -> (0 <= n)%Z ->
  Qmin a c <= spec_weighted_rating m c n a <= Qmax a c.
Proof.
  intros Hm Hn. rewrite (shrink_decomp m n a c Hm Hn).
  pose proof (pull_bounds m n Hm Hn) as [Hs0 Hs1].
  set (s := inject_Z m / inject_Z (n + m)) in *.
  destruct (Q.min_spec a c) as [[Hlt Hmin]|[Hle Hmin]];
  destruct (Q.max_spec a c) as [[Hlt' Hmax]|[Hle' Hmax]];
  rewrite Hmin, Hmax; split; nra.
Qed.

Lemma shrink_distance (m n : Z) (a c : Q) :
  (0 < m)%Z -> (0 <= n)%Z ->
  Qabs (spec_weighted_rating m c n a - a) == inject_Z m / inject_Z (n + m) * Qabs (c - a).
Proof.
  intros Hm Hn. rewrite (shrink_decomp m n a c Hm Hn).
  pose proof (pull_bounds m n Hm Hn) as [Hs0 Hs1].
  set (s := inject_Z m / inject_Z (n + m)) in *.
  assert (E : a + s * (c - a) - a == s * (c - a)) by ring.
  rewrite E, Qabs_Qmult, (Qabs_pos s); [reflexivity | lra].
Qed.

Lemma shrink_closer (m n1 n2 : Z) (a c : Q) :
  (0 < m)%Z -> (0 <= n1)%Z -> (n1 <= n2)%Z ->
  Qabs (spec_weighted_rating m c n2 a - a) <= Qabs (spec_weighted_rating m c n1 a - a).
Proof.
  intros Hm H1 H2.
  rewrite !shrink_distance by lia.
  pose proof (pull_antitone m n1 n2 Hm H1 H2).
  pose proof (Qabs_nonneg (c - a)).
  nra.
Qed.

Lemma shrink_strictly_closer (m n1 n2 : Z) (a c : Q) :
  (0 < m)%Z -> (0 <= n1)%Z -> (n1 < n2)%Z -> ~ a == c ->
  Qabs (spec_weighted_rating m c n2 a - a) < Qabs (spec_weighted_rating m c n1 a - a).
Proof.
  intros Hm H1 H2 Hne.
  rewrite !shrink_distance by lia.
  pose proof (pull_strict m n1 n2 Hm H1 H2).
  assert (0 < Qabs (c - a)).
  { destruct (Q_dec a c) as [[Hlt|Hgt]|Heq]; [| |contradiction].
    - rewrite Qabs_pos; lra.
    - rewrite Qabs_neg; lra. }
  nra.
Qed.

Local Close Scope Q_scope.

End Scorer.

(** ** Rounding

    What the statements about the machine's scores use of [Binary64.round]:
    the error of one rounding, the integers it keeps, and its monotonicity. *)

Section Rounding.
Import Binary64.
Local Open Scope Q_scope.
Lemma rne_error (q : Q) : Qabs (inject_Z (rne q) - q) <= 1 # 2.
Proof.
  unfold rne. pose proof (Qfloor_le q) as Hlo. pose proof (Qlt_floor q) as Hhi.
  rewrite inject_Z_plus in Hhi. change (inject_Z 1) with 1 in Hhi.
  apply Qabs_Qle_condition.
  destruct (Qcompare_spec (q - inject_Z (Qfloor q)) (1 # 2)) as [E|E|E].
  - destruct (Z.even (Qfloor q));
      rewrite ?inject_Z_plus; change (inject_Z 1) with 1; lra.
  - lra.
  - rewrite inject_Z_plus. change (inject_Z 1) with 1. lra.
Qed.

(** An integer within one half of an integer is that integer. *)
Lemma rne_int (q : Q) (z : Z) : q == inject_Z z -> rne q = z.
Proof.
  intros E. pose proof (rne_error q) as H.
  apply Qabs_Qle_condition in H as [H1 H2].
  assert (-1 < inject_Z (rne q - z) < 1) as [H3 H4]
    by (unfold Z.sub; rewrite inject_Z_plus, inject_Z_opp; lra).
  change (-1) with (inject_Z (-1)) in H3. change 1 with (inject_Z 1) in H4.
  rewrite <- Zlt_Qlt in H3, H4. lia.
Qed.

Lemma rne_bound (q : Q) (N : Z) :
  Qabs q <= inject_Z N -> Qabs (inject_Z (rne q)) <= inject_Z N.
Proof.
  intros H. pose proof (rne_error q) as He.
  apply Qabs_Qle_condition in H as [H1 H2].
  apply Qabs_Qle_condition in He as [H3 H4].
  assert (inject_Z (- N - 1) < inject_Z (rne q) < inject_Z (N + 1)) as [H5 H6].
  { unfold Z.sub. rewrite !inject_Z_plus, !inject_Z_opp.
    change (inject_Z 1) with 1. lra. }
  rewrite <- Zlt_Qlt in H5, H6.
  apply Qabs_Qle_condition. rewrite <- inject_Z_opp, <- !Zle_Qle. lia.
Qed.

Lemma rne_sign (q : Q) :
  (0 <= q -> (0 <= rne q)%Z) /\ (q <= 0 -> (rne q <= 0)%Z).
Proof.
  pose proof (rne_error q) as He. apply Qabs_Qle_condition in He as [H3 H4].
  split; intros H.
  - assert (inject_Z (-1) < inject_Z (rne q)) as H5
      by (change (inject_Z (-1)) with (-1); lra).
    rewrite <- Zlt_Qlt in H5. lia.
  - assert (inject_Z (rne q) < inject_Z 1) as H5
      by (change (inject_Z 1) with 1; lra).
    rewrite <- Zlt_Qlt in H5. lia.
Qed.

Lemma two_neq_0 : ~ 2 == 0.
Proof. discriminate. Qed.

Lemma pow2_pos (e : Z) : 0 < 2 ^ e.
Proof. apply Qpower_0_lt. reflexivity. Qed.

Lemma pow2_le (a b : Z) : (a <= b)%Z -> 2 ^ a <= 2 ^ b.
Proof. intros H. apply Qpower_le_compat_l; [exact H | discriminate]. Qed.

Lemma pow2_le_inv (a b : Z) : 2 ^ a <= 2 ^ b -> (a <= b)%Z.
Proof. intros H. apply (Qpower_le_compat_l_inv 2); [exact H | reflexivity]. Qed.

Lemma pow2_Z (n : Z) : (0 <= n)%Z -> 2 ^ n == inject_Z (2 ^ n).
Proof. intros H. now rewrite (Zpower_Qpower 2 n H). Qed.

Lemma pow2_succ (e : Z) : 2 ^ (e + 1) == 2 * 2 ^ e.
Proof. rewrite (Qpower_plus 2 e 1 two_neq_0). change (2 ^ 1) with 2. ring. Qed.

(** The exponent [ilog2] finds is not above the number. *)
Lemma ilog2_le (q : Q) : 0 < q -> 2 ^ ilog2 q <= q.
Proof.
  intros Hq. unfold ilog2.
  destruct (Qle_bool _ q) eqn:E; [now apply Qle_bool_iff|].
  clear E. destruct q as [n d]. cbn [Qnum Qden].
  set (a := Z.log2 n). set (b := Z.log2 (Z.pos d)).
  assert (Hn : (0 < n)%Z) by (unfold Qlt in Hq; simpl in Hq; lia).
  destruct (Z.log2_spec n Hn) as [Ha _]. fold a in Ha.
  destruct (Z.log2_spec (Z.pos d) ltac:(lia)) as [_ Hb]. fold b in Hb.
  replace (Z.succ b) with (b + 1)%Z in Hb by lia.
  assert (H0a : (0 <= a)%Z) by apply Z.log2_nonneg.
  assert (H0b : (0 <= b)%Z) by apply Z.log2_nonneg.
  assert (E1 : 2 ^ (a - b - 1) == inject_Z (2 ^ a) / inject_Z (2 ^ (b + 1))).
  { replace (a - b - 1)%Z with (a - (b + 1))%Z by lia.
    rewrite (Qpower_minus 2 a (b + 1) two_neq_0).
    now rewrite (pow2_Z a H0a), (pow2_Z (b + 1)) by lia. }
  assert (E2 : n # d == inject_Z n / inject_Z (Z.pos d)) by apply Qmake_Qdiv.
  assert (H1 : inject_Z (2 ^ a) <= inject_Z n) by (now rewrite <- Zle_Qle).
  assert (H2 : inject_Z (Z.pos d) < inject_Z (2 ^ (b + 1)))
    by (now rewrite <- Zlt_Qlt).
  assert (H3 : 0 < inject_Z (Z.pos d))
    by (change 0 with (inject_Z 0); rewrite <- Zlt_Qlt; lia).
  assert (H4 : 0 < inject_Z (2 ^ a)).
  { change 0 with (inject_Z 0). rewrite <- Zlt_Qlt. apply Z.pow_pos_nonneg; lia. }
  rewrite E1, E2.
  apply Qle_shift_div_l; [lra|].
  assert (E : inject_Z (2 ^ a) / inject_Z (2 ^ (b + 1)) * inject_Z (Z.pos d)
              == inject_Z (2 ^ a) * (inject_Z (Z.pos d) / inject_Z (2 ^ (b + 1))))
    by (field; lra).
  rewrite E.
  assert (inject_Z (Z.pos d) / inject_Z (2 ^ (b + 1)) <= 1)
    by (apply Qle_shift_div_r; lra).
  nra.
Qed.

Lemma Qabs_bounds (x y : Q) : Qabs x <= y <-> - y <= x /\ x <= y.
Proof. apply Qabs_Qle_condition. Qed.

Lemma Qabs_pos_neq (q : Q) : ~ q == 0 -> 0 < Qabs q.
Proof.
  intros H. destruct (Qlt_le_dec q 0) as [Hq|Hq].
  - rewrite (Qabs_neg q) by lra. lra.
  - rewrite (Qabs_pos q Hq).
    destruct (Qle_lt_or_eq _ _ Hq) as [?|E]; [assumption|].
    exfalso. apply H. now symmetry.
Qed.

(** Rounding a number of magnitude at most [2 ^ k]: the result is a number,
    within half a unit in the last place, of the same sign and of magnitude
    at most [2 ^ k]. *)
Lemma round_spec (q : Q) (k : Z) :
  (-1022 <= k <= 1023)%Z -> Qabs q <= 2 ^ k ->
  exists r : Q,
    round q = Float.Fin r
    /\ Qabs (r - q) <= 2 ^ (k - 53)
    /\ Qabs r <= 2 ^ k
    /\ (0 <= q -> 0 <= r) /\ (q <= 0 -> r <= 0).
Proof.
  intros Hk Hq. unfold round.
  pose proof (pow2_pos k) as HP. pose proof (pow2_pos (k - 53)) as Hh.
  destruct (Qeq_bool q 0) eqn:E0.
  - apply Qeq_bool_iff in E0. exists 0. split; [reflexivity|].
    rewrite !Qabs_bounds. repeat split; lra.
  - apply Qeq_bool_neq in E0.
    pose proof (Qabs_pos_neq q E0) as Hpos.
    pose proof (ilog2_le (Qabs q) Hpos) as Hlog.
    assert (Hlogk : (ilog2 (Qabs q) <= k)%Z) by (apply pow2_le_inv; lra).
    set (e := Z.max (ilog2 (Qabs q)) (-1022)).
    assert (He : (e <= k)%Z) by (unfold e; lia).
    set (ulp := 2 ^ (e - 52)).
    assert (Hulp : 0 < ulp) by apply pow2_pos.
    set (x := q / ulp).
    assert (Hx : x * ulp == q) by (unfold x; field; lra).
    set (N := (2 ^ (k - e + 52))%Z).
    assert (HN : inject_Z N * ulp == 2 ^ k).
    { unfold N, ulp. rewrite <- (pow2_Z (k - e + 52)) by lia.
      rewrite <- (Qpower_plus 2 _ _ two_neq_0).
      now replace (k - e + 52 + (e - 52))%Z with k by lia. }
    assert (Hhalf : ulp <= 2 * 2 ^ (k - 53)).
    { rewrite <- pow2_succ. apply pow2_le. lia. }
    apply Qabs_bounds in Hq as [Hq1 Hq2].
    assert (HxN : Qabs x <= inject_Z N) by (apply Qabs_bounds; split; nra).
    pose proof (rne_bound x N HxN) as Hn.
    pose proof (rne_error x) as Herr.
    pose proof (rne_sign x) as [Hs1 Hs2].
    set (n := rne x) in *.
    set (r := Qred (inject_Z n * ulp)).
    assert (Hr : r == inject_Z n * ulp) by apply Qred_correct.
    apply Qabs_bounds in Hn as [Hn1 Hn2]. apply Qabs_bounds in Herr as [He1 He2].
    assert (Hrk : Qabs r <= 2 ^ k) by (apply Qabs_bounds; split; nra).
    destruct (Qle_bool (2 ^ 1024) (Qabs r)) eqn:Eov.
    { exfalso. apply Qle_bool_iff in Eov.
      pose proof (Qpower_lt_compat_l 2 k 1024 ltac:(lia) ltac:(reflexivity)). lra. }
    exists r. split; [reflexivity|].
    split; [apply Qabs_bounds; split; nra|].
    split; [exact Hrk|].
    split; intros H0.
    + assert (0 <= x) by (unfold x; apply Qle_shift_div_l; lra).
      assert (0 <= inject_Z n) by (change 0 with (inject_Z 0); rewrite <- Zle_Qle; auto).
      nra.
    + assert (x <= 0) by (unfold x; apply Qle_shift_div_r; lra).
      assert (inject_Z n <= 0) by (change 0 with (inject_Z 0); rewrite <- Zle_Qle; auto).
      nra.
Qed.

Lemma Qred_inject_Z (z : Z) : Qred (inject_Z z) = inject_Z z.
Proof.
  unfold Qred, inject_Z.
  pose proof (Z.ggcd_gcd z 1) as Hg.
  pose proof (Z.ggcd_correct_divisors z 1) as Hd.
  destruct (Z.ggcd z 1) as [g [a b]]. cbn [fst snd] in *.
  rewrite Z.gcd_1_r in Hg. subst g. destruct Hd as [Ha Hb].
  rewrite Z.mul_1_l in Ha, Hb. now subst.
Qed.

(** An integer below [2 ^ 53] in magnitude converts exactly. *)
Lemma round_int (z : Z) :
  (Z.abs z < 2 ^ 53)%Z -> round (inject_Z z) = Float.Fin (inject_Z z).
Proof.
  intros Hz. unfold round.
  destruct (Qeq_bool (inject_Z z) 0) eqn:E0.
  - apply Qeq_bool_iff in E0. change 0 with (inject_Z 0) in E0.
    apply (proj1 (inject_Z_injective z 0)) in E0. subst z. reflexivity.
  - apply Qeq_bool_neq in E0.
    pose proof (Qabs_pos_neq _ E0) as Hpos.
    pose proof (ilog2_le _ Hpos) as Hlog.
    assert (Habs : Qabs (inject_Z z) < 2 ^ 53).
    { rewrite (pow2_Z 53) by lia.
      destruct (Z.abs_spec z) as [[H0 E]|[H0 E]].
      - rewrite Qabs_pos by (change 0 with (inject_Z 0); rewrite <- Zle_Qle; lia).
        rewrite <- Zlt_Qlt. lia.
      - rewrite Qabs_neg by (change 0 with (inject_Z 0); rewrite <- Zle_Qle; lia).
        rewrite <- inject_Z_opp, <- Zlt_Qlt. lia. }
    assert (Hlt : (ilog2 (Qabs (inject_Z z)) < 53)%Z).
    { apply (Qpower_lt_compat_l_inv 2); [lra | reflexivity]. }
    set (e := Z.max (ilog2 (Qabs (inject_Z z))) (-1022)).
    assert (He : (e <= 52)%Z) by (unfold e; lia).
    set (ulp := 2 ^ (e - 52)).
    assert (Hulp : 0 < ulp) by apply pow2_pos.
    set (s := (z * 2 ^ (52 - e))%Z).
    assert (Hs : inject_Z (2 ^ (52 - e)) * ulp == 1).
    { unfold ulp. rewrite <- (pow2_Z (52 - e)) by lia.
      rewrite <- (Qpower_plus 2 _ _ two_neq_0).
      now replace (52 - e + (e - 52))%Z with 0%Z by lia. }
    assert (Hx : inject_Z z / ulp == inject_Z s).
    { unfold s. rewrite inject_Z_mult.
      assert (E : inject_Z z / ulp
                  == inject_Z z * (inject_Z (2 ^ (52 - e)) * ulp) / ulp)
        by (rewrite Hs; field; lra).
      rewrite E. field. lra. }
    rewrite (rne_int _ s Hx).
    assert (Hr : inject_Z s * ulp == inject_Z z).
    { unfold s. rewrite inject_Z_mult.
      transitivity (inject_Z z * (inject_Z (2 ^ (52 - e)) * ulp)); [ring|].
      rewrite Hs. ring. }
    rewrite (Qred_complete _ _ Hr), Qred_inject_Z.
    destruct (Qle_bool (2 ^ 1024) (Qabs (inject_Z z))) eqn:Eov; [|reflexivity].
    exfalso. apply Qle_bool_iff in Eov.
    pose proof (Qpower_lt_compat_l 2 53 1024 ltac:(lia) ltac:(reflexivity)). lra.
Qed.

(** ... and the number is below the next power of two. *)
Lemma ilog2_lt (q : Q) : 0 < q -> q < 2 ^ (ilog2 q + 1).
Proof.
  intros Hq. unfold ilog2.
  destruct (Qle_bool _ q) eqn:E.
  - clear E. destruct q as [n d]. cbn [Qnum Qden].
    set (a := Z.log2 n). set (b := Z.log2 (Z.pos d)).
    assert (Hn : (0 < n)%Z) by (unfold Qlt in Hq; simpl in Hq; lia).
    destruct (Z.log2_spec n Hn) as [_ Ha]. fold a in Ha.
    destruct (Z.log2_spec (Z.pos d) ltac:(lia)) as [Hb _]. fold b in Hb.
    replace (Z.succ a) with (a + 1)%Z in Ha by lia.
    assert (H0a : (0 <= a)%Z) by apply Z.log2_nonneg.
    assert (H0b : (0 <= b)%Z) by apply Z.log2_nonneg.
    assert (E1 : 2 ^ (a - b + 1) == inject_Z (2 ^ (a + 1)) / inject_Z (2 ^ b)).
    { replace (a - b + 1)%Z with (a + 1 - b)%Z by lia.
      rewrite (Qpower_minus 2 (a + 1) b two_neq_0).
      now rewrite (pow2_Z (a + 1)), (pow2_Z b) by lia. }
    assert (E2 : n # d == inject_Z n / inject_Z (Z.pos d)) by apply Qmake_Qdiv.
    assert (H1 : inject_Z n < inject_Z (2 ^ (a + 1))) by (now rewrite <- Zlt_Qlt).
    assert (H2 : inject_Z (2 ^ b) <= inject_Z (Z.pos d)) by (now rewrite <- Zle_Qle).
    assert (H3 : 0 < inject_Z (2 ^ b)).
    { change 0 with (inject_Z 0). rewrite <- Zlt_Qlt. apply Z.pow_pos_nonneg; lia. }
    assert (H4 : 0 < inject_Z n)
      by (change 0 with (inject_Z 0); rewrite <- Zlt_Qlt; lia).
    rewrite E1, E2.
    apply Qlt_shift_div_r; [lra|].
    assert (E : inject_Z (2 ^ (a + 1)) / inject_Z (2 ^ b) * inject_Z (Z.pos d)
                == inject_Z (2 ^ (a + 1)) * (inject_Z (Z.pos d) / inject_Z (2 ^ b)))
      by (field; lra).
    rewrite E.
    assert (1 <= inject_Z (Z.pos d) / inject_Z (2 ^ b))
      by (apply Qle_shift_div_l; lra).
    nra.
  - replace (Z.log2 (Qnum q) - Z.log2 (Z.pos (Qden q)) - 1 + 1)%Z
      with (Z.log2 (Qnum q) - Z.log2 (Z.pos (Qden q)))%Z by lia.
    apply Qnot_le_lt. intros H. apply Qle_bool_iff in H. congruence.
Qed.

Lemma ilog2_mono (x y : Q) : 0 < x -> x <= y -> (ilog2 x <= ilog2 y)%Z.
Proof.
  intros Hx Hxy.
  pose proof (ilog2_le x Hx). pose proof (ilog2_lt y ltac:(lra)).
  assert (H1 : 2 ^ ilog2 x < 2 ^ (ilog2 y + 1)) by lra.
  apply (Qpower_lt_compat_l_inv 2) in H1; [lia | reflexivity].
Qed.

Lemma rne_comp (x y : Q) : x == y -> rne x = rne y.
Proof.
  intros E. unfold rne. rewrite (Qfloor_comp x y E).
  assert (E' : x - inject_Z (Qfloor y) == y - inject_Z (Qfloor y)) by lra.
  now rewrite (Qcompare_comp _ _ E' (1 # 2) (1 # 2) (Qeq_refl _)).
Qed.

Lemma rne_mono (x y : Q) : x <= y -> (rne x <= rne y)%Z.
Proof.
  intros Hxy.
  destruct (Z_le_gt_dec (rne x) (rne y)) as [?|Hgt]; [assumption|].
  exfalso.
  pose proof (rne_error x) as Hx. pose proof (rne_error y) as Hy.
  apply Qabs_bounds in Hx as [Hx1 Hx2]. apply Qabs_bounds in Hy as [Hy1 Hy2].
  assert (H : inject_Z (rne y) + 1 <= inject_Z (rne x)).
  { change 1 with (inject_Z 1). rewrite <- inject_Z_plus, <- Zle_Qle. lia. }
  assert (E : x == y) by lra.
  rewrite (rne_comp x y E) in Hgt. lia.
Qed.

Lemma rne_ge (x : Q) (N : Z) : inject_Z N <= x -> (N <= rne x)%Z.
Proof. intros H. rewrite <- (rne_int (inject_Z N) N (Qeq_refl _)). now apply rne_mono. Qed.

Lemma rne_le (x : Q) (N : Z) : x <= inject_Z N -> (rne x <= N)%Z.
Proof. intros H. rewrite <- (rne_int (inject_Z N) N (Qeq_refl _)). now apply rne_mono. Qed.

Lemma Qabs_nonneg_eq (x : Q) : 0 <= x -> Qabs x = x.
Proof.
  destruct x as [n d]. unfold Qle. simpl. intros H.
  unfold Qabs. f_equal. apply Z.abs_eq. lia.
Qed.

Lemma round_fin (x r : Q) :
  ~ x == 0 -> round x = Float.Fin r ->
  let u := 2 ^ (Z.max (ilog2 (Qabs x)) (-1022) - 52) in
  r == inject_Z (rne (x / u)) * u.
Proof.
  intros Hx. unfold round.
  destruct (Qeq_bool x 0) eqn:E0; [apply Qeq_bool_iff in E0; contradiction|].
  destruct (Qle_bool (2 ^ 1024) _).
  - destruct (Float.Qsgn_pos x); discriminate.
  - intros [= <-]. apply Qred_correct.
Qed.

(** Rounding keeps the order of numbers that are not negative. *)
Lemma round_mono (x y : Q) (k : Z) :
  (-1022 <= k <= 1023)%Z -> 0 <= x -> x <= y -> y <= 2 ^ k ->
  exists rx ry : Q,
    round x = Float.Fin rx /\ round y = Float.Fin ry /\ rx <= ry.
Proof.
  intros Hk Hx Hxy Hy.
  destruct (round_spec x k Hk) as (rx & Ex & _ & _ & Hx0 & _);
    [apply Qabs_bounds; pose proof (pow2_pos k); split; lra|].
  destruct (round_spec y k Hk) as (ry & Ey & _ & _ & Hy0 & _);
    [apply Qabs_bounds; pose proof (pow2_pos k); split; lra|].
  exists rx, ry. split; [exact Ex|]. split; [exact Ey|].
  destruct (Qeq_bool x 0) eqn:E0.
  { apply Qeq_bool_iff in E0. unfold round in Ex.
    rewrite (proj2 (Qeq_bool_iff x 0) E0) in Ex. injection Ex as <-.
    apply Hy0. lra. }
  apply Qeq_bool_neq in E0.
  assert (Hxpos : 0 < x).
  { destruct (Qle_lt_or_eq _ _ Hx) as [?|E]; [assumption|].
    exfalso. apply E0. now symmetry. }
  assert (E1 : ~ y == 0) by lra.
  pose proof (round_fin x rx E0 Ex) as Hrx.
  pose proof (round_fin y ry E1 Ey) as Hry.
  rewrite (Qabs_nonneg_eq x) in Hrx by lra.
  rewrite (Qabs_nonneg_eq y) in Hry by lra.
  cbv zeta in Hrx, Hry.
  set (ex := Z.max (ilog2 x) (-1022)) in *. set (ey := Z.max (ilog2 y) (-1022)) in *.
  pose proof (ilog2_mono x y Hxpos Hxy) as Hlog.
  assert (Hexy : (ex <= ey)%Z) by (unfold ex, ey; lia).
  set (ux := 2 ^ (ex - 52)) in *. set (uy := 2 ^ (ey - 52)) in *.
  assert (Hux : 0 < ux) by apply pow2_pos.
  assert (Huy : 0 < uy) by apply pow2_pos.
  rewrite Hrx, Hry. clear Hrx Hry Ex Ey.
  destruct (Z.eq_dec ex ey) as [Eq|Hne].
  - assert (Eu : ux = uy) by (unfold ux, uy; now rewrite Eq).
    rewrite Eu.
    assert (x / uy <= y / uy).
    { apply Qle_shift_div_l; [exact Huy|].
      assert (E : x / uy * uy == x) by (field; lra). lra. }
    pose proof (rne_mono _ _ H) as Hn. rewrite Zle_Qle in Hn. nra.
  - assert (Hlt : (ex < ey)%Z) by lia.
    assert (Eey : ey = ilog2 y) by (unfold ex, ey in *; lia).
    pose proof (ilog2_le y ltac:(lra)) as Hly. rewrite <- Eey in Hly.
    pose proof (ilog2_lt x Hxpos) as Hlx.
    assert (Hx2 : x < 2 ^ (ex + 1)).
    { eapply Qlt_le_trans; [exact Hlx|]. apply pow2_le. unfold ex. lia. }
    assert (Hmid : 2 ^ (ex + 1) <= 2 ^ ey) by (apply pow2_le; lia).
    assert (E53 : inject_Z (2 ^ 53) * ux == 2 ^ (ex + 1)).
    { unfold ux. rewrite <- (pow2_Z 53) by lia.
      rewrite <- (Qpower_plus 2 _ _ two_neq_0).
      now replace (53 + (ex - 52))%Z with (ex + 1)%Z by lia. }
    assert (E52 : inject_Z (2 ^ 52) * uy == 2 ^ ey).
    { unfold uy. rewrite <- (pow2_Z 52) by lia.
      rewrite <- (Qpower_plus 2 _ _ two_neq_0).
      now replace (52 + (ey - 52))%Z with ey by lia. }
    assert (Hnx : (rne (x / ux) <= 2 ^ 53)%Z).
    { apply rne_le. apply Qle_shift_div_r; [exact Hux | lra]. }
    assert (Hny : (2 ^ 52 <= rne (y / uy))%Z).
    { apply rne_ge. apply Qle_shift_div_l; [exact Huy | lra]. }
    rewrite Zle_Qle in Hnx, Hny. nra.
Qed.


End Rounding.

(** ** What the scorer computes *)

Section ScorerResults.

Import BuildDb.

Lemma lookup_score (rows : list Stats.t) (m : Z) (C : float) (i : nat) (r : Stats.t) :
  rows !! i = Some r ->
  map (fun r => weigh m C (Stats.rating_count r) (Stats.avg_rating r)) rows !! i
  = Some (weigh m C (Stats.rating_count r) (Stats.avg_rating r)).
Proof.
  intros Hi.
  change (map ?f rows) with (f <$> rows).
  now rewrite list_lookup_fmap, Hi.
Qed.

(** C1, as the code has it: on an empty table of statistics the scorer
    raises nothing.  It returns the table it was given, with an empty
    [weighted_rating] column; the mean [C] is NaN but there is no row that
    it could reach. *)
Theorem empty_input_returns (h : heap) (p : ref) (m : Z) :
  h !! p = Some (stats_frame []) ->
  bayesian_weighted p m h
    = (Returns p, <[p := <["weighted_rating" := FloatCol []]> (stats_frame [])]> h)
  /\ series_mean (FloatCol []) = Float.NaN.
Proof.
  intros Hp. split; [|reflexivity].
  now rewrite (bayesian_weighted_stats h p [] m Hp).
Qed.

Lemma empty_input_returns_witness :
  bayesian_weighted 0 1000 {[ 0%nat := stats_frame [] ]}
    = (Returns 0%nat,
       <[0%nat := <["weighted_rating" := FloatCol []]> (stats_frame [])]>
         {[ 0%nat := stats_frame [] ]})
  /\ series_mean (FloatCol []) = Float.NaN.
Proof.
  apply (empty_input_returns {[ 0%nat := stats_frame [] ]} 0%nat 1000).
  apply lookup_singleton_eq.
Defined.

(** C1 as the specification states it fails: the call on the empty table
    raises no exception at all. *)
Lemma empty_input_no_error :
  ~ exists (e : exn) (h' : heap),
      bayesian_weighted 0 1000 {[ 0%nat := stats_frame [] ]} = (Raises e, h').
Proof.
  intros (e & h' & H).
  rewrite (bayesian_weighted_stats _ 0%nat [] 1000 (lookup_singleton_eq _ _)) in H.
  discriminate H.
Qed.

(** C9: the scorer returns the reference it was given, and the only change
    to the store is the [weighted_rating] column of that one frame: the
    columns [movieId], [rating_count] and [avg_rating] (cells and row order)
    and every other object are as before; the new column has one cell per
    row. *)
Theorem scorer_mutates_argument (h : heap) (p : ref) (frame : DataFrame)
    (m : Z) (cnt avg : column) :
  h !! p = Some frame ->
  frame !! "avg_rating" = Some avg ->
  frame !! "rating_count" = Some cnt ->
  col_len cnt = col_len avg ->
  exists (w : column) (h' : heap) (frame' : DataFrame),
    bayesian_weighted p m h = (Returns p, h')
    /\ h' !! p = Some frame'
    /\ frame' !! "weighted_rating" = Some w
    /\ col_len w = col_len avg
    /\ frame' !! "movieId" = frame !! "movieId"
    /\ frame' !! "rating_count" = frame !! "rating_count"
    /\ frame' !! "avg_rating" = frame !! "avg_rating"
    /\ (forall name, name <> "weighted_rating" -> frame' !! name = frame !! name)
    /\ (forall q, q <> p -> h' !! q = h !! q).
Proof.
  intros Hp Havg Hcnt Hlen.
  exists (weighted_column cnt avg m),
         (<[p := <["weighted_rating" := weighted_column cnt avg m]> frame]> h),
         (<["weighted_rating" := weighted_column cnt avg m]> frame).
  split; [apply (bayesian_weighted_run h p frame m cnt avg Hp Havg Hcnt)|].
  split; [apply lookup_insert_eq|].
  split; [apply lookup_insert_eq|].
  split.
  { unfold weighted_column, series_add, series_mul, series_truediv,
      series_mul_scalar, int_rtruediv.
    destruct cnt as [ns|ns], avg as [xs|xs]; simpl in *;
      rewrite ?length_zip_with, ?length_map; lia. }
  split; [now apply lookup_insert_ne|].
  split; [now apply lookup_insert_ne|].
  split; [now apply lookup_insert_ne|].
  split.
  - intros name Hname. now apply lookup_insert_ne.
  - intros q Hq. now apply lookup_insert_ne.
Qed.

(** The score the scorer assigns to row [i] when the average of the row and
    the mean of the averages are numbers. *)
Lemma scorer_row (h : heap) (p : ref) (rows : list Stats.t) (m : Z)
    (i : nat) (r : Stats.t) (a c : Q) :
  h !! p = Some (stats_frame rows) ->
  rows !! i = Some r ->
  Stats.avg_rating r = Float.Fin a ->
  series_mean (FloatCol (map Stats.avg_rating rows)) = Float.Fin c ->
  Stats.rating_count r + m <> 0 ->
  exists ws : list float,
    bayesian_weighted p m h
      = (Returns p, <[p := <["weighted_rating" := FloatCol ws]> (stats_frame rows)]> h)
    /\ ws !! i
       = Some (Float.Fin (spec_weighted_rating m c (Stats.rating_count r) a)).
Proof.
  intros Hp Hi Ha HC Hden.
  eexists. split; [apply (bayesian_weighted_stats h p rows m Hp)|].
  unfold series_mean, floats in HC.
  rewrite (lookup_score rows m _ i r Hi), HC, Ha.
  now rewrite weigh_fin.
Qed.




Lemma scorer_mutates_argument_witness :
  exists (w : column) (h' : heap) (frame' : DataFrame),
    bayesian_weighted 0 1000 {[ 0%nat := stats_frame two_movies ]} = (Returns 0%nat, h')
    /\ h' !! 0%nat = Some frame'
    /\ frame' !! "weighted_rating" = Some w
    /\ col_len w = col_len (FloatCol (map Stats.avg_rating two_movies))
    /\ frame' !! "movieId" = stats_frame two_movies !! "movieId"
    /\ frame' !! "rating_count" = stats_frame two_movies !! "rating_count"
    /\ frame' !! "avg_rating" = stats_frame two_movies !! "avg_rating"
    /\ (forall name, name <> "weighted_rating" ->
          frame' !! name = stats_frame two_movies !! name)
    /\ (forall q, q <> 0%nat ->
          h' !! q = ({[ 0%nat := stats_frame two_movies ]} : heap) !! q).
Proof.
  apply (scorer_mutates_argument {[ 0%nat := stats_frame two_movies ]} 0%nat
           (stats_frame two_movies) 1000
           (IntCol (map Stats.rating_count two_movies))
           (FloatCol (map Stats.avg_rating two_movies))).
  - apply lookup_singleton_eq.
  - reflexivity.
  - reflexivity.
  - reflexivity.
Defined.

(** [main.py] has the same scorer. *)
Lemma top20_bayesian_weighted :
  Top20.bayesian_weighted = BuildDb.bayesian_weighted.
Proof. reflexivity. Qed.

End ScorerResults.

(** ** The scorer with rounding *)

Section RoundedScorer.
Import BuildDb.
Local Open Scope Q_scope.

Lemma wrap_fits (z : Z) : Int64.fits z = true -> Int64.wrap z = z.
Proof.
  unfold Int64.fits, Int64.wrap, Int64.min, Int64.max. intros H.
  apply andb_prop in H as [H1 H2]. apply Z.leb_le in H1, H2.
  rewrite Z.mod_small; lia.
Qed.

Lemma Qmult_abs_bound (x y X Y : Q) :
  Qabs x <= X -> Qabs y <= Y -> Qabs (x * y) <= X * Y.
Proof.
  rewrite !Qabs_bounds. intros [H1 H2] [H3 H4]. split; nra.
Qed.

Lemma div_fin (p q : Z) :
  q <> 0%Z ->
  Binary64.div (Float.Fin (inject_Z p)) (Float.Fin (inject_Z q))
  = Binary64.round (inject_Z p / inject_Z q).
Proof.
  intros Hq. unfold Binary64.div, Float.div, Float.Qis_zero. cbn [Qnum inject_Z].
  destruct (Z.eqb_spec q 0) as [?|_]; [contradiction | reflexivity].
Qed.

(** The score of a row as the machine computes it is within [2^-47] of the
    value of the formula. *)
Lemma weigh_rounded_error (m n : Z) (a c : Q) :
  (0 < m)%Z -> (0 <= n)%Z -> (n + m < 2 ^ 53)%Z ->
  Qabs a <= 5 -> Qabs c <= 5 ->
  exists w : Q,
    weigh_rounded m (Float.Fin c) n (Float.Fin a) = Float.Fin w
    /\ Qabs (w - spec_weighted_rating m c n a) <= 2 ^ (-47).
Proof.
  intros Hm Hn Hsum Ha Hc. unfold weigh_rounded.
  assert (Hfit : Int64.fits (n + m) = true).
  { unfold Int64.fits, Int64.min, Int64.max.
    apply andb_true_intro. split; apply Z.leb_le; lia. }
  rewrite (wrap_fits _ Hfit). unfold Binary64.of_int64.
  rewrite !round_int by lia. cbv zeta.
  rewrite !div_fin by lia.
  pose proof (den_pos m n Hm Hn) as Hd.
  assert (Hn' : 0 <= inject_Z n) by (change 0 with (inject_Z 0); rewrite <- Zle_Qle; lia).
  assert (Hm' : 0 < inject_Z m) by (change 0 with (inject_Z 0); rewrite <- Zlt_Qlt; lia).
  assert (Hnm : inject_Z (n + m) == inject_Z n + inject_Z m)
    by (rewrite inject_Z_plus; reflexivity).
  set (d := inject_Z (n + m)) in *.
  assert (Hx0 : Qabs (inject_Z n / d) <= 2 ^ 0).
  { apply Qabs_bounds. change (2 ^ 0) with 1. split.
    - assert (0 <= inject_Z n / d) by (apply Qle_shift_div_l; lra). lra.
    - apply Qle_shift_div_r; lra. }
  assert (Hy0 : Qabs (inject_Z m / d) <= 2 ^ 0).
  { apply Qabs_bounds. change (2 ^ 0) with 1. split.
    - assert (0 <= inject_Z m / d) by (apply Qle_shift_div_l; lra). lra.
    - apply Qle_shift_div_r; lra. }
  destruct (round_spec _ 0 ltac:(lia) Hx0) as (x & Ex & Hxe & Hxb & _).
  destruct (round_spec _ 0 ltac:(lia) Hy0) as (y & Ey & Hye & Hyb & _).
  rewrite Ex, Ey. unfold Binary64.mul, Float.mul, Binary64.rounded.
  change (2 ^ 0) with 1 in Hxb, Hyb.
  assert (Hxa : Qabs (x * a) <= 2 ^ 3).
  { pose proof (Qmult_abs_bound x a 1 5 Hxb Ha). change (2 ^ 3) with 8. lra. }
  assert (Hyc : Qabs (y * c) <= 2 ^ 3).
  { pose proof (Qmult_abs_bound y c 1 5 Hyb Hc). change (2 ^ 3) with 8. lra. }
  destruct (round_spec _ 3 ltac:(lia) Hxa) as (t1 & E1 & H1e & H1b & _).
  destruct (round_spec _ 3 ltac:(lia) Hyc) as (t2 & E2 & H2e & H2b & _).
  rewrite E1, E2. unfold Binary64.add, Float.add, Binary64.rounded.
  assert (Hsum' : Qabs (t1 + t2) <= 2 ^ 4).
  { apply Qabs_bounds in H1b as [? ?]. apply Qabs_bounds in H2b as [? ?].
    apply Qabs_bounds. change (2 ^ 3) with 8 in *. change (2 ^ 4) with 16. split; lra. }
  destruct (round_spec _ 4 ltac:(lia) Hsum') as (w & Ew & Hwe & _).
  exists w. split; [exact Ew|].
  pose proof (Qmult_abs_bound _ a _ 5 Hxe Ha) as Hxa'.
  pose proof (Qmult_abs_bound _ c _ 5 Hye Hc) as Hyc'.
  unfold spec_weighted_rating. fold d.
  set (u := 2 ^ (-53)).
  assert (Eu0 : 2 ^ (0 - 53) == u) by reflexivity.
  assert (Eu3 : 2 ^ (3 - 53) == 8 * u) by reflexivity.
  assert (Eu4 : 2 ^ (4 - 53) == 16 * u) by reflexivity.
  assert (Eu : 2 ^ (-47) == 64 * u) by reflexivity.
  assert (Hu : 0 < u) by reflexivity.
  rewrite Eu0 in Hxa', Hyc'. rewrite Eu3 in H1e, H2e. rewrite Eu4 in Hwe.
  rewrite Eu.
  apply Qabs_bounds in Hxa' as [? ?]. apply Qabs_bounds in Hyc' as [? ?].
  apply Qabs_bounds in H1e as [? ?]. apply Qabs_bounds in H2e as [? ?].
  apply Qabs_bounds in Hwe as [? ?].
  apply Qabs_bounds. split; lra.
Qed.


Lemma rounded_run (total : list float -> float) (h : heap) (p : ref)
    (rows : list Stats.t) (m : Z) :
  h !! p = Some (stats_frame rows) ->
  Rounded.bayesian_weighted total p m h
  = (Returns p,
     <[p := <["weighted_rating" :=
                FloatCol
                  (map (fun r =>
                          weigh_rounded m
                            (Rounded.series_mean total
                               (FloatCol (map Stats.avg_rating rows)))
                            (Stats.rating_count r) (Stats.avg_rating r))
                       rows)]>
              (stats_frame rows)]> h).
Proof.
  intros Hp.
  unfold Rounded.bayesian_weighted, bind, getitem, setitem, ret.
  repeat (rewrite ?Hp, ?stats_frame_avg, ?stats_frame_count; cbv beta iota zeta).
  do 4 f_equal.
  unfold Rounded.series_add, Rounded.series_mul, Rounded.series_truediv,
    Rounded.series_mul_scalar, Rounded.int_rtruediv, Rounded.series_add_int.
  cbn [Rounded.floats]. f_equal. clear Hp.
  generalize (Rounded.series_mean total (FloatCol (map Stats.avg_rating rows))) as C.
  intros C. induction rows as [|r rows IH]; [reflexivity|].
  cbn [map zip_with]. f_equal. exact IH.
Qed.

(** The score the machine assigns to a row on the rating scale. *)
Lemma rounded_row (total : list float -> float) (h : heap) (p : ref)
    (rows : list Stats.t) (m : Z) (i : nat) (r : Stats.t) (a c : Q) :
  h !! p = Some (stats_frame rows) ->
  rows !! i = Some r ->
  Stats.avg_rating r = Float.Fin a ->
  Rounded.series_mean total (FloatCol (map Stats.avg_rating rows)) = Float.Fin c ->
  Qabs a <= 5 -> Qabs c <= 5 ->
  (0 < m)%Z -> (0 <= Stats.rating_count r)%Z ->
  (Stats.rating_count r + m < 2 ^ 53)%Z ->
  exists (ws : list float) (w : Q),
    Rounded.bayesian_weighted total p m h
      = (Returns p, <[p := <["weighted_rating" := FloatCol ws]> (stats_frame rows)]> h)
    /\ ws !! i = Some (Float.Fin w)
    /\ Qabs (w - spec_weighted_rating m c (Stats.rating_count r) a) <= 2 ^ (-47).
Proof.
  intros Hp Hi Ha HC Hab Hcb Hm Hn Hsum.
  destruct (weigh_rounded_error m (Stats.rating_count r) a c Hm Hn Hsum Hab Hcb)
    as (w & Ew & Herr).
  eexists _, w. split; [apply (rounded_run total h p rows m Hp)|].
  split; [|exact Herr].
  change (map ?f rows) with (f <$> rows).
  rewrite list_lookup_fmap, Hi. cbn [fmap option_fmap option_map].
  now rewrite HC, Ha, Ew.
Qed.

Lemma tolerance_covers : 2 * 2 ^ (-47) <= tolerance.
Proof. vm_compute. discriminate. Qed.

(** C3, as the code has it: with [m = 1000], for a row with a count that is
    not negative (and below [2 ^ 53 - 1000]), an average that is a number of
    the rating scale and a mean [C] of the averages that is one too, the
    score the machine stores is a number within [2 ^ -47] of the value [e]
    of the formula; [e] lies between the average and [C], inclusive, and
    the score does so up to the tolerance [1e-9]. *)
Theorem shrinkage_bounds (total : list float -> float) (h : heap) (p : ref)
    (rows : list Stats.t) (i : nat) (r : Stats.t) (a c : Q) :
  h !! p = Some (stats_frame rows) ->
  rows !! i = Some r ->
  Stats.avg_rating r = Float.Fin a ->
  Rounded.series_mean total (FloatCol (map Stats.avg_rating rows)) = Float.Fin c ->
  Qabs a <= 5 ->
  Qabs c <= 5 ->
  (0 <= Stats.rating_count r)%Z ->
  (Stats.rating_count r < 2 ^ 53 - 1000)%Z ->
  let e := spec_weighted_rating 1000 c (Stats.rating_count r) a in
  exists (ws : list float) (w : Q),
    Rounded.bayesian_weighted total p 1000 h
      = (Returns p, <[p := <["weighted_rating" := FloatCol ws]> (stats_frame rows)]> h)
    /\ ws !! i = Some (Float.Fin w)
    /\ Qabs (w - e) <= 2 ^ (-47)
    /\ Qmin a c <= e <= Qmax a c
    /\ Qmin a c - tolerance <= w <= Qmax a c + tolerance.
Proof.
  intros Hp Hi Ha HC Hab Hcb Hn Hlt e.
  destruct (rounded_row total h p rows 1000 i r a c Hp Hi Ha HC Hab Hcb
              ltac:(lia) Hn ltac:(lia)) as (ws & w & Hrun & Hw & Herr).
  exists ws, w. split; [exact Hrun|]. split; [exact Hw|]. split; [exact Herr|].
  pose proof (shrink_between 1000 (Stats.rating_count r) a c ltac:(lia) Hn)
    as [Hlo Hhi].
  fold e in Herr, Hlo, Hhi. split; [now split|].
  pose proof tolerance_covers as Htol. pose proof (pow2_pos (-47)) as Hpos.
  apply Qabs_bounds in Herr as [He1 He2]. split; lra.
Qed.

Lemma shrinkage_bounds_witness :
  let e := spec_weighted_rating 1000 3 2 5 in
  exists (ws : list float) (w : Q),
    Rounded.bayesian_weighted Binary64.sum 0 1000 {[ 0%nat := stats_frame two_movies ]}
      = (Returns 0%nat,
         <[0%nat := <["weighted_rating" := FloatCol ws]> (stats_frame two_movies)]>
           {[ 0%nat := stats_frame two_movies ]})
    /\ ws !! 0%nat = Some (Float.Fin w)
    /\ Qabs (w - e) <= 2 ^ (-47)
    /\ Qmin 5 3 <= e <= Qmax 5 3
    /\ Qmin 5 3 - tolerance <= w <= Qmax 5 3 + tolerance.
Proof.
  apply (shrinkage_bounds Binary64.sum {[ 0%nat := stats_frame two_movies ]} 0%nat
           two_movies 0%nat (Stats.mk 1 2 (Float.Fin 5)) 5 3).
  - apply lookup_singleton_eq.
  - reflexivity.
  - reflexivity.
  - vm_compute. reflexivity.
  - vm_compute. discriminate.
  - vm_compute. discriminate.
  - simpl. lia.
  - simpl. lia.
Defined.

(** C3 as the specification states it fails: for one movie with two ratings
    of 5.0 the mean [C] is 5.0 and the score the machine stores is below
    both the average and [C]. *)
Lemma rounding_breaks_bounds :
  exists w : Q,
    Rounded.bayesian_weighted Binary64.sum 0 1000 {[ 0%nat := stats_frame one_movie ]}
      = (Returns 0%nat,
         <[0%nat := <["weighted_rating" := FloatCol [Float.Fin w]]>
                      (stats_frame one_movie)]>
           {[ 0%nat := stats_frame one_movie ]})
    /\ Rounded.series_mean Binary64.sum (FloatCol (map Stats.avg_rating one_movie))
       = Float.Fin 5
    /\ w < Qmin 5 5.
Proof.
  eexists. split; [vm_compute; reflexivity|].
  split; vm_compute; reflexivity.
Qed.


(** C5, as the code has it: take a row of one table and a row of another
    with the same average [a] on the rating scale, the mean [C] of the
    averages being the same number in both tables, and the count of the
    second row at least the count of the first (and below
    [2 ^ 53 - 1000]).  With [m = 1000] the values [e1] and [e2] of the
    formula are such that [e2] is at least as close to [a] as [e1], and
    strictly closer when the count is strictly larger and [a] differs from
    [C]; the scores the machine stores are within [2 ^ -47] of them, so
    that the second is as close to [a] as the first up to the tolerance
    [1e-9]. *)
Theorem shrinkage_monotone (total : list float -> float) (h1 h2 : heap)
    (p1 p2 : ref) (rows1 rows2 : list Stats.t) (i1 i2 : nat) (r1 r2 : Stats.t)
    (a c : Q) :
  h1 !! p1 = Some (stats_frame rows1) ->
  h2 !! p2 = Some (stats_frame rows2) ->
  rows1 !! i1 = Some r1 ->
  rows2 !! i2 = Some r2 ->
  Stats.avg_rating r1 = Float.Fin a ->
  Stats.avg_rating r2 = Float.Fin a ->
  Rounded.series_mean total (FloatCol (map Stats.avg_rating rows1)) = Float.Fin c ->
  Rounded.series_mean total (FloatCol (map Stats.avg_rating rows2)) = Float.Fin c ->
  Qabs a <= 5 ->
  Qabs c <= 5 ->
  (0 <= Stats.rating_count r1)%Z ->
  (Stats.rating_count r1 <= Stats.rating_count r2)%Z ->
  (Stats.rating_count r2 < 2 ^ 53 - 1000)%Z ->
  let e1 := spec_weighted_rating 1000 c (Stats.rating_count r1) a in
  let e2 := spec_weighted_rating 1000 c (Stats.rating_count r2) a in
  exists (ws1 ws2 : list float) (w1 w2 : Q),
    Rounded.bayesian_weighted total p1 1000 h1
      = (Returns p1, <[p1 := <["weighted_rating" := FloatCol ws1]> (stats_frame rows1)]> h1)
    /\ Rounded.bayesian_weighted total p2 1000 h2
      = (Returns p2, <[p2 := <["weighted_rating" := FloatCol ws2]> (stats_frame rows2)]> h2)
    /\ ws1 !! i1 = Some (Float.Fin w1)
    /\ ws2 !! i2 = Some (Float.Fin w2)
    /\ Qabs (w1 - e1) <= 2 ^ (-47)
    /\ Qabs (w2 - e2) <= 2 ^ (-47)
    /\ Qabs (e2 - a) <= Qabs (e1 - a)
    /\ ((Stats.rating_count r1 < Stats.rating_count r2)%Z -> ~ a == c ->
        Qabs (e2 - a) < Qabs (e1 - a))
    /\ Qabs (w2 - a) <= Qabs (w1 - a) + tolerance.
Proof.
  intros Hp1 Hp2 Hi1 Hi2 Ha1 Ha2 HC1 HC2 Hab Hcb Hn Hle Hlt e1 e2.
  destruct (rounded_row total h1 p1 rows1 1000 i1 r1 a c Hp1 Hi1 Ha1 HC1 Hab Hcb
              ltac:(lia) Hn ltac:(lia)) as (ws1 & w1 & Hrun1 & Hw1 & Herr1).
  destruct (rounded_row total h2 p2 rows2 1000 i2 r2 a c Hp2 Hi2 Ha2 HC2 Hab Hcb
              ltac:(lia) ltac:(lia) ltac:(lia)) as (ws2 & w2 & Hrun2 & Hw2 & Herr2).
  fold e1 in Herr1. fold e2 in Herr2.
  exists ws1, ws2, w1, w2. do 6 (split; [assumption|]).
  pose proof (shrink_closer 1000 _ _ a c ltac:(lia) Hn Hle) as Hclose.
  fold e1 e2 in Hclose.
  split; [exact Hclose|]. split.
  - intros Hstrict Hne.
    apply (shrink_strictly_closer 1000 _ _ a c); [lia | exact Hn | exact Hstrict | exact Hne].
  - pose proof tolerance_covers as Htol.
    assert (H2 : Qabs (w2 - a) <= Qabs (w2 - e2) + Qabs (e2 - a)).
    { assert (E : w2 - a == (w2 - e2) + (e2 - a)) by ring.
      rewrite E. apply Qabs_triangle. }
    assert (H1 : Qabs (e1 - a) <= Qabs (w1 - e1) + Qabs (w1 - a)).
    { assert (E : e1 - a == - (w1 - e1) + (w1 - a)) by ring.
      rewrite E. eapply Qle_trans; [apply Qabs_triangle|].
      rewrite Qabs_opp. apply Qle_refl. }
    lra.
Qed.

Lemma shrinkage_monotone_witness :
  let e1 := spec_weighted_rating 1000 3 2 5 in
  let e2 := spec_weighted_rating 1000 3 40 5 in
  exists (ws1 ws2 : list float) (w1 w2 : Q),
    Rounded.bayesian_weighted Binary64.sum 0 1000 {[ 0%nat := stats_frame two_movies ]}
      = (Returns 0%nat,
         <[0%nat := <["weighted_rating" := FloatCol ws1]> (stats_frame two_movies)]>
           {[ 0%nat := stats_frame two_movies ]})
    /\ Rounded.bayesian_weighted Binary64.sum 0 1000
         {[ 0%nat := stats_frame two_movies_later ]}
      = (Returns 0%nat,
         <[0%nat := <["weighted_rating" := FloatCol ws2]> (stats_frame two_movies_later)]>
           {[ 0%nat := stats_frame two_movies_later ]})
    /\ ws1 !! 0%nat = Some (Float.Fin w1)
    /\ ws2 !! 0%nat = Some (Float.Fin w2)
    /\ Qabs (w1 - e1) <= 2 ^ (-47)
    /\ Qabs (w2 - e2) <= 2 ^ (-47)
    /\ Qabs (e2 - 5) <= Qabs (e1 - 5)
    /\ ((2 < 40)%Z -> ~ 5 == 3 -> Qabs (e2 - 5) < Qabs (e1 - 5))
    /\ Qabs (w2 - 5) <= Qabs (w1 - 5) + tolerance.
Proof.
  apply (shrinkage_monotone Binary64.sum
           {[ 0%nat := stats_frame two_movies ]}
           {[ 0%nat := stats_frame two_movies_later ]}
           0%nat 0%nat two_movies two_movies_later 0%nat 0%nat
           (Stats.mk 1 2 (Float.Fin 5)) (Stats.mk 1 40 (Float.Fin 5)) 5 3).
  - apply lookup_singleton_eq.
  - apply lookup_singleton_eq.
  - reflexivity.
  - reflexivity.
  - reflexivity.
  - reflexivity.
  - vm_compute. reflexivity.
  - vm_compute. reflexivity.
  - vm_compute. discriminate.
  - vm_compute. discriminate.
  - simpl. lia.
  - simpl. lia.
  - simpl. lia.
Defined.

(** C5 as the specification states it fails: with the average and the mean
    both 3.5, the score of a movie with two ratings is 3.5 and the score of
    a movie with three ratings is not, so the distance to the average grows
    with the count. *)
Lemma rounding_breaks_monotone :
  exists w1 w2 : Q,
    Rounded.bayesian_weighted Binary64.sum 0 1000 {[ 0%nat := stats_frame level_two ]}
      = (Returns 0%nat,
         <[0%nat := <["weighted_rating" := FloatCol [Float.Fin w1]]>
                      (stats_frame level_two)]>
           {[ 0%nat := stats_frame level_two ]})
    /\ Rounded.bayesian_weighted Binary64.sum 0 1000 {[ 0%nat := stats_frame level_three ]}
      = (Returns 0%nat,
         <[0%nat := <["weighted_rating" := FloatCol [Float.Fin w2]]>
                      (stats_frame level_three)]>
           {[ 0%nat := stats_frame level_three ]})
    /\ Rounded.series_mean Binary64.sum (FloatCol (map Stats.avg_rating level_two))
       = Float.Fin (7 # 2)
    /\ Rounded.series_mean Binary64.sum (FloatCol (map Stats.avg_rating level_three))
       = Float.Fin (7 # 2)
    /\ Qabs (w1 - (7 # 2)) < Qabs (w2 - (7 # 2)).
Proof.
  eexists _, _. split; [vm_compute; reflexivity|].
  split; [vm_compute; reflexivity|].
  repeat split; vm_compute; reflexivity.
Qed.

(** Scores of two rows with the same count, on the rating scale: the order
    of the averages is kept by every rounding. *)
Lemma weigh_rounded_mono (m n : Z) (a1 a2 c : Q) :
  (0 < m)%Z -> (0 <= n)%Z -> (n + m < 2 ^ 53)%Z ->
  0 <= a1 -> a1 <= a2 -> a2 <= 5 -> 0 <= c -> c <= 5 ->
  exists w1 w2 : Q,
    weigh_rounded m (Float.Fin c) n (Float.Fin a1) = Float.Fin w1
    /\ weigh_rounded m (Float.Fin c) n (Float.Fin a2) = Float.Fin w2
    /\ w1 <= w2.
Proof.
  intros Hm Hn Hsum Ha1 Ha12 Ha2 Hc0 Hc5. unfold weigh_rounded.
  assert (Hfit : Int64.fits (n + m) = true).
  { unfold Int64.fits, Int64.min, Int64.max.
    apply andb_true_intro. split; apply Z.leb_le; lia. }
  rewrite (wrap_fits _ Hfit). unfold Binary64.of_int64.
  rewrite !round_int by lia. cbv zeta.
  rewrite !div_fin by lia.
  pose proof (den_pos m n Hm Hn) as Hd.
  assert (Hn' : 0 <= inject_Z n) by (change 0 with (inject_Z 0); rewrite <- Zle_Qle; lia).
  assert (Hm' : 0 < inject_Z m) by (change 0 with (inject_Z 0); rewrite <- Zlt_Qlt; lia).
  assert (Hnm : inject_Z (n + m) == inject_Z n + inject_Z m)
    by (rewrite inject_Z_plus; reflexivity).
  set (d := inject_Z (n + m)) in *.
  assert (Hq1 : 0 <= inject_Z n / d) by (apply Qle_shift_div_l; lra).
  assert (Hq2 : 0 <= inject_Z m / d) by (apply Qle_shift_div_l; lra).
  assert (Hx0 : Qabs (inject_Z n / d) <= 2 ^ 0).
  { apply Qabs_bounds. change (2 ^ 0) with 1. split; [lra|].
    apply Qle_shift_div_r; lra. }
  assert (Hy0 : Qabs (inject_Z m / d) <= 2 ^ 0).
  { apply Qabs_bounds. change (2 ^ 0) with 1. split; [lra|].
    apply Qle_shift_div_r; lra. }
  destruct (round_spec _ 0 ltac:(lia) Hx0) as (x & Ex & _ & Hxb & Hxs & _).
  destruct (round_spec _ 0 ltac:(lia) Hy0) as (y & Ey & _ & Hyb & Hys & _).
  specialize (Hxs Hq1). specialize (Hys Hq2).
  rewrite Ex, Ey. unfold Binary64.mul, Float.mul, Binary64.rounded.
  change (2 ^ 0) with 1 in Hxb, Hyb.
  apply Qabs_bounds in Hxb as [_ Hx1]. apply Qabs_bounds in Hyb as [_ Hy1].
  destruct (round_mono (x * a1) (x * a2) 3 ltac:(lia)) as (t1 & t1' & E1 & E1' & Ht);
    [nra | nra | change (2 ^ 3) with 8; nra |].
  assert (Hyc : Qabs (y * c) <= 2 ^ 3).
  { apply Qabs_bounds. change (2 ^ 3) with 8. split; nra. }
  destruct (round_spec _ 3 ltac:(lia) Hyc) as (t2 & E2 & _ & H2b & H2s & _).
  specialize (H2s ltac:(nra)).
  assert (H1b : 0 <= t1 /\ t1' <= 8).
  { assert (Hb1 : Qabs (x * a1) <= 2 ^ 3)
      by (apply Qabs_bounds; change (2 ^ 3) with 8; split; nra).
    assert (Hb2 : Qabs (x * a2) <= 2 ^ 3)
      by (apply Qabs_bounds; change (2 ^ 3) with 8; split; nra).
    destruct (round_spec _ 3 ltac:(lia) Hb1) as (s1 & F1 & _ & _ & G1 & _).
    destruct (round_spec _ 3 ltac:(lia) Hb2) as (s2 & F2 & _ & G2 & _).
    rewrite E1 in F1. injection F1 as <-. rewrite E1' in F2. injection F2 as <-.
    apply Qabs_bounds in G2 as [_ G2]. change (2 ^ 3) with 8 in G2.
    split; [apply G1; nra | exact G2]. }
  destruct H1b as [H1lo H1hi].
  apply Qabs_bounds in H2b as [_ H2hi]. change (2 ^ 3) with 8 in H2hi.
  rewrite E1, E1', E2. unfold Binary64.add, Float.add, Binary64.rounded.
  destruct (round_mono (t1 + t2) (t1' + t2) 4 ltac:(lia)) as (w1 & w2 & F1 & F2 & Hw);
    [lra | lra | change (2 ^ 4) with 16; lra |].
  now exists w1, w2.
Qed.

End RoundedScorer.

(** ** Cleaning *)

Section Cleaning.

Import BuildDb.

Lemma filter_sublist {A} (f : A -> bool) (l : list A) :
  List.filter f l `sublist_of` l.
Proof.
  induction l as [|x l IH]; simpl; [constructor|].
  destruct (f x); [apply sublist_skip | apply sublist_cons]; exact IH.
Qed.

Lemma drop_duplicates_from_sublist (seen rows : list Rating.t) :
  drop_duplicates_from seen rows `sublist_of` rows.
Proof.
  revert seen. induction rows as [|r rows IH]; intros seen; simpl; [constructor|].
  destruct (existsb (Rating.same r) seen);
    [apply sublist_cons | apply sublist_skip]; apply IH.
Qed.

Lemma clean_ratings_sublist (X : list Rating.t) :
  clean_ratings X `sublist_of` X.
Proof.
  unfold clean_ratings, dropna_subset, drop_duplicates, dropna_all.
  etrans; [apply filter_sublist|].
  etrans; [apply filter_sublist|].
  etrans; [apply drop_duplicates_from_sublist|].
  apply filter_sublist.
Qed.

Lemma existsb_false_incl {A} (f : A -> bool) (l l' : list A) :
  incl l l' -> existsb f l' = false -> existsb f l = false.
Proof.
  intros Hincl Hl'.
  destruct (existsb f l) eqn:E; [|reflexivity].
  apply existsb_exists in E as (x & Hx & Hfx).
  assert (existsb f l' = true) by (apply existsb_exists; exists x; auto).
  congruence.
Qed.

Lemma distinct_from_weaken (seen seen' rows : list Rating.t) :
  incl seen seen' -> distinct_from seen' rows -> distinct_from seen rows.
Proof.
  revert seen seen'. induction rows as [|r rows IH]; intros seen seen' Hincl; simpl.
  - trivial.
  - intros [Hr Hrest]. split.
    + exact (existsb_false_incl _ _ _ Hincl Hr).
    + apply (IH (r :: seen) (r :: seen')); [|exact Hrest].
      intros x [->|Hx]; [now left | right; now apply Hincl].
Qed.

Lemma drop_duplicates_distinct (seen rows : list Rating.t) :
  distinct_from seen (drop_duplicates_from seen rows).
Proof.
  revert seen. induction rows as [|r rows IH]; intros seen; simpl; [trivial|].
  destruct (existsb (Rating.same r) seen) eqn:E.
  - apply (distinct_from_weaken seen (r :: seen)); [|apply IH].
    intros x Hx. now right.
  - simpl. split; [exact E | apply IH].
Qed.

Lemma drop_duplicates_fixed (seen rows : list Rating.t) :
  distinct_from seen rows -> drop_duplicates_from seen rows = rows.
Proof.
  revert seen. induction rows as [|r rows IH]; intros seen; simpl; [reflexivity|].
  intros [Hr Hrest]. rewrite Hr. f_equal. now apply IH.
Qed.

Lemma filter_distinct (f : Rating.t -> bool) (seen rows : list Rating.t) :
  distinct_from seen rows -> distinct_from seen (List.filter f rows).
Proof.
  revert seen. induction rows as [|r rows IH]; intros seen; simpl; [trivial|].
  intros [Hr Hrest]. destruct (f r); simpl.
  - split; [exact Hr | now apply IH].
  - apply IH. apply (distinct_from_weaken seen (r :: seen)); [|exact Hrest].
    intros x Hx. now right.
Qed.

Lemma filter_fixed {A} (f : A -> bool) (l : list A) :
  (forall x, In x l -> f x = true) -> List.filter f l = l.
Proof.
  induction l as [|x l IH]; intros Hall; simpl; [reflexivity|].
  rewrite (Hall x (or_introl eq_refl)). f_equal.
  apply IH. intros y Hy. apply Hall. now right.
Qed.

Lemma sublist_In {A} (l k : list A) (x : A) :
  l `sublist_of` k -> In x l -> In x k.
Proof.
  intros Hsub Hx. apply list_elem_of_In. apply list_elem_of_In in Hx.
  exact (sublist_subseteq _ _ Hsub x Hx).
Qed.

(** C6: cleaning only removes rows.  The cleaned table is a subsequence of
    the raw one, so each of its rows is a row of the input, with every
    cell as it was; [analysis.py] returns the same rows and reports the
    two row counts. *)
Theorem cleaning_is_filter (X : list Rating.t) :
  clean_ratings X `sublist_of` X
  /\ (forall r, In r (clean_ratings X) -> In r X)
  /\ Analysis.clean_ratings X
     = (Analysis.mkCleanLog (length X) (length (clean_ratings X)), clean_ratings X).
Proof.
  split; [apply clean_ratings_sublist|].
  split; [|reflexivity].
  intros r. apply sublist_In, clean_ratings_sublist.
Qed.

(** C7: cleaning a cleaned table changes nothing. *)
Theorem cleaning_idempotent (X : list Rating.t) :
  clean_ratings (clean_ratings X) = clean_ratings X
  /\ snd (Analysis.clean_ratings (snd (Analysis.clean_ratings X)))
     = snd (Analysis.clean_ratings X).
Proof.
  assert (H : clean_ratings (clean_ratings X) = clean_ratings X).
  { set (Y := clean_ratings X).
    assert (Hrange : forall r, In r Y -> in_range r = true).
    { intros r Hr. unfold Y, clean_ratings in Hr.
      now apply filter_In in Hr as [_ ?]. }
    assert (Hsubset : forall r, In r Y ->
              negb (Rating.isna (Rating.userId r))
              && negb (Rating.isna (Rating.movieId r))
              && negb (Float.isna (Rating.rating r)) = true).
    { intros r Hr. unfold Y, clean_ratings, dropna_subset in Hr.
      apply filter_In in Hr as [Hr _]. now apply filter_In in Hr as [_ ?]. }
    assert (Hall : forall r, In r Y -> negb (Rating.all_na r) = true).
    { intros r Hr. unfold Y, clean_ratings, dropna_subset, drop_duplicates in Hr.
      apply filter_In in Hr as [Hr _]. apply filter_In in Hr as [Hr _].
      apply (sublist_In _ _ _ (drop_duplicates_from_sublist _ _)) in Hr.
      unfold dropna_all in Hr. now apply filter_In in Hr as [_ ?]. }
    assert (Hdistinct : distinct_from [] Y).
    { unfold Y, clean_ratings, dropna_subset, drop_duplicates.
      do 2 apply filter_distinct. apply drop_duplicates_distinct. }
    unfold clean_ratings at 1. unfold dropna_subset, drop_duplicates, dropna_all.
    rewrite (filter_fixed _ Y Hall).
    rewrite (drop_duplicates_fixed [] Y Hdistinct).
    rewrite (filter_fixed _ Y Hsubset).
    apply (filter_fixed _ Y Hrange). }
  split; [exact H | exact H].
Qed.

End Cleaning.

(** ** The recommendation and title queries *)

Section Queries.

Import App.

Lemma sql_le_total (x y : float) : Sql.le x y = false -> Sql.le y x = true.
Proof.
  destruct x as [p| | |], y as [q| | |]; simpl; try congruence.
  unfold Float.leb. intros H.
  apply Qle_bool_iff. apply Qlt_le_weak. apply Qnot_le_lt.
  intros Hle. apply Qle_bool_iff in Hle. congruence.
Qed.

Lemma sql_le_trans (x y z : float) :
  Sql.le x y = true -> Sql.le y z = true -> Sql.le x z = true.
Proof.
  destruct x as [p| | |], y as [q| | |], z as [r| | |]; simpl; try congruence.
  unfold Float.leb. rewrite !Qle_bool_iff. apply Qle_trans.
Qed.

Lemma insert_desc_perm (r : Item.t) (sorted : list Item.t) :
  Permutation (insert_desc r sorted) (r :: sorted).
Proof.
  induction sorted as [|x rest IH]; simpl; [reflexivity|].
  destruct (Sql.le (Item.weighted_rating x) (Item.weighted_rating r));
    [reflexivity|].
  rewrite IH. apply perm_swap.
Qed.

Lemma order_by_perm (rows : list Item.t) :
  Permutation (order_by_weighted_desc rows) rows.
Proof.
  induction rows as [|r rows IH]; simpl; [reflexivity|].
  rewrite insert_desc_perm. now constructor.
Qed.

Lemma insert_desc_ranked (r : Item.t) (sorted : list Item.t) :
  ranked_desc sorted -> ranked_desc (insert_desc r sorted).
Proof.
  unfold ranked_desc.
  induction sorted as [|x rest IH]; intros Hs; simpl.
  - constructor; constructor.
  - apply StronglySorted_inv in Hs as [Hrest Hx].
    destruct (Sql.le (Item.weighted_rating x) (Item.weighted_rating r)) eqn:E.
    + constructor; [constructor; assumption|].
      constructor; [exact E|].
      apply List.Forall_forall. intros y Hy.
      rewrite List.Forall_forall in Hx.
      exact (sql_le_trans _ _ _ (Hx y Hy) E).
    + constructor; [now apply IH|].
      apply (Permutation_Forall (Permutation_sym (insert_desc_perm r rest))).
      constructor; [now apply sql_le_total | exact Hx].
Qed.

Lemma order_by_ranked (rows : list Item.t) :
  ranked_desc (order_by_weighted_desc rows).
Proof.
  induction rows as [|r rows IH]; simpl.
  - constructor.
  - now apply insert_desc_ranked.
Qed.

Lemma firstn_In {A} (n : nat) (l : list A) (x : A) :
  In x (firstn n l) -> In x l.
Proof.
  revert n. induction l as [|y l IH]; intros [|n]; simpl; try tauto.
  intros [->|H]; [now left | right; exact (IH n H)].
Qed.

Lemma firstn_ranked (n : nat) (rows : list Item.t) :
  ranked_desc rows -> ranked_desc (firstn n rows).
Proof.
  unfold ranked_desc. revert n.
  induction rows as [|x rows IH]; intros n Hs; destruct n; simpl;
    try constructor.
  - apply IH. now apply StronglySorted_inv in Hs as [? _].
  - apply StronglySorted_inv in Hs as [_ Hx].
    rewrite List.Forall_forall in *. intros y Hy. apply Hx.
    now apply (firstn_In n).
Qed.

Lemma limit_In {A} (k : Z) (rows : list A) (x : A) :
  In x (Sql.limit k rows) -> In x rows.
Proof.
  unfold Sql.limit. destruct (k <? 0); [trivial|].
  apply firstn_In.
Qed.

Lemma limit_ranked (k : Z) (rows : list Item.t) :
  ranked_desc rows -> ranked_desc (Sql.limit k rows).
Proof.
  unfold Sql.limit. destruct (k <? 0); [trivial|]. apply firstn_ranked.
Qed.

Lemma eligible_count (min_count : Z) (genres : list string) (r : Item.t) :
  eligible min_count genres r = true ->
  Sql.ge (Item.rating_count r) (Float.of_Z min_count) = true.
Proof. unfold eligible. intros H. now apply andb_prop in H as [? _]. Qed.

(** The run of the request when its two integers fit in 64 bits. *)
Lemma recommendations_run (db : Database) (mood : string) (k min_count : Z) :
  Int64.fits k = true -> Int64.fits min_count = true ->
  recommendations (Some db) mood k min_count
  = Returns (mkRecommendations (Str.strip (Str.lower mood)) (resolved_genres mood)
               k min_count
               (Sql.limit k
                  (order_by_weighted_desc (eligible_rows db mood min_count)))).
Proof.
  intros Hk Hmin. unfold recommendations. cbn [get_conn].
  now rewrite Hk, Hmin.
Qed.

(** C8, as the code has it: for [k] and [min_count] within the 64-bit range
    the request succeeds on any built database; every item has
    [rating_count >= min_count]; the items are in descending order of
    [weighted_rating] (NULL scores last); for [k >= 0] they are the first
    [k] of the ranked eligible rows, so [min k n] of [n] eligible rows; for
    a negative [k] SQLite applies no limit and all ranked eligible rows are
    returned. *)
Theorem recommendations_ranked (db : Database) (mood : string) (k min_count : Z) :
  Int64.fits k = true ->
  Int64.fits min_count = true ->
  let ranked := order_by_weighted_desc (eligible_rows db mood min_count) in
  exists resp : Recommendations,
    recommendations (Some db) mood k min_count = Returns resp
    /\ (forall it, In it (items resp) ->
          Sql.ge (Item.rating_count it) (Float.of_Z min_count) = true)
    /\ ranked_desc (items resp)
    /\ Permutation ranked (eligible_rows db mood min_count)
    /\ (0 <= k ->
        items resp = firstn (Z.to_nat k) ranked
        /\ length (items resp)
           = Nat.min (Z.to_nat k) (length (eligible_rows db mood min_count)))
    /\ (k < 0 -> items resp = ranked).
Proof.
  intros Hfk Hfmin ranked.
  exists (mkRecommendations (Str.strip (Str.lower mood)) (resolved_genres mood)
            k min_count (Sql.limit k ranked)).
  split; [now apply recommendations_run|]. cbn [items].
  split.
  { intros it Hit. apply limit_In in Hit.
    apply (Permutation_in _ (order_by_perm _)) in Hit.
    apply filter_In in Hit as [_ Hit]. exact (eligible_count _ _ _ Hit). }
  split; [apply limit_ranked, order_by_ranked|].
  split; [apply order_by_perm|].
  unfold Sql.limit. split.
  - intros Hk. destruct (Z.ltb_spec k 0) as [?|_]; [lia|].
    split; [reflexivity|].
    rewrite length_firstn. unfold ranked.
    now rewrite (Permutation_length (order_by_perm _)).
  - intros Hk. destruct (Z.ltb_spec k 0) as [_|?]; [reflexivity | lia].
Qed.

(** With ten eligible rows and [k = 3], exactly three items are returned. *)
Lemma recommendations_ranked_witness :
  exists resp : Recommendations,
    recommendations (Some ten_movies) "melancholy" 3 50 = Returns resp
    /\ length (eligible_rows ten_movies "melancholy" 50) = 10%nat
    /\ length (items resp) = 3%nat
    /\ ranked_desc (items resp).
Proof.
  destruct (recommendations_ranked ten_movies "melancholy" 3 50 eq_refl eq_refl)
    as (resp & Hrun & _ & Hsorted & _ & Hk & _).
  exists resp. split; [exact Hrun|].
  split; [vm_compute; reflexivity|].
  split; [|exact Hsorted].
  destruct (Hk ltac:(lia)) as [_ Hlen]. rewrite Hlen.
  vm_compute. reflexivity.
Defined.

(** C8 as the specification states it fails for a negative [k]: with
    [k = -1] both eligible rows are returned, not the first [k]. *)
Lemma negative_k_not_truncated :
  exists resp : Recommendations,
    recommendations (Some untitled_first) "melancholy" (-1) 0 = Returns resp
    /\ length (items resp) = 2%nat
    /\ items resp
       <> firstn (Z.to_nat (-1))
                (order_by_weighted_desc (eligible_rows untitled_first "melancholy" 0)).
Proof.
  eexists. split; [vm_compute; reflexivity|].
  split; [reflexivity|]. vm_compute. discriminate.
Qed.

Lemma lstrip_blank (s : string) : blank s = true -> Str.lstrip s = EmptyString.
Proof.
  induction s as [|c s IH]; simpl; [reflexivity|].
  intros H. apply andb_prop in H as [Hc Hs]. rewrite Hc. now apply IH.
Qed.

Lemma strip_blank (s : string) : blank s = true -> Str.strip s = EmptyString.
Proof. intros H. unfold Str.strip. now rewrite (lstrip_blank s H). Qed.

Lemma like_percent (text : string) : Str.like "%" text = true.
Proof. induction text as [|c text IH]; simpl; [reflexivity | exact IH]. Qed.

Lemma like_percent_percent (text : string) : Str.like "%%" text = true.
Proof.
  destruct text as [|c text].
  - reflexivity.
  - change (Str.like "%%" (String c text))
      with (Str.like "%" (String c text) || Str.like "%%" text).
    now rewrite like_percent.
Qed.

(** The run of a title search that passes the validation and whose limit
    fits in 64 bits. *)
Lemma titles_run (db : Database) (query : string) (limit : Z) :
  (String.length query <= 80)%nat ->
  Int64.fits limit = true ->
  titles (Some db) query limit
  = Returns
      (mkTitles
         (Sql.limit limit
            (List.filter
               (fun m => Sql.like (MovieRow.title m)
                                  ("%" ++ Str.strip query ++ "%")%string)
               (movies db)))).
Proof.
  intros Hlen Hfit. unfold titles.
  destruct (Nat.ltb_spec 80 (String.length query)) as [?|_]; [lia|].
  cbn [get_conn]. now rewrite Hfit.
Qed.

(** C10, as the code has it: a query of whitespace only (at most 80
    characters) gives the pattern ["%%"], which matches every title that is
    not NULL.  For a [limit] within the 64-bit range the result is the
    first [limit] rows of [movies] that have a title, all of them for a
    negative [limit]; it is the first [limit] rows of the table when every
    row has a title and [limit >= 0]. *)
Theorem titles_blank_query (db : Database) (query : string) (limit : Z) :
  blank query = true ->
  (String.length query <= 80)%nat ->
  Int64.fits limit = true ->
  ("%" ++ Str.strip query ++ "%")%string = "%%"
  /\ titles (Some db) query limit
     = Returns (mkTitles (Sql.limit limit (List.filter has_title (movies db))))
  /\ (Forall (fun m => has_title m = true) (movies db) -> 0 <= limit ->
      titles (Some db) query limit
      = Returns (mkTitles (firstn (Z.to_nat limit) (movies db)))).
Proof.
  intros Hblank Hlen Hfit.
  assert (Hq : ("%" ++ Str.strip query ++ "%")%string = "%%")
    by (now rewrite (strip_blank query Hblank)).
  assert (Hrun : titles (Some db) query limit
                 = Returns (mkTitles (Sql.limit limit
                                        (List.filter has_title (movies db))))).
  { rewrite (titles_run db query limit Hlen Hfit), Hq. do 3 f_equal.
    apply filter_ext. intros m. unfold Sql.like, has_title.
    destruct (MovieRow.title m); [apply like_percent_percent | reflexivity]. }
  split; [exact Hq|]. split; [exact Hrun|].
  intros Hall Hlimit. rewrite Hrun. do 2 f_equal.
  unfold Sql.limit. destruct (Z.ltb_spec limit 0) as [?|_]; [lia|].
  f_equal. apply filter_fixed. now apply List.Forall_forall.
Qed.

Lemma titles_blank_query_witness :
  ("%" ++ Str.strip "  " ++ "%")%string = "%%"
  /\ titles (Some ten_movies) "  " 20
     = Returns (mkTitles (Sql.limit 20 (List.filter has_title (movies ten_movies))))
  /\ (Forall (fun m => has_title m = true) (movies ten_movies) -> 0 <= 20 ->
      titles (Some ten_movies) "  " 20
      = Returns (mkTitles (firstn (Z.to_nat 20) (movies ten_movies)))).
Proof.
  apply (titles_blank_query ten_movies "  " 20).
  - reflexivity.
  - simpl. lia.
  - reflexivity.
Defined.

(** C10 as stated fails when a row has no title: the first row of the
    table is not returned. *)
Lemma blank_query_skips_untitled :
  titles (Some untitled_first) "" 1
    = Returns (mkTitles [MovieRow.mk (Float.of_Z 2) (Some "Heat") (Some "Action")])
  /\ titles (Some untitled_first) "" 1
     <> Returns (mkTitles (firstn 1 (movies untitled_first))).
Proof. split; [reflexivity | discriminate]. Qed.

End Queries.

(** ** The catalog *)

Section Catalog.

Import BuildDb.

Lemma matches_unique (s : Scored.t) (mv mv' : Movie.t) :
  matches s mv = true -> matches s mv' = true ->
  Movie.movieId mv = Movie.movieId mv'.
Proof.
  unfold matches, Float.of_Z.
  destruct (Scored.movieId s) as [q| | |]; simpl; try discriminate.
  intros H H'. apply Qeq_bool_eq in H, H'.
  apply inject_Z_injective. now rewrite <- H, <- H'.
Qed.

Lemma matches_same_id (s : Scored.t) (mv mv' : Movie.t) :
  Movie.movieId mv = Movie.movieId mv' -> matches s mv = matches s mv'.
Proof. unfold matches. now intros ->. Qed.

(** After [drop_duplicates("movieId")] at most one row matches a key: the
    first row of [movies] with that identifier. *)
Lemma filter_drop_duplicates (s : Scored.t) (seen : list Z) (movies : list Movie.t) :
  List.filter (matches s) (drop_duplicates_movieId_from seen movies)
  = match find (matches s) movies with
    | Some mv => if existsb (Z.eqb (Movie.movieId mv)) seen then [] else [mv]
    | None => []
    end.
Proof.
  revert seen. induction movies as [|mv rest IH]; intros seen; [reflexivity|].
  cbn [drop_duplicates_movieId_from find].
  destruct (existsb (Z.eqb (Movie.movieId mv)) seen) eqn:Eseen.
  - rewrite IH. destruct (matches s mv) eqn:Em; [|reflexivity].
    rewrite Eseen.
    destruct (find (matches s) rest) as [mv'|] eqn:Ef; [|reflexivity].
    apply find_some in Ef as [_ Em'].
    now rewrite <- (matches_unique s mv mv' Em Em'), Eseen.
  - cbn [List.filter]. rewrite IH.
    destruct (matches s mv) eqn:Em.
    + rewrite Eseen.
      destruct (find (matches s) rest) as [mv'|] eqn:Ef; [|reflexivity].
      apply find_some in Ef as [_ Em'].
      cbn [existsb]. rewrite <- (matches_unique s mv mv' Em Em').
      now rewrite Z.eqb_refl.
    + destruct (find (matches s) rest) as [mv'|] eqn:Ef; [|reflexivity].
      apply find_some in Ef as [_ Em'].
      cbn [existsb].
      destruct (Z.eqb_spec (Movie.movieId mv') (Movie.movieId mv)) as [E|_];
        [|reflexivity].
      rewrite (matches_same_id s mv' mv E) in Em'. congruence.
Qed.

Lemma merge_row_first (movies : list Movie.t) (s : Scored.t) :
  merge_row (drop_duplicates_movieId movies) s = [merged_row movies s].
Proof.
  unfold merge_row, merged_row, drop_duplicates_movieId.
  rewrite filter_drop_duplicates.
  destruct (find (matches s) movies); reflexivity.
Qed.

Lemma merge_left_rows (stats : list Scored.t) (movies : list Movie.t) :
  merge_left stats (drop_duplicates_movieId movies)
  = map (merged_row movies) stats.
Proof.
  unfold merge_left.
  induction stats as [|s stats IH]; [reflexivity|].
  cbn [flat_map map]. now rewrite IH, merge_row_first.
Qed.

Lemma zip_rows_map {A} (f1 f2 f3 f4 : A -> float) (l : list A) :
  zip_rows (map f1 l) (map f2 l) (map f3 l) (map f4 l)
  = map (fun x => Scored.mk (f1 x) (f2 x) (f3 x) (f4 x)) l.
Proof. induction l as [|x l IH]; simpl; [reflexivity | now rewrite IH]. Qed.

Lemma frame_rows_scored (h : heap) (p : ref) (rows : list Stats.t) (m : Z) :
  h !! p
  = Some (<["weighted_rating" :=
              FloatCol
                (map (fun r => weigh m (Float.nanmean (map Stats.avg_rating rows))
                                 (Stats.rating_count r) (Stats.avg_rating r))
                     rows)]>
            (stats_frame rows)) ->
  frame_rows p h = (Returns (scored_rows rows m), h).
Proof.
  intros Hp. unfold frame_rows, bind, getitem, ret.
  rewrite Hp; cbv beta iota.
  change ((<["weighted_rating" := ?c]> (stats_frame rows)) !! "movieId")
    with (Some (IntCol (map Stats.movieId rows))).
  cbv beta iota. rewrite Hp; cbv beta iota.
  change ((<["weighted_rating" := ?c]> (stats_frame rows)) !! "rating_count")
    with (Some (IntCol (map Stats.rating_count rows))).
  cbv beta iota. rewrite Hp; cbv beta iota.
  change ((<["weighted_rating" := ?c]> (stats_frame rows)) !! "avg_rating")
    with (Some (FloatCol (map Stats.avg_rating rows))).
  cbv beta iota. rewrite Hp; cbv beta iota.
  rewrite lookup_insert_eq. cbv beta iota.
  unfold floats, scored_rows. rewrite !map_map.
  now rewrite (zip_rows_map (fun r => Float.of_Z (Stats.movieId r))).
Qed.

(** The run of [main()] on files that exist. *)
Lemma main_run (ratings : list Rating.t) (movies : list Movie.t) (h : heap) :
  exists h' : heap,
    main (mkFiles (Some ratings) (Some movies) (Some tt)) h
    = (Returns
         (mkDatabase
            (movies_table (map (merged_row movies) (pipeline_scores ratings)))
            (movie_scores_table (map (merged_row movies) (pipeline_scores ratings)))),
       h').
Proof.
  set (rows := movie_stats_rows (clean_ratings ratings)).
  set (r := fresh (dom h)).
  set (h1 := <[r := stats_frame rows]> h).
  assert (Hh1 : h1 !! r = Some (stats_frame rows)) by apply lookup_insert_eq.
  pose proof (bayesian_weighted_stats h1 r rows 1000 Hh1) as Hrun.
  match type of Hrun with _ = (_, ?x) => set (h2 := x) in * end.
  assert (Hh2 : frame_rows r h2 = (Returns (scored_rows rows 1000), h2))
    by (apply frame_rows_scored, lookup_insert_eq).
  exists h2.
  unfold main. cbn [ratings_csv movies_csv schema_sql].
  unfold bind at 1. unfold build_movie_stats, new_frame.
  fold rows. fold r. fold h1. cbv beta iota zeta.
  unfold bind at 1. rewrite Hrun. cbv beta iota.
  unfold bind at 1. unfold merge. unfold bind at 1. rewrite Hh2.
  cbv beta iota. unfold ret. rewrite merge_left_rows.
  reflexivity.
Qed.

Lemma movie_scores_of_merged (meta : list Movie.t) (stats : list Scored.t) :
  movie_scores_table (map (merged_row meta) stats) = stats.
Proof.
  unfold movie_scores_table. rewrite map_map.
  induction stats as [|s stats IH]; [reflexivity|].
  cbn [map]. rewrite IH. f_equal.
  unfold merged_row. destruct s, (find _ meta); reflexivity.
Qed.

Lemma movies_of_merged (meta : list Movie.t) (stats : list Scored.t) :
  map MovieRow.movieId (movies_table (map (merged_row meta) stats))
  = map Scored.movieId stats.
Proof.
  unfold movies_table. rewrite !map_map. apply map_ext. intros s.
  unfold merged_row. destruct (find _ meta); reflexivity.
Qed.

(** C2, as the code has it: the catalog is the left join of the scored
    statistics with the metadata.  [main()] writes one row per scored movie
    into each table, in the order of the statistics; the [movies] row of a
    scored movie carries the title and genres of the first metadata row
    with its identifier, and NULL for both when there is none.  A movie
    that only the metadata knows is in neither table. *)
Theorem catalog_left_join (ratings : list Rating.t) (meta : list Movie.t)
    (h : heap) :
  let stats := pipeline_scores ratings in
  exists (db : Database) (h' : heap),
    main (mkFiles (Some ratings) (Some meta) (Some tt)) h = (Returns db, h')
    /\ movie_scores db = stats
    /\ map MovieRow.movieId (movies db) = map Scored.movieId stats
    /\ (forall (i : nat) (s : Scored.t), stats !! i = Some s ->
          exists row : MovieRow.t,
            movies db !! i = Some row
            /\ MovieRow.movieId row = Scored.movieId s
            /\ match find (matches s) meta with
               | Some mv => MovieRow.title row = Movie.title mv
                            /\ MovieRow.genres row = Movie.genres mv
               | None => MovieRow.title row = None /\ MovieRow.genres row = None
               end)
    /\ (forall mv : Movie.t, In mv meta ->
          (forall s, In s stats -> matches s mv = false) ->
          forall row, In row (movies db) ->
            Float.same (MovieRow.movieId row) (Float.of_Z (Movie.movieId mv)) = false).
Proof.
  intros stats.
  destruct (main_run ratings meta h) as (h' & Hrun).
  eexists _, h'. split; [exact Hrun|]. cbn [movies movie_scores]. fold stats.
  split; [apply movie_scores_of_merged|].
  split; [apply movies_of_merged|].
  split.
  - intros i s Hi. unfold movies_table. rewrite map_map.
    change (map ?f stats) with (f <$> stats).
    rewrite list_lookup_fmap, Hi. cbn [fmap option_fmap option_map].
    eexists. split; [reflexivity|].
    unfold merged_row. destruct (find (matches s) meta); cbn; auto.
  - intros mv Hmv Hnone row Hrow.
    unfold movies_table in Hrow. rewrite map_map in Hrow.
    apply in_map_iff in Hrow as (s & <- & Hs).
    specialize (Hnone s Hs). unfold matches in Hnone.
    unfold merged_row. destruct (find (matches s) meta); exact Hnone.
Qed.

(** C2 as the specification states it fails in the other direction: a
    movie of [movies.csv] that has no rating is in neither table. *)
Lemma unrated_movie_not_in_catalog :
  exists (db : Database) (h' : heap),
    main unrated_movie_files ∅ = (Returns db, h')
    /\ In 9 (map Movie.movieId
                [Movie.mk 1 (Some "Toy Story") (Some "Comedy");
                 Movie.mk 9 (Some "Heat") (Some "Action")])
    /\ existsb (fun row => Float.same (MovieRow.movieId row) (Float.of_Z 9))
               (movies db) = false
    /\ existsb (fun s => Float.same (Scored.movieId s) (Float.of_Z 9))
               (movie_scores db) = false.
Proof.
  destruct (main_run scenario_ratings
              [Movie.mk 1 (Some "Toy Story") (Some "Comedy");
               Movie.mk 9 (Some "Heat") (Some "Action")] ∅) as (h' & Hrun).
  eexists _, h'. split; [exact Hrun|].
  split; [simpl; auto|].
  split; vm_compute; reflexivity.
Qed.

End Catalog.

(** * Further properties of the code *)

(** ** Cleaning: what survives and what is dropped *)

Section MoreCleaning.

Import BuildDb.

Lemma same_cell_refl (a : option Z) : Rating.same_cell a a = true.
Proof. destruct a; simpl; [apply Z.eqb_refl | reflexivity]. Qed.

Lemma same_cell_trans (a b c : option Z) :
  Rating.same_cell a b = true -> Rating.same_cell b c = true ->
  Rating.same_cell a c = true.
Proof.
  destruct a, b, c; simpl; try congruence.
  rewrite !Z.eqb_eq. congruence.
Qed.

Lemma same_cell_isna (a b : option Z) :
  Rating.same_cell a b = true -> Rating.isna a = Rating.isna b.
Proof. destruct a, b; simpl; congruence. Qed.

Lemma float_same_refl (x : float) : Float.same x x = true.
Proof. destruct x; simpl; [apply Qeq_bool_refl | | |]; reflexivity. Qed.

Lemma float_same_trans (x y z : float) :
  Float.same x y = true -> Float.same y z = true -> Float.same x z = true.
Proof.
  destruct x, y, z; simpl; try congruence. apply Qeq_bool_trans.
Qed.

Lemma float_same_isna (x y : float) :
  Float.same x y = true -> Float.isna x = Float.isna y.
Proof. destruct x, y; simpl; congruence. Qed.

Lemma float_same_leb_l (x y z : float) :
  Float.same x y = true -> Float.leb x z = Float.leb y z.
Proof.
  destruct x as [p| | |], y as [q| | |], z as [r| | |]; simpl; try congruence.
  intros H. apply Qeq_bool_eq in H.
  apply eq_true_iff_eq. rewrite !Qle_bool_iff. now rewrite H.
Qed.

Lemma float_same_leb_r (x y z : float) :
  Float.same x y = true -> Float.leb z x = Float.leb z y.
Proof.
  destruct x as [p| | |], y as [q| | |], z as [r| | |]; simpl; try congruence.
  intros H. apply Qeq_bool_eq in H.
  apply eq_true_iff_eq. rewrite !Qle_bool_iff. now rewrite H.
Qed.

Lemma rating_same_refl (r : Rating.t) : Rating.same r r = true.
Proof.
  unfold Rating.same. now rewrite !same_cell_refl, float_same_refl.
Qed.

Lemma rating_same_fields (a b : Rating.t) :
  Rating.same a b = true ->
  Rating.same_cell (Rating.userId a) (Rating.userId b) = true
  /\ Rating.same_cell (Rating.movieId a) (Rating.movieId b) = true
  /\ Float.same (Rating.rating a) (Rating.rating b) = true
  /\ Rating.same_cell (Rating.timestamp a) (Rating.timestamp b) = true.
Proof.
  unfold Rating.same. intros H.
  apply andb_prop in H as [H Ht]. apply andb_prop in H as [H Hr].
  apply andb_prop in H as [Hu Hm]. auto.
Qed.

Lemma rating_same_trans (a b c : Rating.t) :
  Rating.same a b = true -> Rating.same b c = true -> Rating.same a c = true.
Proof.
  intros Hab Hbc.
  apply rating_same_fields in Hab as (Hu & Hm & Hr & Ht).
  apply rating_same_fields in Hbc as (Hu' & Hm' & Hr' & Ht').
  unfold Rating.same.
  now rewrite (same_cell_trans _ _ _ Hu Hu'), (same_cell_trans _ _ _ Hm Hm'),
    (float_same_trans _ _ _ Hr Hr'), (same_cell_trans _ _ _ Ht Ht').
Qed.

(** Equal rows are valid together. *)
Lemma valid_row_same (a b : Rating.t) :
  Rating.same a b = true -> valid_row a = valid_row b.
Proof.
  intros H. apply rating_same_fields in H as (Hu & Hm & Hr & _).
  unfold valid_row, in_range, Float.geb.
  now rewrite (same_cell_isna _ _ Hu), (same_cell_isna _ _ Hm),
    (float_same_isna _ _ Hr), (float_same_leb_r _ _ _ Hr),
    (float_same_leb_l _ _ _ Hr).
Qed.

Lemma valid_row_not_all_na (r : Rating.t) :
  valid_row r = true -> negb (Rating.all_na r) = true.
Proof.
  unfold valid_row, Rating.all_na.
  destruct (Rating.isna (Rating.userId r)); simpl; [discriminate | reflexivity].
Qed.

(** A row of the input is equal to a row already seen or to a row that
    [drop_duplicates] keeps. *)
Lemma drop_duplicates_keeps_one (seen rows : list Rating.t) (r : Rating.t) :
  In r rows ->
  existsb (Rating.same r) seen = true
  \/ exists r', In r' (drop_duplicates_from seen rows) /\ Rating.same r r' = true.
Proof.
  revert seen. induction rows as [|x rows IH]; intros seen Hin; [destruct Hin|].
  cbn [drop_duplicates_from].
  destruct Hin as [->|Hin].
  - destruct (existsb (Rating.same r) seen) eqn:E; [now left|].
    right. exists r. split; [now left | apply rating_same_refl].
  - destruct (IH (x :: seen) Hin) as [Hseen|(r' & Hr' & Hsame)].
    + cbn [existsb] in Hseen. apply orb_prop in Hseen as [Hx|Hseen]; [|now left].
      destruct (existsb (Rating.same x) seen) eqn:E.
      * left. apply existsb_exists in E as (y & Hy & Hxy).
        apply existsb_exists. exists y. split; [exact Hy|].
        exact (rating_same_trans _ _ _ Hx Hxy).
      * right. exists x. split; [now left | exact Hx].
    + right. exists r'. split; [|exact Hsame].
      destruct (existsb (Rating.same x) seen); [exact Hr' | now right].
Qed.

Lemma valid_row_cells (r : Rating.t) :
  valid_row r = true ->
  exists (u k : Z) (q : Q),
    Rating.userId r = Some u /\ Rating.movieId r = Some k
    /\ Rating.rating r = Float.Fin q /\ ((1 # 2) <= q <= 5)%Q.
Proof.
  unfold valid_row, in_range, Float.geb. intros H.
  apply andb_prop in H as [H Hrange]. apply andb_prop in H as [H Hr].
  apply andb_prop in H as [Hu Hm]. apply andb_prop in Hrange as [Hlo Hhi].
  destruct (Rating.userId r) as [u|]; [|discriminate].
  destruct (Rating.movieId r) as [k|]; [|discriminate].
  destruct (Rating.rating r) as [q| | |]; try discriminate.
  exists u, k, q. simpl in Hlo, Hhi. apply Qle_bool_iff in Hlo, Hhi. auto.
Qed.

Lemma clean_ratings_In_valid (X : list Rating.t) (r : Rating.t) :
  In r (clean_ratings X) -> valid_row r = true.
Proof.
  unfold clean_ratings, dropna_subset. intros Hr.
  apply filter_In in Hr as [Hr Hrange]. apply filter_In in Hr as [_ Hcells].
  unfold valid_row. now rewrite Hcells, Hrange.
Qed.

Lemma distinct_from_seen (seen rows : list Rating.t) (r : Rating.t) :
  distinct_from seen rows -> In r rows -> existsb (Rating.same r) seen = false.
Proof.
  revert seen. induction rows as [|x rows IH]; intros seen; simpl; [tauto|].
  intros [Hx Hrest] [->|Hr]; [exact Hx|].
  specialize (IH (x :: seen) Hrest Hr). cbn [existsb] in IH.
  now apply orb_false_elim in IH as [_ ?].
Qed.

Lemma distinct_from_pairwise (seen rows : list Rating.t) (i j : nat)
    (r r' : Rating.t) :
  distinct_from seen rows -> (i < j)%nat ->
  rows !! i = Some r -> rows !! j = Some r' -> Rating.same r' r = false.
Proof.
  revert seen i j. induction rows as [|x rows IH]; intros seen i j Hd Hij Hi Hj.
  - discriminate.
  - destruct Hd as [_ Hrest]. destruct j as [|j]; [lia|]. simpl in Hj.
    destruct i as [|i]; simpl in Hi.
    + injection Hi as ->.
      assert (Hin : In r' rows)
        by (apply list_elem_of_In, list_elem_of_lookup; eauto).
      pose proof (distinct_from_seen _ _ _ Hrest Hin) as H.
      cbn [existsb] in H. now apply orb_false_elim in H as [? _].
    + apply (IH (x :: seen) i j Hrest); [lia | exact Hi | exact Hj].
Qed.

Lemma clean_ratings_distinct (X : list Rating.t) :
  distinct_from [] (clean_ratings X).
Proof.
  unfold clean_ratings, dropna_subset, drop_duplicates.
  do 2 apply filter_distinct. apply drop_duplicates_distinct.
Qed.

(** X1: what a cleaned table looks like.  Every row has a user, a movie and
    a rating that is a number between 0.5 and 5.0, and no row equals an
    earlier row. *)
Theorem clean_ratings_rows (X : list Rating.t) :
  (forall r, In r (clean_ratings X) ->
     exists (u k : Z) (q : Q),
       Rating.userId r = Some u /\ Rating.movieId r = Some k
       /\ Rating.rating r = Float.Fin q /\ ((1 # 2) <= q <= 5)%Q)
  /\ (forall (i j : nat) (r r' : Rating.t), (i < j)%nat ->
        clean_ratings X !! i = Some r -> clean_ratings X !! j = Some r' ->
        Rating.same r' r = false).
Proof.
  split.
  - intros r Hr. apply valid_row_cells, (clean_ratings_In_valid X), Hr.
  - intros i j r r'. apply (distinct_from_pairwise []), clean_ratings_distinct.
Qed.

Lemma clean_ratings_keeps (X : list Rating.t) (r : Rating.t) :
  In r X -> valid_row r = true ->
  exists r', In r' (clean_ratings X) /\ Rating.same r r' = true.
Proof.
  intros Hr Hvalid.
  assert (Hr1 : In r (dropna_all X))
    by (apply filter_In; split; [exact Hr | now apply valid_row_not_all_na]).
  destruct (drop_duplicates_keeps_one [] _ r Hr1) as [H|(r' & Hr' & Hsame)];
    [discriminate|].
  exists r'. split; [|exact Hsame].
  assert (Hvalid' : valid_row r' = true)
    by (now rewrite <- (valid_row_same r r' Hsame)).
  unfold valid_row in Hvalid'. apply andb_prop in Hvalid' as [Hcells Hrange].
  unfold clean_ratings, dropna_subset.
  apply filter_In. split; [|exact Hrange].
  apply filter_In. split; [exact Hr'|exact Hcells].
Qed.

(** X2: cleaning drops a row only for its content or as a duplicate.  A row
    of the input with user, movie and an in-range rating is in the cleaned
    table, itself or as the earlier row it duplicates. *)
Theorem clean_ratings_keeps_valid (X : list Rating.t) (r : Rating.t) :
  In r X ->
  valid_row r = true ->
  exists r', In r' (clean_ratings X) /\ Rating.same r r' = true.
Proof. apply clean_ratings_keeps. Qed.

Lemma clean_ratings_keeps_valid_witness :
  exists r', In r' (clean_ratings (scenario_ratings ++ scenario_ratings))
             /\ Rating.same (Rating.mk (Some 3) (Some 2) (Float.Fin 1) None) r' = true.
Proof.
  apply (clean_ratings_keeps_valid (scenario_ratings ++ scenario_ratings)
           (Rating.mk (Some 3) (Some 2) (Float.Fin 1) None)).
  - simpl. auto.
  - reflexivity.
Defined.

Lemma sublist_same_length {A} (l k : list A) :
  l `sublist_of` k -> length l = length k -> l = k.
Proof.
  induction 1 as [|x l k Hsub IH|x l k Hsub IH]; simpl; intros Hlen.
  - reflexivity.
  - f_equal. apply IH. lia.
  - apply sublist_length in Hsub. lia.
Qed.

(** X3: the two counts [analysis.py] prints.  [before] is the number of
    input rows, [after] the number of rows returned, [after <= before], and
    the two are equal only when the table is returned unchanged. *)
Theorem clean_log_counts (X : list Rating.t) :
  let log := fst (Analysis.clean_ratings X) in
  let Y := snd (Analysis.clean_ratings X) in
  Analysis.before log = length X
  /\ Analysis.after log = length Y
  /\ (Analysis.after log <= Analysis.before log)%nat
  /\ (Analysis.after log = Analysis.before log <-> Y = X).
Proof.
  cbn [fst snd Analysis.clean_ratings Analysis.before Analysis.after].
  fold (dropna_subset (drop_duplicates (dropna_all X))).
  change (List.filter in_range (dropna_subset (drop_duplicates (dropna_all X))))
    with (clean_ratings X).
  pose proof (clean_ratings_sublist X) as Hsub.
  split; [reflexivity|]. split; [reflexivity|].
  split; [exact (sublist_length _ _ Hsub)|].
  split; [apply sublist_same_length, Hsub | now intros ->].
Qed.

End MoreCleaning.

(** ** Aggregation: one row per rated movie *)

Section MoreStats.

Import BuildDb.

Lemma insert_key_In (k x : Z) (keys : list Z) :
  In x (insert_key k keys) <-> x = k \/ In x keys.
Proof.
  induction keys as [|y keys IH]; simpl; [intuition congruence|].
  destruct (Z.ltb_spec k y); [simpl; intuition congruence|].
  destruct (Z.eqb_spec k y) as [->|Hne]; simpl; [intuition congruence|].
  rewrite IH. intuition congruence.
Qed.

Lemma insert_key_sorted (k : Z) (keys : list Z) :
  StronglySorted Z.lt keys -> StronglySorted Z.lt (insert_key k keys).
Proof.
  induction keys as [|y keys IH]; intros Hs; simpl.
  - repeat constructor.
  - apply StronglySorted_inv in Hs as [Hkeys Hy].
    destruct (Z.ltb_spec k y) as [Hlt|Hge].
    + constructor; [now constructor|].
      constructor; [exact Hlt|].
      rewrite List.Forall_forall in *. intros z Hz. specialize (Hy z Hz). lia.
    + destruct (Z.eqb_spec k y) as [->|Hne]; [now constructor|].
      constructor; [now apply IH|].
      rewrite List.Forall_forall in *. intros z Hz.
      apply insert_key_In in Hz as [->|Hz]; [lia | now apply Hy].
Qed.

Lemma group_keys_sorted (ratings : list Rating.t) :
  StronglySorted Z.lt (group_keys ratings).
Proof.
  unfold group_keys.
  induction (omap Rating.movieId ratings) as [|k ks IH]; simpl;
    [constructor | now apply insert_key_sorted].
Qed.

Lemma group_keys_In (ratings : list Rating.t) (k : Z) :
  In k (group_keys ratings)
  <-> exists r, In r ratings /\ Rating.movieId r = Some k.
Proof.
  unfold group_keys.
  assert (H : forall ks : list Z, In k (fold_right insert_key [] ks) <-> In k ks).
  { induction ks as [|x ks IH]; simpl; [tauto|].
    rewrite insert_key_In, IH. intuition congruence. }
  rewrite H, <- list_elem_of_In, list_elem_of_omap.
  split; intros (r & Hr & Hk); exists r; split; try exact Hk;
    now apply list_elem_of_In.
Qed.

Lemma movie_stats_ids (ratings : list Rating.t) :
  map Stats.movieId (movie_stats_rows ratings) = group_keys ratings.
Proof.
  unfold movie_stats_rows. rewrite map_map. cbn [Stats.movieId]. apply map_id.
Qed.

(** X4: the statistics have one row per movie identifier that occurs in the
    ratings, in strictly ascending order of the identifier (so no identifier
    twice); rows whose [movieId] is missing form no group. *)
Theorem movie_stats_coverage (ratings : list Rating.t) :
  StronglySorted Z.lt (map Stats.movieId (movie_stats_rows ratings))
  /\ (forall k : Z,
        In k (map Stats.movieId (movie_stats_rows ratings))
        <-> exists r, In r ratings /\ Rating.movieId r = Some k).
Proof.
  rewrite movie_stats_ids. split; [apply group_keys_sorted|].
  intros k. apply group_keys_In.
Qed.

Local Open Scope Q_scope.




Local Close Scope Q_scope.

Lemma ratings_fin (L : list Rating.t) :
  (forall r, In r L -> valid_row r = true) ->
  exists qs : list Q,
    map Rating.rating L = map Float.Fin qs
    /\ List.Forall (fun q => ((1 # 2) <= q <= 5)%Q) qs.
Proof.
  induction L as [|r L IH]; intros Hvalid.
  - exists []. split; [reflexivity | constructor].
  - destruct IH as (qs & Hqs & Hall); [intros x Hx; apply Hvalid; now right|].
    destruct (valid_row_cells r (Hvalid r (or_introl eq_refl)))
      as (_ & _ & q & _ & _ & Hq & Hrange).
    exists (q :: qs). split; [simpl; now rewrite Hq, Hqs | now constructor].
Qed.

Lemma agg_count_fin (qs : list Q) :
  agg_count (map Float.Fin qs) = Z.of_nat (length qs).
Proof. unfold agg_count. now rewrite filter_fin, length_map. Qed.






End MoreStats.

(** ** The scorer: errors, repeated calls, edge values, ranking *)

Section MoreScorer.

Import BuildDb.

(** X7: a missing column.  When the frame has no [avg_rating] column the
    call raises [KeyError('avg_rating')]; when it has one but no
    [rating_count] column it raises [KeyError('rating_count')].  In both
    cases the store is left as it was: no column is added. *)
Theorem scorer_missing_column (h : heap) (p : ref) (frame : DataFrame) (m : Z) :
  h !! p = Some frame ->
  (frame !! "avg_rating" = None ->
     bayesian_weighted p m h = (Raises (KeyError "avg_rating"), h))
  /\ (forall avg, frame !! "avg_rating" = Some avg ->
        frame !! "rating_count" = None ->
        bayesian_weighted p m h = (Raises (KeyError "rating_count"), h)).
Proof.
  intros Hp. split.
  - intros Havg. unfold bayesian_weighted, bind, getitem.
    rewrite Hp; cbv beta iota. now rewrite Havg.
  - intros avg Havg Hcnt. unfold bayesian_weighted, bind, getitem.
    rewrite Hp; cbv beta iota. rewrite Havg; cbv beta iota zeta.
    rewrite Hp; cbv beta iota. now rewrite Hcnt.
Qed.

Lemma scorer_missing_column_witness :
  bayesian_weighted 0 1000 {[ 0%nat := (∅ : DataFrame) ]}
  = (Raises (KeyError "avg_rating"), {[ 0%nat := (∅ : DataFrame) ]}).
Proof.
  apply (scorer_missing_column {[ 0%nat := (∅ : DataFrame) ]} 0%nat ∅ 1000).
  - apply lookup_singleton_eq.
  - reflexivity.
Defined.

(** X8: scoring again.  A second call on the same frame, with the same or
    another [m], replaces the [weighted_rating] column: the result is the
    one a single call with the second [m] gives, so the call is idempotent
    and the score of a frame never depends on an earlier score. *)
Theorem scorer_twice (h : heap) (p : ref) (frame : DataFrame) (m m' : Z)
    (cnt avg : column) :
  h !! p = Some frame ->
  frame !! "avg_rating" = Some avg ->
  frame !! "rating_count" = Some cnt ->
  exists h1 : heap,
    bayesian_weighted p m h = (Returns p, h1)
    /\ bayesian_weighted p m' h1 = bayesian_weighted p m' h
    /\ bayesian_weighted p m h1 = (Returns p, h1).
Proof.
  intros Hp Havg Hcnt.
  set (frame1 := <["weighted_rating" := weighted_column cnt avg m]> frame).
  exists (<[p := frame1]> h).
  split; [apply (bayesian_weighted_run h p frame m cnt avg Hp Havg Hcnt)|].
  assert (Hp1 : (<[p := frame1]> h) !! p = Some frame1) by apply lookup_insert_eq.
  assert (Havg1 : frame1 !! "avg_rating" = Some avg)
    by (unfold frame1; now rewrite lookup_insert_ne).
  assert (Hcnt1 : frame1 !! "rating_count" = Some cnt)
    by (unfold frame1; now rewrite lookup_insert_ne).
  split.
  - rewrite (bayesian_weighted_run _ p frame1 m' cnt avg Hp1 Havg1 Hcnt1).
    rewrite (bayesian_weighted_run h p frame m' cnt avg Hp Havg Hcnt).
    unfold frame1. now rewrite !insert_insert_eq.
  - rewrite (bayesian_weighted_run _ p frame1 m cnt avg Hp1 Havg1 Hcnt1).
    unfold frame1. now rewrite !insert_insert_eq.
Qed.

Lemma scorer_twice_witness :
  exists h1 : heap,
    bayesian_weighted 0 1000 {[ 0%nat := stats_frame two_movies ]} = (Returns 0%nat, h1)
    /\ bayesian_weighted 0 50 h1
       = bayesian_weighted 0 50 {[ 0%nat := stats_frame two_movies ]}
    /\ bayesian_weighted 0 1000 h1 = (Returns 0%nat, h1).
Proof.
  apply (scorer_twice {[ 0%nat := stats_frame two_movies ]} 0%nat
           (stats_frame two_movies) 1000 50
           (IntCol (map Stats.rating_count two_movies))
           (FloatCol (map Stats.avg_rating two_movies))).
  - apply lookup_singleton_eq.
  - reflexivity.
  - reflexivity.
Defined.

(** The score of row [i], whatever its cells are. *)
Lemma scorer_cell (h : heap) (p : ref) (rows : list Stats.t) (m : Z)
    (i : nat) (r : Stats.t) :
  h !! p = Some (stats_frame rows) ->
  rows !! i = Some r ->
  exists ws : list float,
    bayesian_weighted p m h
      = (Returns p, <[p := <["weighted_rating" := FloatCol ws]> (stats_frame rows)]> h)
    /\ ws !! i
       = Some (weigh m (series_mean (FloatCol (map Stats.avg_rating rows)))
                     (Stats.rating_count r) (Stats.avg_rating r)).
Proof.
  intros Hp Hi. eexists.
  split; [apply (bayesian_weighted_stats h p rows m Hp)|].
  now rewrite (lookup_score rows m _ i r Hi).
Qed.

Lemma weigh_nan_avg (m : Z) (C : float) (n : Z) :
  weigh m C n Float.NaN = Float.NaN.
Proof.
  unfold weigh.
  destruct (Float.div (Float.of_Z n) (Float.of_Z (n + m))); reflexivity.
Qed.

Lemma weigh_nan_mean (m : Z) (n : Z) (avg : float) :
  weigh m Float.NaN n avg = Float.NaN.
Proof.
  unfold weigh.
  destruct (Float.div (Float.of_Z m) (Float.of_Z (n + m)));
  destruct (Float.mul (Float.div (Float.of_Z n) (Float.of_Z (n + m))) avg);
  reflexivity.
Qed.

(** X9: NaN propagates, silently.  A row whose average is NaN gets a NaN
    score whatever its count (even 0), and when the mean of the averages is
    NaN (no row has a numeric average) every row gets a NaN score; the call
    still returns normally. *)
Theorem scorer_nan (h : heap) (p : ref) (rows : list Stats.t) (m : Z)
    (i : nat) (r : Stats.t) :
  h !! p = Some (stats_frame rows) ->
  rows !! i = Some r ->
  Stats.avg_rating r = Float.NaN
  \/ series_mean (FloatCol (map Stats.avg_rating rows)) = Float.NaN ->
  exists ws : list float,
    bayesian_weighted p m h
      = (Returns p, <[p := <["weighted_rating" := FloatCol ws]> (stats_frame rows)]> h)
    /\ ws !! i = Some Float.NaN.
Proof.
  intros Hp Hi Hnan.
  destruct (scorer_cell h p rows m i r Hp Hi) as (ws & Hrun & Hw).
  exists ws. split; [exact Hrun|]. rewrite Hw. f_equal.
  destruct Hnan as [-> | ->]; [apply weigh_nan_avg | apply weigh_nan_mean].
Qed.

Lemma scorer_nan_witness :
  exists ws : list float,
    bayesian_weighted 0 1000 {[ 0%nat := stats_frame nan_row ]}
      = (Returns 0%nat,
         <[0%nat := <["weighted_rating" := FloatCol ws]> (stats_frame nan_row)]>
           {[ 0%nat := stats_frame nan_row ]})
    /\ ws !! 1%nat = Some Float.NaN.
Proof.
  apply (scorer_nan {[ 0%nat := stats_frame nan_row ]} 0%nat nan_row 1000 1%nat
           (Stats.mk 2 0 Float.NaN)).
  - apply lookup_singleton_eq.
  - reflexivity.
  - left. reflexivity.
Defined.

Lemma div_by_zero_not_fin (x : float) :
  is_fin (Float.div x (Float.of_Z 0)) = false.
Proof.
  destruct x as [q| | |]; try reflexivity.
  unfold Float.div, Float.of_Z. cbn [Float.Qis_zero inject_Z Qnum Z.eqb].
  destruct (Float.Qis_zero q); [reflexivity|].
  destruct (Float.Qsgn_pos q); reflexivity.
Qed.

Lemma mul_not_fin (x y : float) : is_fin x = false -> is_fin (Float.mul x y) = false.
Proof.
  destruct x as [p| | |]; [discriminate| | |]; intros _; simpl;
    try reflexivity; destruct y as [q| | |]; simpl; try reflexivity;
    destruct (Float.Qis_zero q); try reflexivity;
    destruct (Float.Qsgn_pos q); reflexivity.
Qed.

Lemma add_not_fin (x y : float) : is_fin x = false -> is_fin (Float.add x y) = false.
Proof.
  destruct x as [p| | |]; [discriminate| | |]; intros _;
    destruct y; reflexivity.
Qed.

(** X10: a zero denominator.  When [rating_count + m = 0] for a row (for
    instance [m = 0] and a movie without ratings) the division by zero
    raises nothing: the call returns and the score of that row is an
    infinity or NaN, never a number. *)
Theorem scorer_zero_denominator (h : heap) (p : ref) (rows : list Stats.t)
    (m : Z) (i : nat) (r : Stats.t) :
  h !! p = Some (stats_frame rows) ->
  rows !! i = Some r ->
  Stats.rating_count r + m = 0 ->
  exists (ws : list float) (w : float),
    bayesian_weighted p m h
      = (Returns p, <[p := <["weighted_rating" := FloatCol ws]> (stats_frame rows)]> h)
    /\ ws !! i = Some w
    /\ is_fin w = false.
Proof.
  intros Hp Hi Hden.
  destruct (scorer_cell h p rows m i r Hp Hi) as (ws & Hrun & Hw).
  eexists ws, _. split; [exact Hrun|]. split; [exact Hw|].
  unfold weigh. rewrite Hden.
  apply add_not_fin, mul_not_fin, div_by_zero_not_fin.
Qed.

Lemma scorer_zero_denominator_witness :
  exists (ws : list float) (w : float),
    bayesian_weighted 0 0 {[ 0%nat := stats_frame unrated_row ]}
      = (Returns 0%nat,
         <[0%nat := <["weighted_rating" := FloatCol ws]> (stats_frame unrated_row)]>
           {[ 0%nat := stats_frame unrated_row ]})
    /\ ws !! 1%nat = Some w
    /\ is_fin w = false.
Proof.
  apply (scorer_zero_denominator {[ 0%nat := stats_frame unrated_row ]} 0%nat
           unrated_row 0 1%nat (Stats.mk 2 0 (Float.Fin 1))).
  - apply lookup_singleton_eq.
  - reflexivity.
  - reflexivity.
Defined.

Local Open Scope Q_scope.

Lemma shrink_zero_count (m : Z) (a c : Q) :
  (m <> 0)%Z -> spec_weighted_rating m c 0 a == c.
Proof.
  intros Hm. unfold spec_weighted_rating. rewrite Z.add_0_l.
  assert (~ inject_Z m == 0)
    by (change 0 with (inject_Z 0); rewrite inject_Z_injective; exact Hm).
  change (inject_Z 0) with 0. field. assumption.
Qed.

Lemma pull_lt_one (m n : Z) :
  (0 < m)%Z -> (0 < n)%Z -> inject_Z m / inject_Z (n + m) < 1.
Proof.
  intros Hm Hn. pose proof (den_pos m n Hm ltac:(lia)) as Hd.
  assert (inject_Z m < inject_Z (n + m)) by (rewrite <- Zlt_Qlt; lia).
  apply Qlt_shift_div_r; lra.
Qed.

Lemma shrink_mono_avg (m n : Z) (a1 a2 c : Q) :
  (0 < m)%Z -> (0 <= n)%Z -> a1 <= a2 ->
  spec_weighted_rating m c n a1 <= spec_weighted_rating m c n a2.
Proof.
  intros Hm Hn Ha. rewrite !shrink_decomp by assumption.
  pose proof (pull_bounds m n Hm Hn) as [Hs0 Hs1].
  set (s := inject_Z m / inject_Z (n + m)) in *. nra.
Qed.

Lemma shrink_strict_avg (m n : Z) (a1 a2 c : Q) :
  (0 < m)%Z -> (0 < n)%Z -> a1 < a2 ->
  spec_weighted_rating m c n a1 < spec_weighted_rating m c n a2.
Proof.
  intros Hm Hn Ha. rewrite !shrink_decomp by (assumption || lia).
  pose proof (pull_bounds m n Hm ltac:(lia)) as [Hs0 _].
  pose proof (pull_lt_one m n Hm Hn) as Hs1.
  set (s := inject_Z m / inject_Z (n + m)) in *. nra.
Qed.

Lemma shrink_mono_count (m n1 n2 : Z) (a c : Q) :
  (0 < m)%Z -> (0 <= n1)%Z -> (n1 <= n2)%Z ->
  (c <= a -> spec_weighted_rating m c n1 a <= spec_weighted_rating m c n2 a)
  /\ (a <= c -> spec_weighted_rating m c n2 a <= spec_weighted_rating m c n1 a).
Proof.
  intros Hm H1 H2. rewrite !shrink_decomp by (assumption || lia).
  pose proof (pull_antitone m n1 n2 Hm H1 H2) as Hs.
  set (s1 := inject_Z m / inject_Z (n1 + m)) in *.
  set (s2 := inject_Z m / inject_Z (n2 + m)) in *.
  split; intros Hac; nra.
Qed.

Local Close Scope Q_scope.

(** One run, and the score of every row with a numeric average. *)
Lemma scorer_run_fin (h : heap) (p : ref) (rows : list Stats.t) (m : Z) (c : Q) :
  h !! p = Some (stats_frame rows) ->
  series_mean (FloatCol (map Stats.avg_rating rows)) = Float.Fin c ->
  exists ws : list float,
    bayesian_weighted p m h
      = (Returns p, <[p := <["weighted_rating" := FloatCol ws]> (stats_frame rows)]> h)
    /\ forall (i : nat) (r : Stats.t) (a : Q),
         rows !! i = Some r -> Stats.avg_rating r = Float.Fin a ->
         Stats.rating_count r + m <> 0 ->
         ws !! i
         = Some (Float.Fin (spec_weighted_rating m c (Stats.rating_count r) a)).
Proof.
  intros Hp HC. eexists.
  split; [apply (bayesian_weighted_stats h p rows m Hp)|].
  intros i r a Hi Ha Hden. unfold series_mean, floats in HC.
  rewrite (lookup_score rows m _ i r Hi), HC, Ha.
  now rewrite weigh_fin.
Qed.

(** X11: a movie without ratings.  With [m <> 0], a row whose count is 0 and
    whose average is a number gets exactly the mean [C] as its score. *)
Theorem scorer_zero_count (h : heap) (p : ref) (rows : list Stats.t) (m : Z)
    (i : nat) (r : Stats.t) (a c : Q) :
  h !! p = Some (stats_frame rows) ->
  rows !! i = Some r ->
  Stats.avg_rating r = Float.Fin a ->
  series_mean (FloatCol (map Stats.avg_rating rows)) = Float.Fin c ->
  Stats.rating_count r = 0 ->
  m <> 0 ->
  exists (ws : list float) (w : Q),
    bayesian_weighted p m h
      = (Returns p, <[p := <["weighted_rating" := FloatCol ws]> (stats_frame rows)]> h)
    /\ ws !! i = Some (Float.Fin w)
    /\ (w == c)%Q.
Proof.
  intros Hp Hi Ha HC Hn Hm.
  destruct (scorer_row h p rows m i r a c Hp Hi Ha HC ltac:(lia))
    as (ws & Hrun & Hw).
  eexists ws, _. split; [exact Hrun|]. split; [exact Hw|].
  rewrite Hn. now apply shrink_zero_count.
Qed.

Lemma scorer_zero_count_witness :
  exists (ws : list float) (w : Q),
    bayesian_weighted 0 1000 {[ 0%nat := stats_frame unrated_row ]}
      = (Returns 0%nat,
         <[0%nat := <["weighted_rating" := FloatCol ws]> (stats_frame unrated_row)]>
           {[ 0%nat := stats_frame unrated_row ]})
    /\ ws !! 1%nat = Some (Float.Fin w)
    /\ (w == Qmean [5; 1])%Q.
Proof.
  apply (scorer_zero_count {[ 0%nat := stats_frame unrated_row ]} 0%nat
           unrated_row 1000 1%nat (Stats.mk 2 0 (Float.Fin 1)) 1%Q (Qmean [5%Q; 1%Q])).
  - apply lookup_singleton_eq.
  - reflexivity.
  - reflexivity.
  - reflexivity.
  - reflexivity.
  - lia.
Defined.

(** X12: ranking by average.  In one table scored by the machine (any
    [m > 0] with [rating_count + m] below [2 ^ 53]), of two movies with the
    same count and averages on the rating scale, the one with the higher
    average never gets the lower score: every rounding keeps the order.
    The values of the formula are strictly ordered when the averages
    differ and the count is positive; the stored scores can be equal. *)
Theorem ranking_by_average (total : list float -> float) (h : heap) (p : ref)
    (rows : list Stats.t) (m : Z) (i j : nat) (r1 r2 : Stats.t) (a1 a2 c : Q) :
  h !! p = Some (stats_frame rows) ->
  rows !! i = Some r1 ->
  rows !! j = Some r2 ->
  Stats.avg_rating r1 = Float.Fin a1 ->
  Stats.avg_rating r2 = Float.Fin a2 ->
  Rounded.series_mean total (FloatCol (map Stats.avg_rating rows)) = Float.Fin c ->
  0 < m ->
  0 <= Stats.rating_count r1 ->
  Stats.rating_count r1 + m < 2 ^ 53 ->
  Stats.rating_count r1 = Stats.rating_count r2 ->
  (0 <= a1)%Q -> (a1 <= a2)%Q -> (a2 <= 5)%Q ->
  (0 <= c)%Q -> (c <= 5)%Q ->
  exists (ws : list float) (w1 w2 : Q),
    Rounded.bayesian_weighted total p m h
      = (Returns p, <[p := <["weighted_rating" := FloatCol ws]> (stats_frame rows)]> h)
    /\ ws !! i = Some (Float.Fin w1)
    /\ ws !! j = Some (Float.Fin w2)
    /\ (w1 <= w2)%Q
    /\ ((a1 < a2)%Q -> 0 < Stats.rating_count r1 ->
        (spec_weighted_rating m c (Stats.rating_count r1) a1
         < spec_weighted_rating m c (Stats.rating_count r2) a2)%Q).
Proof.
  intros Hp Hi Hj Ha1 Ha2 HC Hm Hn Hsum Heq Ha0 Ha Ha5 Hc0 Hc5.
  destruct (weigh_rounded_mono m (Stats.rating_count r1) a1 a2 c
              Hm Hn Hsum Ha0 Ha Ha5 Hc0 Hc5) as (w1 & w2 & E1 & E2 & Hw).
  eexists _, w1, w2. split; [apply (rounded_run total h p rows m Hp)|].
  change (map ?f rows) with (f <$> rows).
  rewrite !list_lookup_fmap, Hi, Hj. cbn [fmap option_fmap option_map].
  rewrite HC, Ha1, Ha2, <- Heq, E1, E2.
  do 3 (split; [reflexivity || assumption|]).
  intros Hlt Hpos. now apply shrink_strict_avg.
Qed.

Lemma ranking_by_average_witness :
  exists (ws : list float) (w1 w2 : Q),
    Rounded.bayesian_weighted Binary64.sum 0 1000 {[ 0%nat := stats_frame same_count ]}
      = (Returns 0%nat,
         <[0%nat := <["weighted_rating" := FloatCol ws]> (stats_frame same_count)]>
           {[ 0%nat := stats_frame same_count ]})
    /\ ws !! 0%nat = Some (Float.Fin w1)
    /\ ws !! 1%nat = Some (Float.Fin w2)
    /\ (w1 <= w2)%Q
    /\ ((2 < 4)%Q -> 0 < 7 ->
        (spec_weighted_rating 1000 3 7 2 < spec_weighted_rating 1000 3 7 4)%Q).
Proof.
  apply (ranking_by_average Binary64.sum {[ 0%nat := stats_frame same_count ]} 0%nat
           same_count 1000 0%nat 1%nat (Stats.mk 1 7 (Float.Fin 2))
           (Stats.mk 2 7 (Float.Fin 4)) 2%Q 4%Q 3%Q).
  - apply lookup_singleton_eq.
  - reflexivity.
  - reflexivity.
  - reflexivity.
  - reflexivity.
  - vm_compute. reflexivity.
  - lia.
  - simpl. lia.
  - simpl. lia.
  - reflexivity.
  - vm_compute. discriminate.
  - vm_compute. discriminate.
  - vm_compute. discriminate.
  - vm_compute. discriminate.
  - vm_compute. discriminate.
Defined.

(** X13: ranking by count.  In one table scored by the machine (any
    [m > 0] with [rating_count + m] below [2 ^ 53]), of two movies with the
    same average on the rating scale the one with more ratings has the
    score farther from the mean [C] on the side of the average, up to the
    tolerance [1e-9]: not lower by more than the tolerance when the average
    is at least [C], not higher by more than the tolerance when it is at
    most [C].  (Without the tolerance the order can be the reverse, by one
    rounding.) *)
Theorem ranking_by_count (total : list float -> float) (h : heap) (p : ref)
    (rows : list Stats.t) (m : Z) (i j : nat) (r1 r2 : Stats.t) (a c : Q) :
  h !! p = Some (stats_frame rows) ->
  rows !! i = Some r1 ->
  rows !! j = Some r2 ->
  Stats.avg_rating r1 = Float.Fin a ->
  Stats.avg_rating r2 = Float.Fin a ->
  Rounded.series_mean total (FloatCol (map Stats.avg_rating rows)) = Float.Fin c ->
  (Qabs a <= 5)%Q ->
  (Qabs c <= 5)%Q ->
  0 < m ->
  0 <= Stats.rating_count r1 ->
  Stats.rating_count r1 <= Stats.rating_count r2 ->
  Stats.rating_count r2 + m < 2 ^ 53 ->
  exists (ws : list float) (w1 w2 : Q),
    Rounded.bayesian_weighted total p m h
      = (Returns p, <[p := <["weighted_rating" := FloatCol ws]> (stats_frame rows)]> h)
    /\ ws !! i = Some (Float.Fin w1)
    /\ ws !! j = Some (Float.Fin w2)
    /\ ((c <= a)%Q -> (w1 - tolerance <= w2)%Q)
    /\ ((a <= c)%Q -> (w2 <= w1 + tolerance)%Q).
Proof.
  intros Hp Hi Hj Ha1 Ha2 HC Hab Hcb Hm Hn Hle Hsum.
  destruct (weigh_rounded_error m (Stats.rating_count r1) a c Hm Hn ltac:(lia) Hab Hcb)
    as (w1 & E1 & Herr1).
  destruct (weigh_rounded_error m (Stats.rating_count r2) a c Hm ltac:(lia) Hsum Hab Hcb)
    as (w2 & E2 & Herr2).
  eexists _, w1, w2. split; [apply (rounded_run total h p rows m Hp)|].
  change (map ?f rows) with (f <$> rows).
  rewrite !list_lookup_fmap, Hi, Hj. cbn [fmap option_fmap option_map].
  rewrite HC, Ha1, Ha2, E1, E2.
  do 2 (split; [reflexivity|]).
  pose proof (shrink_mono_count m _ _ a c Hm Hn Hle) as [Hup Hdown].
  pose proof tolerance_covers as Htol.
  apply Qabs_bounds in Herr1 as [? ?]. apply Qabs_bounds in Herr2 as [? ?].
  split; intros Hac; [specialize (Hup Hac) | specialize (Hdown Hac)]; lra.
Qed.

Lemma ranking_by_count_witness :
  exists (ws : list float) (w1 w2 : Q),
    Rounded.bayesian_weighted Binary64.sum 0 1000 {[ 0%nat := stats_frame same_average ]}
      = (Returns 0%nat,
         <[0%nat := <["weighted_rating" := FloatCol ws]> (stats_frame same_average)]>
           {[ 0%nat := stats_frame same_average ]})
    /\ ws !! 0%nat = Some (Float.Fin w1)
    /\ ws !! 1%nat = Some (Float.Fin w2)
    /\ ((3 <= 4)%Q -> (w1 - tolerance <= w2)%Q)
    /\ ((4 <= 3)%Q -> (w2 <= w1 + tolerance)%Q).
Proof.
  apply (ranking_by_count Binary64.sum {[ 0%nat := stats_frame same_average ]} 0%nat
           same_average 1000 0%nat 1%nat (Stats.mk 1 3 (Float.Fin 4))
           (Stats.mk 2 90 (Float.Fin 4)) 4%Q 3%Q).
  - apply lookup_singleton_eq.
  - reflexivity.
  - reflexivity.
  - reflexivity.
  - reflexivity.
  - vm_compute. reflexivity.
  - vm_compute. discriminate.
  - vm_compute. discriminate.
  - lia.
  - simpl. lia.
  - simpl. lia.
  - simpl. lia.
Defined.

End MoreScorer.

(** ** The batch run and the database it leaves *)

Section MoreCatalog.

Import BuildDb.

(** X14: the missing files of [main()].  It raises [FileNotFoundError]
    exactly when one of its three input files is missing, and it does so
    before anything is computed: the store is untouched. *)
Theorem main_outcome (files : Files) (h : heap) :
  ((exists h', main files h = (Raises FileNotFoundError, h'))
   <-> ratings_csv files = None \/ movies_csv files = None
       \/ schema_sql files = None)
  /\ (ratings_csv files = None \/ movies_csv files = None
      \/ schema_sql files = None ->
      main files h = (Raises FileNotFoundError, h)).
Proof.
  assert (Hmiss : ratings_csv files = None \/ movies_csv files = None
                  \/ schema_sql files = None ->
                  main files h = (Raises FileNotFoundError, h)).
  { destruct files as [[ratings|] [meta|] [[]|]];
      cbn [ratings_csv movies_csv schema_sql]; intros H; try reflexivity.
    destruct H as [H|[H|H]]; discriminate H. }
  split; [|exact Hmiss]. split; [|eauto].
  intros (h' & Hrun).
  destruct files as [[ratings|] [meta|] [[]|]];
    cbn [ratings_csv movies_csv schema_sql]; auto.
  destruct (main_run ratings meta h) as (h'' & Hrun'').
  rewrite Hrun'' in Hrun. discriminate Hrun.
Qed.

Lemma drop_duplicates_movieId_sublist (seen : list Z) (meta : list Movie.t) :
  drop_duplicates_movieId_from seen meta `sublist_of` meta.
Proof.
  revert seen. induction meta as [|mv meta IH]; intros seen; simpl; [constructor|].
  destruct (existsb (Z.eqb (Movie.movieId mv)) seen);
    [apply sublist_cons | apply sublist_skip]; apply IH.
Qed.

Lemma existsb_eqb_In (k : Z) (seen : list Z) :
  existsb (Z.eqb k) seen = true <-> In k seen.
Proof.
  rewrite existsb_exists. split.
  - intros (x & Hx & E). apply Z.eqb_eq in E. now subst.
  - intros H. exists k. split; [exact H | apply Z.eqb_refl].
Qed.

Lemma drop_duplicates_movieId_fresh (seen : list Z) (meta : list Movie.t)
    (mv : Movie.t) :
  In mv (drop_duplicates_movieId_from seen meta) -> ~ In (Movie.movieId mv) seen.
Proof.
  revert seen. induction meta as [|x meta IH]; intros seen; simpl; [tauto|].
  destruct (existsb (Z.eqb (Movie.movieId x)) seen) eqn:E.
  - apply IH.
  - intros [<-|Hin].
    + intros Hseen. apply existsb_eqb_In in Hseen. congruence.
    + intros Hseen. apply (IH _ Hin). now right.
Qed.

Lemma drop_duplicates_movieId_NoDup (seen : list Z) (meta : list Movie.t) :
  List.NoDup (map Movie.movieId (drop_duplicates_movieId_from seen meta)).
Proof.
  revert seen. induction meta as [|x meta IH]; intros seen; simpl; [constructor|].
  destruct (existsb (Z.eqb (Movie.movieId x)) seen); [apply IH|].
  simpl. constructor; [|apply IH].
  intros Hin. apply in_map_iff in Hin as (y & Hy & Hin).
  apply drop_duplicates_movieId_fresh in Hin. apply Hin. left. congruence.
Qed.

Lemma drop_duplicates_movieId_find (k : Z) (seen : list Z) (meta : list Movie.t) :
  find (fun mv => Movie.movieId mv =? k) (drop_duplicates_movieId_from seen meta)
  = if existsb (Z.eqb k) seen then None
    else find (fun mv => Movie.movieId mv =? k) meta.
Proof.
  revert seen. induction meta as [|x meta IH]; intros seen; simpl.
  - now destruct (existsb (Z.eqb k) seen).
  - destruct (existsb (Z.eqb (Movie.movieId x)) seen) eqn:E.
    + rewrite IH. destruct (existsb (Z.eqb k) seen) eqn:Ek; [reflexivity|].
      destruct (Z.eqb_spec (Movie.movieId x) k) as [Hk|_]; [|reflexivity].
      rewrite Hk in E. congruence.
    + simpl. rewrite IH. cbn [existsb].
      destruct (Z.eqb_spec (Movie.movieId x) k) as [Hk|Hk].
      * rewrite <- Hk, E. reflexivity.
      * destruct (Z.eqb_spec k (Movie.movieId x)) as [Hk'|_]; [congruence|].
        reflexivity.
Qed.

(** X15: first-seen wins.  [drop_duplicates("movieId")] keeps a subsequence
    of the metadata in which no identifier occurs twice, and for every
    identifier the row it keeps is the first row of the input with that
    identifier. *)
Theorem movies_first_seen (meta : list Movie.t) :
  drop_duplicates_movieId meta `sublist_of` meta
  /\ List.NoDup (map Movie.movieId (drop_duplicates_movieId meta))
  /\ (forall k : Z,
        find (fun mv => Movie.movieId mv =? k) (drop_duplicates_movieId meta)
        = find (fun mv => Movie.movieId mv =? k) meta).
Proof.
  unfold drop_duplicates_movieId.
  split; [apply drop_duplicates_movieId_sublist|].
  split; [apply drop_duplicates_movieId_NoDup|].
  intros k. now rewrite drop_duplicates_movieId_find.
Qed.

Lemma sorted_lt_NoDup (ks : list Z) : StronglySorted Z.lt ks -> List.NoDup ks.
Proof.
  induction 1 as [|k ks Hs IH Hall]; constructor; [|exact IH].
  intros Hin. rewrite List.Forall_forall in Hall. specialize (Hall k Hin). lia.
Qed.

Lemma filter_none {A} (p : A -> bool) (L : list A) :
  (forall x, In x L -> p x = false) -> List.filter p L = [].
Proof.
  induction L as [|x L IH]; intros H; [reflexivity|].
  cbn [List.filter]. rewrite (H x (or_introl eq_refl)).
  apply IH. intros y Hy. apply H. now right.
Qed.

Lemma filter_unique_key {A} (key : A -> Z) (L : list A) (x : A) :
  List.NoDup (map key L) -> In x L ->
  List.filter (fun y => key y =? key x) L = [x].
Proof.
  induction L as [|y L IH]; intros Hnd Hin; [destruct Hin|].
  cbn [map] in Hnd. apply List.NoDup_cons_iff in Hnd as [Hy Hnd].
  cbn [List.filter]. destruct Hin as [->|Hin].
  - rewrite Z.eqb_refl. f_equal. apply filter_none.
    intros z Hz. apply Z.eqb_neq. intros E. apply Hy.
    rewrite <- E. now apply in_map.
  - destruct (Z.eqb_spec (key y) (key x)) as [E|_]; [|now apply IH].
    exfalso. apply Hy. rewrite E. now apply in_map.
Qed.

Lemma sql_eq_of_Z (a b : Z) : Sql.eq (Float.of_Z a) (Float.of_Z b) = (a =? b).
Proof.
  unfold Sql.eq, Float.of_Z. cbn [Float.isna Float.same negb andb].
  unfold Qeq_bool. cbn [Qnum Qden inject_Z]. now rewrite !Z.mul_1_r.
Qed.

Lemma filter_map_comm {A B} (f : A -> B) (p : B -> bool) (L : list A) :
  List.filter p (map f L) = map f (List.filter (fun x => p (f x)) L).
Proof.
  induction L as [|x L IH]; [reflexivity|].
  cbn [map List.filter]. destruct (p (f x)); cbn [map]; now rewrite IH.
Qed.

Lemma merged_row_id (meta : list Movie.t) (s : Scored.t) :
  Entry.movieId (merged_row meta s) = Scored.movieId s.
Proof. unfold merged_row. now destruct (find (matches s) meta). Qed.

Lemma merged_row_scores (meta : list Movie.t) (s : Scored.t) :
  Entry.rating_count (merged_row meta s) = Scored.rating_count s
  /\ Entry.avg_rating (merged_row meta s) = Scored.avg_rating s
  /\ Entry.weighted_rating (merged_row meta s) = Scored.weighted_rating s.
Proof. unfold merged_row. now destruct (find (matches s) meta). Qed.

(** The join of the two tables written from entries with distinct integer
    identifiers: each entry, once. *)
Lemma join_of_keyed {A} (key : A -> Z) (ent : A -> Entry.t) (L : list A) :
  (forall x, Entry.movieId (ent x) = Float.of_Z (key x)) ->
  List.NoDup (map key L) ->
  App.join (mkDatabase (movies_table (map ent L)) (movie_scores_table (map ent L)))
  = map (fun x => item_of (ent x)) L.
Proof.
  intros Hkey Hnd. unfold App.join, movies_table, movie_scores_table.
  cbn [movies movie_scores]. rewrite !map_map.
  assert (H : forall L', incl L' L ->
            flat_map
              (fun s =>
                 map (fun m =>
                        Item.mk (MovieRow.movieId m) (MovieRow.title m)
                                (MovieRow.genres m) (Scored.rating_count s)
                                (Scored.avg_rating s) (Scored.weighted_rating s))
                     (List.filter
                        (fun m => Sql.eq (MovieRow.movieId m) (Scored.movieId s))
                        (map (fun x => MovieRow.mk (Entry.movieId (ent x))
                                         (Entry.title (ent x)) (Entry.genres (ent x)))
                             L)))
              (map (fun x => Scored.mk (Entry.movieId (ent x))
                                (Entry.rating_count (ent x)) (Entry.avg_rating (ent x))
                                (Entry.weighted_rating (ent x)))
                   L')
            = map (fun x => item_of (ent x)) L').
  { induction L' as [|x L' IH]; intros Hincl; [reflexivity|].
    cbn [map flat_map]. rewrite IH by (intros y Hy; apply Hincl; now right).
    cbn [Scored.movieId Scored.rating_count Scored.avg_rating Scored.weighted_rating].
    rewrite filter_map_comm. cbn [MovieRow.movieId].
    rewrite (filter_ext _ (fun y => key y =? key x))
      by (intros y; now rewrite !Hkey, sql_eq_of_Z).
    rewrite (filter_unique_key key L x Hnd) by (apply Hincl; now left).
    reflexivity. }
  apply H, incl_refl.
Qed.

(** X16: the database [main()] writes, seen from the read path.  The
    identifiers of the scored movies are distinct, so the join of
    [movie_scores] with [movies] that the recommendation query runs has
    exactly one row per scored movie, in the order of the statistics, with
    the title and genres [main()] stored for it: no movie is lost or
    repeated by the join. *)
Theorem built_database_join (ratings : list Rating.t) (meta : list Movie.t)
    (h : heap) :
  exists (db : Database) (h' : heap),
    main (mkFiles (Some ratings) (Some meta) (Some tt)) h = (Returns db, h')
    /\ App.join db = map item_of (map (merged_row meta) (pipeline_scores ratings))
    /\ length (App.join db) = length (movie_scores db)
    /\ List.NoDup (map Stats.movieId (movie_stats_rows (clean_ratings ratings))).
Proof.
  destruct (main_run ratings meta h) as (h' & Hrun).
  eexists _, h'. split; [exact Hrun|].
  assert (Hnd : List.NoDup (map Stats.movieId (movie_stats_rows (clean_ratings ratings))))
    by (rewrite movie_stats_ids; apply sorted_lt_NoDup, group_keys_sorted).
  assert (Hjoin : App.join
                    (mkDatabase
                       (movies_table (map (merged_row meta) (pipeline_scores ratings)))
                       (movie_scores_table
                          (map (merged_row meta) (pipeline_scores ratings))))
                  = map item_of (map (merged_row meta) (pipeline_scores ratings))).
  { unfold pipeline_scores, scored_rows.
    rewrite (map_map _ (merged_row meta)).
    match goal with
    | |- context [movies_table (map ?f _)] => set (ent := f)
    end.
    rewrite (map_map ent item_of).
    apply (join_of_keyed Stats.movieId ent); [|exact Hnd].
    intros r. unfold ent. now rewrite merged_row_id. }
  split; [exact Hjoin|]. split; [|exact Hnd].
  rewrite Hjoin. cbn [movie_scores]. unfold movie_scores_table.
  now rewrite !length_map.
Qed.

End MoreCatalog.

(** ** The request handlers *)

Section MoreQueries.

Import App.

Lemma limit_sublist {A} (k : Z) (rows : list A) : Sql.limit k rows `sublist_of` rows.
Proof.
  unfold Sql.limit. destruct (k <? 0); [reflexivity|].
  change (firstn ?n rows) with (take n rows). apply sublist_take.
Qed.

Lemma limit_all {A} (k : Z) (rows : list A) :
  k < 0 \/ (length (Sql.limit k rows) < Z.to_nat k)%nat -> Sql.limit k rows = rows.
Proof.
  unfold Sql.limit. destruct (Z.ltb_spec k 0) as [?|?]; [reflexivity|].
  intros [?|Hlen]; [lia|].
  rewrite length_firstn in Hlen. apply firstn_all2. lia.
Qed.

(** X17: the result of a title search.  For a query of at most 80
    characters and a [limit] within the 64-bit range, on a built database,
    the handler returns rows of [movies] in table order (a subsequence of
    the table); each has a title that is not NULL and that matches the
    pattern [%query%], title and pattern being read up to their first NUL;
    at most [limit] rows come back when [limit >= 0]; and when fewer than
    [limit] come back, or [limit] is negative, every matching row is among
    them. *)
Theorem titles_result (db : Database) (query : string) (limit : Z) :
  (String.length query <= 80)%nat ->
  Int64.fits limit = true ->
  let pattern := Str.c_str ("%" ++ Str.strip query ++ "%")%string in
  exists rows : list MovieRow.t,
    titles (Some db) query limit = Returns (mkTitles rows)
    /\ rows `sublist_of` movies db
    /\ (forall m, In m rows ->
          exists t, MovieRow.title m = Some t
                    /\ Str.like pattern (Str.c_str t) = true)
    /\ (0 <= limit -> (length rows <= Z.to_nat limit)%nat)
    /\ (limit < 0 \/ (length rows < Z.to_nat limit)%nat ->
        forall m t, In m (movies db) -> MovieRow.title m = Some t ->
          Str.like pattern (Str.c_str t) = true -> In m rows).
Proof.
  intros Hlen Hfit pattern. eexists.
  split; [apply (titles_run db query limit Hlen Hfit)|].
  set (q := ("%" ++ Str.strip query ++ "%")%string) in *.
  set (matching := List.filter (fun m => Sql.like (MovieRow.title m) q) (movies db)).
  split; [etrans; [apply limit_sublist | apply filter_sublist]|].
  split.
  { intros m Hm. apply limit_In in Hm. apply filter_In in Hm as [_ Hm].
    unfold Sql.like in Hm. destruct (MovieRow.title m) as [t|]; [|discriminate].
    now exists t. }
  split.
  { intros Hk. unfold Sql.limit. destruct (Z.ltb_spec limit 0); [lia|].
    apply firstn_le_length. }
  intros Hall m t Hm Ht Hlike. rewrite (limit_all limit matching Hall).
  apply filter_In. split; [exact Hm|]. unfold Sql.like. now rewrite Ht.
Qed.

Lemma titles_result_witness :
  let pattern := Str.c_str ("%" ++ Str.strip "heat" ++ "%")%string in
  exists rows : list MovieRow.t,
    titles (Some four_titles) "heat" 5 = Returns (mkTitles rows)
    /\ rows `sublist_of` movies four_titles
    /\ (forall m, In m rows ->
          exists t, MovieRow.title m = Some t
                    /\ Str.like pattern (Str.c_str t) = true)
    /\ (0 <= 5 -> (length rows <= Z.to_nat 5)%nat)
    /\ (5 < 0 \/ (length rows < Z.to_nat 5)%nat ->
        forall m t, In m (movies four_titles) -> MovieRow.title m = Some t ->
          Str.like pattern (Str.c_str t) = true -> In m rows).
Proof.
  apply (titles_result four_titles "heat" 5); [simpl; lia | reflexivity].
Defined.

(** X18: errors of the two handlers.  A query longer than 80 characters is
    rejected by validation whether or not the database exists; otherwise,
    when the database file has not been built, [titles] and
    [recommendations] raise [FileNotFoundError] for every argument; on a
    built database each of them returns when its integer arguments fit in
    64 bits and raises [OverflowError] when one does not. *)
Theorem handler_errors (query mood : string) (limit k min_count : Z)
    (db_file : option Database) :
  ((80 < String.length query)%nat ->
   titles db_file query limit = Raises RequestValidationError)
  /\ ((String.length query <= 80)%nat ->
      titles None query limit = Raises FileNotFoundError)
  /\ recommendations None mood k min_count = Raises FileNotFoundError
  /\ (forall db, (String.length query <= 80)%nat ->
        if Int64.fits limit
        then exists resp, titles (Some db) query limit = Returns resp
        else titles (Some db) query limit = Raises OverflowError)
  /\ (forall db,
        if Int64.fits k && Int64.fits min_count
        then exists resp, recommendations (Some db) mood k min_count = Returns resp
        else recommendations (Some db) mood k min_count = Raises OverflowError).
Proof.
  split; [|split; [|split; [|split]]].
  - intros H. unfold titles.
    now destruct (Nat.ltb_spec 80 (String.length query)) as [_|?]; [|lia].
  - intros H. unfold titles.
    now destruct (Nat.ltb_spec 80 (String.length query)) as [?|_]; [lia|].
  - reflexivity.
  - intros db H. destruct (Int64.fits limit) eqn:E.
    + eexists. now apply titles_run.
    + unfold titles.
      destruct (Nat.ltb_spec 80 (String.length query)) as [?|_]; [lia|].
      cbn [get_conn]. now rewrite E.
  - intros db. destruct (Int64.fits k) eqn:Ek, (Int64.fits min_count) eqn:Em;
      cbn [andb];
      [eexists; now apply recommendations_run | | |];
      unfold recommendations; cbn [get_conn]; now rewrite Ek, Em.
Qed.

(** X19: where the items come from.  When the request returns ([k] and
    [min_count] within the 64-bit range), every item pairs a row of
    [movie_scores] with a row of [movies] that has the same identifier, not
    NULL: a scored movie without a [movies] row, or a movie without a
    score, is never recommended. *)
Theorem items_from_both_tables (db : Database) (mood : string) (k min_count : Z) :
  Int64.fits k = true ->
  Int64.fits min_count = true ->
  exists resp : Recommendations,
    recommendations (Some db) mood k min_count = Returns resp
    /\ forall it, In it (items resp) ->
         exists (s : Scored.t) (m : MovieRow.t),
           In s (movie_scores db) /\ In m (movies db)
           /\ Sql.eq (MovieRow.movieId m) (Scored.movieId s) = true
           /\ Float.isna (Item.movieId it) = false
           /\ it = Item.mk (MovieRow.movieId m) (MovieRow.title m) (MovieRow.genres m)
                           (Scored.rating_count s) (Scored.avg_rating s)
                           (Scored.weighted_rating s).
Proof.
  intros Hk Hmin. eexists.
  split; [apply (recommendations_run db mood k min_count Hk Hmin)|]. cbn [items].
  intros it Hit. apply limit_In in Hit.
  apply (Permutation_in _ (order_by_perm _)) in Hit.
  apply filter_In in Hit as [Hit _]. unfold join in Hit.
  apply in_flat_map in Hit as (s & Hs & Hit).
  apply in_map_iff in Hit as (m & <- & Hm).
  apply filter_In in Hm as [Hm Heq].
  exists s, m. repeat split; try assumption.
  cbn [Item.movieId]. unfold Sql.eq in Heq.
  destruct (Float.isna (MovieRow.movieId m)); [discriminate | reflexivity].
Qed.

Lemma items_from_both_tables_witness :
  exists resp : Recommendations,
    recommendations (Some ten_movies) "melancholy" 3 50 = Returns resp
    /\ forall it, In it (items resp) ->
         exists (s : Scored.t) (m : MovieRow.t),
           In s (movie_scores ten_movies) /\ In m (movies ten_movies)
           /\ Sql.eq (MovieRow.movieId m) (Scored.movieId s) = true
           /\ Float.isna (Item.movieId it) = false
           /\ it = Item.mk (MovieRow.movieId m) (MovieRow.title m) (MovieRow.genres m)
                           (Scored.rating_count s) (Scored.avg_rating s)
                           (Scored.weighted_rating s).
Proof.
  apply (items_from_both_tables ten_movies "melancholy" 3 50); reflexivity.
Defined.

Local Open Scope string_scope.

Lemma append_nil (s : string) : "" ++ s = s.
Proof. reflexivity. Qed.

Lemma append_cons (c : ascii) (s t : string) : String c s ++ t = String c (s ++ t).
Proof. reflexivity. Qed.

Lemma like_star_unfold (P t : string) :
  Str.like (String "%" P) t
  = Str.like P t
    || match t with
       | EmptyString => false
       | String _ t' => Str.like (String "%" P) t'
       end.
Proof. destruct t; reflexivity. Qed.

(** [%P] matches [t] when [P] matches a suffix of [t]. *)
Lemma like_star (P t : string) :
  Str.like (String "%" P) t = true
  <-> exists pre rest, t = pre ++ rest /\ Str.like P rest = true.
Proof.
  induction t as [|c t IH]; rewrite like_star_unfold.
  - rewrite orb_false_r. split.
    + intros H. exists "", "". now rewrite append_nil.
    + intros (pre & rest & E & H).
      destruct pre; [rewrite append_nil in E; now subst | discriminate].
  - split.
    + intros H. apply orb_prop in H as [H|H].
      * exists "", (String c t). now rewrite append_nil.
      * apply IH in H as (pre & rest & -> & H).
        exists (String c pre), rest. now rewrite append_cons.
    + intros (pre & rest & E & H). destruct pre as [|d pre].
      * rewrite append_nil in E. subst rest. now rewrite H.
      * rewrite append_cons in E. injection E as -> ->.
        apply orb_true_intro. right. apply IH. now exists pre, rest.
Qed.

(** A pattern that starts with plain characters matches a text that starts
    with the same characters up to ASCII case. *)
Lemma like_plain (g P t : string) :
  no_wildcard g = true ->
  (Str.like (g ++ P) t = true
   <-> exists mid rest, t = mid ++ rest /\ same_nocase g mid = true
                        /\ Str.like P rest = true).
Proof.
  revert t. induction g as [|c g IH]; intros t Hg.
  - rewrite append_nil. split.
    + intros H. exists "", t. now rewrite append_nil.
    + intros (mid & rest & -> & Hmid & H).
      destruct mid; [now rewrite append_nil | destruct mid; discriminate].
  - cbn [no_wildcard] in Hg. apply andb_prop in Hg as [Hc Hg].
    apply andb_prop in Hc as [Hpct Hund].
    apply negb_true_iff in Hpct, Hund.
    rewrite append_cons. cbn [Str.like]. rewrite Hpct, Hund.
    destruct t as [|d t].
    + split; [discriminate|].
      intros (mid & rest & E & Hmid & _). destruct mid; discriminate.
    + split.
      * intros H. apply andb_prop in H as [Hcd H].
        apply (IH t Hg) in H as (mid & rest & -> & Hmid & H).
        exists (String d mid), rest. rewrite append_cons.
        cbn [same_nocase]. now rewrite Hcd, Hmid.
      * intros (mid & rest & E & Hmid & H). destruct mid as [|d' mid]; [discriminate|].
        rewrite append_cons in E. injection E as -> ->.
        cbn [same_nocase] in Hmid. apply andb_prop in Hmid as [Hcd Hmid].
        rewrite Hcd. apply (IH _ Hg). now exists mid, rest.
Qed.

Lemma like_contains (g text : string) :
  no_wildcard g = true ->
  (Str.like ("%" ++ g ++ "%") text = true <-> contains_nocase g text).
Proof.
  intros Hg. change ("%" ++ g ++ "%") with (String "%" (g ++ "%")).
  rewrite like_star. unfold contains_nocase. split.
  - intros (pre & rest & -> & H).
    apply (like_plain g "%" rest Hg) in H as (mid & suf & -> & Hmid & _).
    now exists pre, mid, suf.
  - intros (pre & mid & suf & -> & Hmid).
    exists pre, (mid ++ suf). split; [reflexivity|].
    apply (like_plain g "%" _ Hg). exists mid, suf.
    split; [reflexivity|]. split; [exact Hmid | apply like_percent].
Qed.

Lemma mood_table_plain (key : string) (gs : list string) :
  MOOD_TO_GENRES !! key = Some gs -> forallb no_wildcard gs = true.
Proof.
  intros E. unfold MOOD_TO_GENRES in E.
  apply elem_of_list_to_map_2, list_elem_of_In in E.
  repeat (destruct E as [E|E]; [injection E as <- <-; reflexivity|]).
  destruct E.
Qed.

Lemma resolved_genres_plain (mood g : string) :
  In g (resolved_genres mood) -> no_wildcard g = true.
Proof.
  unfold resolved_genres.
  destruct (MOOD_TO_GENRES !! Str.strip (Str.lower mood)) as [gs|] eqn:E;
    cbn [default]; [|intros []].
  pose proof (mood_table_plain _ _ E) as H.
  rewrite forallb_forall in H. apply H.
Qed.

(** The patterns built from the table of moods hold no NUL. *)
Lemma mood_table_pattern (key : string) (gs : list string) (g : string) :
  MOOD_TO_GENRES !! key = Some gs -> In g gs ->
  Str.c_str ("%" ++ g ++ "%") = "%" ++ g ++ "%".
Proof.
  intros E. unfold MOOD_TO_GENRES in E.
  apply elem_of_list_to_map_2, list_elem_of_In in E.
  repeat (destruct E as [E|E];
          [injection E as <- <-; intros Hg;
           repeat (destruct Hg as [<-|Hg]; [reflexivity|]); destruct Hg|]).
  destruct E.
Qed.

Lemma resolved_genres_pattern (mood g : string) :
  In g (resolved_genres mood) ->
  Str.c_str ("%" ++ g ++ "%") = "%" ++ g ++ "%".
Proof.
  unfold resolved_genres.
  destruct (MOOD_TO_GENRES !! Str.strip (Str.lower mood)) as [gs|] eqn:E;
    cbn [default]; [|intros []].
  exact (mood_table_pattern _ _ g E).
Qed.

Local Close Scope string_scope.

(** X20: the genre filter is a substring test.  A joined row is eligible
    for a request exactly when its count is at least [min_count] and, if
    the mood resolves to genres, its [genres] cell is not NULL and, read up
    to its first NUL, contains one of them as a substring, letter case of
    ASCII letters aside (so ["Dramatic-Fiction"] counts as ["Drama"]). *)
Theorem genre_filter_is_substring (mood : string) (min_count : Z) (r : Item.t) :
  eligible min_count (resolved_genres mood) r = true
  <-> Sql.ge (Item.rating_count r) (Float.of_Z min_count) = true
      /\ (resolved_genres mood = []
          \/ exists g text, In g (resolved_genres mood)
                             /\ Item.genres r = Some text
                             /\ contains_nocase g (Str.c_str text)).
Proof.
  unfold eligible. rewrite andb_true_iff.
  apply and_iff_compat_l.
  pose proof (resolved_genres_plain mood) as Hplain.
  pose proof (resolved_genres_pattern mood) as Hpat.
  destruct (resolved_genres mood) as [|g0 gs] eqn:E.
  - split; [now left | reflexivity].
  - rewrite existsb_exists. split.
    + intros (g & Hg & Hlike). right. unfold Sql.like in Hlike.
      destruct (Item.genres r) as [text|]; [|discriminate].
      exists g, text. split; [exact Hg|]. split; [reflexivity|].
      rewrite (Hpat g Hg) in Hlike.
      now apply like_contains; [apply Hplain|].
    + intros [H|(g & text & Hg & Ht & Hc)]; [discriminate|].
      exists g. split; [exact Hg|]. unfold Sql.like. rewrite Ht, (Hpat g Hg).
      now apply like_contains; [apply Hplain|].
Qed.

Local Open Scope string_scope.

Lemma lower_char_space (c : ascii) : Str.is_space c = true -> Str.lower_char c = c.
Proof.
  destruct c as [[] [] [] [] [] [] [] []]; intros H; vm_compute in H |- *;
    congruence.
Qed.

Lemma lower_char_idem (c : ascii) :
  Str.lower_char (Str.lower_char c) = Str.lower_char c.
Proof. destruct c as [[] [] [] [] [] [] [] []]; reflexivity. Qed.

Lemma lower_idem (s : string) : Str.lower (Str.lower s) = Str.lower s.
Proof.
  induction s as [|c s IH]; [reflexivity|].
  cbn [Str.lower]. now rewrite lower_char_idem, IH.
Qed.

Lemma lower_append (s t : string) : Str.lower (s ++ t) = Str.lower s ++ Str.lower t.
Proof.
  induction s as [|c s IH]; [reflexivity|].
  rewrite append_cons. cbn [Str.lower]. now rewrite IH, append_cons.
Qed.

Lemma lower_blank (s : string) : blank s = true -> Str.lower s = s.
Proof.
  induction s as [|c s IH]; [reflexivity|]. cbn [blank Str.lower].
  intros H. apply andb_prop in H as [Hc Hs].
  now rewrite (lower_char_space c Hc), (IH Hs).
Qed.

Lemma lstrip_append_blank (pre t : string) :
  blank pre = true -> Str.lstrip (pre ++ t) = Str.lstrip t.
Proof.
  induction pre as [|c pre IH]; [reflexivity|]. cbn [blank].
  intros H. apply andb_prop in H as [Hc Hpre].
  rewrite append_cons. cbn [Str.lstrip]. rewrite Hc. now apply IH.
Qed.

Lemma rstrip_blank (s : string) : blank s = true -> Str.rstrip s = "".
Proof.
  induction s as [|c s IH]; [reflexivity|]. cbn [blank Str.rstrip].
  intros H. apply andb_prop in H as [Hc Hs]. now rewrite (IH Hs), Hc.
Qed.

Lemma rstrip_append_blank (t post : string) :
  blank post = true -> Str.rstrip (t ++ post) = Str.rstrip t.
Proof.
  intros Hpost. induction t as [|c t IH].
  - rewrite append_nil. now apply rstrip_blank.
  - rewrite append_cons. cbn [Str.rstrip]. now rewrite IH.
Qed.

Lemma lstrip_append (t post : string) :
  blank post = true ->
  Str.lstrip (t ++ post) = if blank t then "" else Str.lstrip t ++ post.
Proof.
  intros Hpost. induction t as [|c t IH].
  - rewrite append_nil. cbn [blank]. now apply lstrip_blank.
  - rewrite append_cons. cbn [Str.lstrip blank].
    destruct (Str.is_space c); [exact IH | now rewrite append_cons].
Qed.

Lemma strip_append_blank (pre t post : string) :
  blank pre = true -> blank post = true ->
  Str.strip (pre ++ t ++ post) = Str.strip t.
Proof.
  intros Hpre Hpost. unfold Str.strip.
  rewrite (lstrip_append_blank pre _ Hpre), (lstrip_append t post Hpost).
  destruct (blank t) eqn:E.
  - now rewrite (lstrip_blank t E).
  - now apply rstrip_append_blank.
Qed.

Local Close Scope string_scope.

(** X21: the mood is trimmed and case-folded before the lookup.  Whitespace
    around the mood and upper-case letters in it change nothing: the
    request gives the same response (same echoed mood, same genres, same
    items) as the request with the bare lower-case mood. *)
Theorem mood_is_normalised (db_file : option Database) (mood pre post : string)
    (k min_count : Z) :
  blank pre = true ->
  blank post = true ->
  recommendations db_file (pre ++ mood ++ post)%string k min_count
    = recommendations db_file mood k min_count
  /\ recommendations db_file (Str.lower mood) k min_count
     = recommendations db_file mood k min_count.
Proof.
  intros Hpre Hpost. unfold recommendations.
  rewrite !lower_append, (lower_blank pre Hpre), (lower_blank post Hpost),
    (strip_append_blank pre _ post Hpre Hpost), lower_idem.
  split; reflexivity.
Qed.

Lemma mood_is_normalised_witness :
  recommendations (Some four_titles) ("  " ++ "Intense" ++ " ")%string 20 50
    = recommendations (Some four_titles) "Intense" 20 50
  /\ recommendations (Some four_titles) (Str.lower "Intense") 20 50
     = recommendations (Some four_titles) "Intense" 20 50.
Proof.
  apply (mood_is_normalised (Some four_titles) "Intense" "  " " " 20 50);
    reflexivity.
Defined.

End MoreQueries.

(** ** Sorting *)

Section StableSortFacts.

Variable A : Type.
Variable before : A -> A -> bool.

Hypothesis before_total : forall x y, before x y = false -> before y x = true.
Hypothesis before_trans :
  forall x y z, before x y = true -> before y z = true -> before x z = true.

Lemma insert_by_perm (x : A) (sorted : list A) :
  Permutation (insert_by before x sorted) (x :: sorted).
Proof.
  induction sorted as [|y rest IH]; simpl; [reflexivity|].
  destruct (before x y); [reflexivity|].
  rewrite IH. apply perm_swap.
Qed.

Lemma sort_by_perm (rows : list A) : Permutation (sort_by before rows) rows.
Proof.
  induction rows as [|x rows IH]; simpl; [reflexivity|].
  rewrite insert_by_perm. now constructor.
Qed.

Lemma insert_by_sorted (x : A) (sorted : list A) :
  StronglySorted (fun a b => before a b = true) sorted ->
  StronglySorted (fun a b => before a b = true) (insert_by before x sorted).
Proof.
  induction sorted as [|y rest IH]; intros Hs; simpl.
  - constructor; constructor.
  - apply StronglySorted_inv in Hs as [Hrest Hy].
    destruct (before x y) eqn:E.
    + constructor; [constructor; assumption|].
      constructor; [exact E|].
      rewrite List.Forall_forall in *. intros z Hz.
      exact (before_trans _ _ _ E (Hy z Hz)).
    + constructor; [now apply IH|].
      apply (Permutation_Forall (Permutation_sym (insert_by_perm x rest))).
      constructor; [now apply before_total | exact Hy].
Qed.

Lemma sort_by_sorted (rows : list A) :
  StronglySorted (fun a b => before a b = true) (sort_by before rows).
Proof.
  induction rows as [|x rows IH]; simpl; [constructor | now apply insert_by_sorted].
Qed.

End StableSortFacts.

Section SortedPrefix.

Variable A : Type.
Variable R : A -> A -> Prop.

Lemma sorted_firstn (n : nat) (l : list A) :
  StronglySorted R l -> StronglySorted R (firstn n l).
Proof.
  revert n. induction l as [|x l IH]; intros [|n] Hs; simpl; try constructor.
  - apply IH. now apply StronglySorted_inv in Hs as [? _].
  - apply StronglySorted_inv in Hs as [_ Hx].
    rewrite List.Forall_forall in *. intros y Hy. apply Hx, (firstn_In n), Hy.
Qed.

(** The first [n] rows of a sorted table stand in front of all the others. *)
Lemma sorted_firstn_skipn (n : nat) (l : list A) (x y : A) :
  StronglySorted R l -> In x (firstn n l) -> In y (skipn n l) -> R x y.
Proof.
  revert n. induction l as [|z l IH]; intros [|n] Hs Hx Hy; simpl in *;
    try contradiction.
  apply StronglySorted_inv in Hs as [Hl Hz].
  destruct Hx as [->|Hx].
  - rewrite List.Forall_forall in Hz. apply Hz.
    rewrite <- (firstn_skipn n l). apply in_or_app. now right.
  - now apply (IH n).
Qed.

End SortedPrefix.

(** ** main.py *)

Section MoreTop20.

Import BuildDb.

Lemma score_before_total (x y : Scored.t) :
  MainPy.score_before x y = false -> MainPy.score_before y x = true.
Proof. unfold MainPy.score_before. apply sql_le_total. Qed.

Lemma score_before_trans (x y z : Scored.t) :
  MainPy.score_before x y = true -> MainPy.score_before y z = true ->
  MainPy.score_before x z = true.
Proof.
  unfold MainPy.score_before. intros Hxy Hyz. exact (sql_le_trans _ _ _ Hyz Hxy).
Qed.

Lemma need_elem (c : string) : c ∈ MainPy.need <-> c = "movieId" \/ c = "rating".
Proof.
  unfold MainPy.need. rewrite elem_of_union, !elem_of_singleton. tauto.
Qed.

Lemma need_present (cols : list string) :
  MainPy.need ∖ list_to_set cols = (∅ : gset string)
  <-> In "movieId" cols /\ In "rating" cols.
Proof.
  rewrite <- !list_elem_of_In. split.
  - intros H.
    assert (Hin : forall c, c ∈ MainPy.need -> c ∈ cols).
    { intros c Hc. destruct (decide (c ∈ cols)) as [?|Hn]; [assumption|].
      exfalso. apply (not_elem_of_empty (C := gset string) c). rewrite <- H.
      apply elem_of_difference. split; [exact Hc|].
      now rewrite elem_of_list_to_set. }
    split; apply Hin, need_elem; auto.
  - intros [H1 H2]. apply set_eq. intros c.
    rewrite elem_of_difference, elem_of_list_to_set, need_elem.
    split; [|intros Hc; now apply not_elem_of_empty in Hc].
    intros [[->| ->] Hn]; contradiction.
Qed.

(** The run of [main()] on a file that has the two columns. *)
Lemma mainpy_run (csv : MainPy.RatingsCsv) (h : heap) :
  MainPy.need ∖ list_to_set (MainPy.columns csv) = (∅ : gset string) ->
  exists h' : heap,
    MainPy.main (Some csv) h
    = (MainPy.Ok
         (firstn 20
            (sort_by MainPy.score_before
               (scored_rows (movie_stats_rows (MainPy.rows csv)) 1000))),
       h').
Proof.
  intros Hneed.
  set (rows := movie_stats_rows (MainPy.rows csv)).
  set (r := fresh (dom h)).
  set (h1 := <[r := stats_frame rows]> h).
  assert (Hh1 : h1 !! r = Some (stats_frame rows)) by apply lookup_insert_eq.
  pose proof (bayesian_weighted_stats h1 r rows 1000 Hh1) as Hrun.
  match type of Hrun with _ = (_, ?x) => set (h2 := x) in * end.
  assert (Hh2 : frame_rows r h2 = (Returns (scored_rows rows 1000), h2))
    by (apply frame_rows_scored, lookup_insert_eq).
  exists h2.
  unfold MainPy.main, MainPy.load_ratings, MainPy.build_movie_stats.
  destruct (decide (MainPy.need ∖ list_to_set (MainPy.columns csv) = ∅));
    [|contradiction].
  unfold new_frame. fold rows. fold r. fold h1. cbv beta iota zeta.
  change Top20.bayesian_weighted with bayesian_weighted.
  rewrite Hrun. cbv beta iota. rewrite Hh2. reflexivity.
Qed.

(** X22: the top-20 table.  On a [ratings.csv] that has the columns
    [movieId] and [rating], [main()] returns the scored statistics of the
    raw ratings cut to the 20 best: [min 20 n] rows of the [n] movies, in
    descending order of [weighted_rating] with NaN scores last, and every
    movie left out has a score no higher than each movie kept. *)
Theorem top20_export (csv : MainPy.RatingsCsv) (h : heap) :
  In "movieId" (MainPy.columns csv) ->
  In "rating" (MainPy.columns csv) ->
  let scored := scored_rows (movie_stats_rows (MainPy.rows csv)) 1000 in
  exists (top20 rest : list Scored.t) (h' : heap),
    MainPy.main (Some csv) h = (MainPy.Ok top20, h')
    /\ length top20 = Nat.min 20 (length scored)
    /\ StronglySorted (fun a b => MainPy.score_before a b = true) top20
    /\ Permutation (top20 ++ rest) scored
    /\ (forall x y, In x top20 -> In y rest -> MainPy.score_before x y = true).
Proof.
  intros Hid Hrating scored.
  destruct (mainpy_run csv h (proj2 (need_present _) (conj Hid Hrating)))
    as (h' & Hrun).
  fold scored in Hrun.
  exists (firstn 20 (sort_by MainPy.score_before scored)),
         (skipn 20 (sort_by MainPy.score_before scored)), h'.
  pose proof (sort_by_sorted _ _ score_before_total score_before_trans scored)
    as Hsorted.
  split; [exact Hrun|].
  split; [now rewrite length_firstn, (Permutation_length (sort_by_perm _ _ scored))|].
  split; [now apply sorted_firstn|].
  split; [rewrite firstn_skipn; apply sort_by_perm|].
  intros x y Hx Hy.
  exact (sorted_firstn_skipn _ _ 20 _ x y Hsorted Hx Hy).
Qed.

Lemma top20_export_witness :
  exists (top20 rest : list Scored.t) (h' : heap),
    MainPy.main (Some scenario_csv) ∅ = (MainPy.Ok top20, h')
    /\ length top20
       = Nat.min 20 (length (scored_rows (movie_stats_rows scenario_ratings) 1000))
    /\ StronglySorted (fun a b => MainPy.score_before a b = true) top20
    /\ Permutation (top20 ++ rest)
         (scored_rows (movie_stats_rows scenario_ratings) 1000)
    /\ (forall x y, In x top20 -> In y rest -> MainPy.score_before x y = true).
Proof.
  apply (top20_export scenario_csv ∅); simpl; auto.
Defined.

(** X23: the failures of [main()] in [main.py].  Without [ratings.csv] it
    raises [FileNotFoundError]; with a file that lacks [movieId] or
    [rating] it raises [ValueError] carrying exactly the missing ones of
    these two names.  In both cases nothing has been computed: the store
    is unchanged. *)
Theorem top20_failures (csv : MainPy.RatingsCsv) (h : heap) :
  MainPy.main None h = (MainPy.Fail (MainPy.PyError FileNotFoundError), h)
  /\ (~ In "movieId" (MainPy.columns csv) \/ ~ In "rating" (MainPy.columns csv) ->
      exists missing : gset string,
        MainPy.main (Some csv) h = (MainPy.Fail (MainPy.ValueError missing), h)
        /\ forall c : string,
             c ∈ missing
             <-> (c = "movieId" \/ c = "rating") /\ ~ In c (MainPy.columns csv)).
Proof.
  split; [reflexivity|]. intros Hmissing.
  exists (MainPy.need ∖ list_to_set (MainPy.columns csv)). split.
  - unfold MainPy.main, MainPy.load_ratings, MainPy.build_movie_stats.
    destruct (decide (MainPy.need ∖ list_to_set (MainPy.columns csv) = ∅)) as [E|_];
      [|reflexivity].
    apply need_present in E. tauto.
  - intros c.
    now rewrite elem_of_difference, elem_of_list_to_set, need_elem,
      list_elem_of_In.
Qed.

End MoreTop20.

(** ** analysis.py *)

Section MoreAnalysis.

Import AnalysisPy.

Lemma rating_of_with_meta (r : Rating.t) (title genres : option string) :
  rating_of (with_meta r title genres) = r.
Proof. now destruct r. Qed.

Lemma merge_row_ratings (movies : list Movie.t) (r : Rating.t) (d : Merged.t) :
  In d (merge_row movies r) -> rating_of d = r.
Proof.
  unfold merge_row.
  destruct (List.filter _ movies) as [|mv found].
  - intros [<-|[]]. apply rating_of_with_meta.
  - intros Hd. apply in_map_iff in Hd as (mv' & <- & _).
    apply rating_of_with_meta.
Qed.

Lemma merge_row_nonempty (movies : list Movie.t) (r : Rating.t) :
  (1 <= length (merge_row movies r))%nat.
Proof.
  unfold merge_row. destruct (List.filter _ movies); simpl; lia.
Qed.

(** The metadata a merged row carries comes from a row of [movies] with the
    identifier of the rating. *)
Lemma merge_row_title (movies : list Movie.t) (r : Rating.t) (d : Merged.t) (t : string) :
  In d (merge_row movies r) -> Merged.title d = Some t ->
  exists mv, In mv movies /\ Merged.movieId d = Some (Movie.movieId mv)
             /\ Movie.title mv = Some t.
Proof.
  unfold merge_row.
  destruct (List.filter _ movies) as [|mv0 found] eqn:E.
  - intros [<-|[]]. discriminate.
  - intros Hd Ht. apply in_map_iff in Hd as (mv & <- & Hmv).
    rewrite <- E in Hmv. apply filter_In in Hmv as [Hmv Hsame].
    exists mv. split; [exact Hmv|]. split; [|exact Ht].
    cbn [with_meta Merged.movieId].
    destruct (Rating.movieId r) as [k|]; [|discriminate].
    simpl in Hsame. apply Z.eqb_eq in Hsame. now subst.
Qed.

Lemma merge_row_unique (movies : list Movie.t) (r : Rating.t) :
  List.NoDup (map Movie.movieId movies) ->
  exists d, merge_row movies r = [d].
Proof.
  intros Hnd. unfold merge_row.
  destruct (Rating.movieId r) as [k|].
  - assert (H : forall L, List.NoDup (map Movie.movieId L) ->
              (length (List.filter (fun mv => Rating.same_cell (Some k)
                                                (Some (Movie.movieId mv))) L) <= 1)%nat).
    { induction L as [|mv L IH]; intros HL; [simpl; lia|].
      cbn [map] in HL. apply List.NoDup_cons_iff in HL as [Hmv HL].
      cbn [List.filter Rating.same_cell].
      destruct (Z.eqb_spec k (Movie.movieId mv)) as [->|_]; [|now apply IH].
      rewrite filter_none; [simpl; lia|].
      intros y Hy. apply Z.eqb_neq. intros E. apply Hmv. rewrite E.
      now apply in_map. }
    specialize (H movies Hnd).
    destruct (List.filter _ movies) as [|mv [|mv' found]]; simpl in H;
      [eauto | eauto | lia].
  - rewrite filter_none by reflexivity. eauto.
Qed.

Lemma merge_unique (ratings : list Rating.t) (movies : list Movie.t) :
  List.NoDup (map Movie.movieId movies) ->
  map rating_of (merge ratings movies) = ratings.
Proof.
  intros Hnd. unfold merge. induction ratings as [|r ratings IH]; [reflexivity|].
  cbn [flat_map]. rewrite map_app, IH.
  destruct (merge_row_unique movies r Hnd) as (d & E).
  rewrite E. cbn [map app]. f_equal.
  apply (merge_row_ratings movies r). rewrite E. now left.
Qed.

(** X24: what the merge does to the ratings.  Every row of the merged table
    carries one of the ratings unchanged, and every rating is there at
    least once, so the table has at least as many rows; when no [movieId]
    occurs twice in [movies.csv] the merged table has exactly the ratings,
    one row each, in their order.  (The metadata is not de-duplicated
    here: a movie listed twice doubles its ratings in every later count.) *)
Theorem merge_keeps_ratings (ratings : list Rating.t) (movies : list Movie.t) :
  (forall d, In d (merge ratings movies) -> In (rating_of d) ratings)
  /\ (forall r, In r ratings -> In r (map rating_of (merge ratings movies)))
  /\ (length ratings <= length (merge ratings movies))%nat
  /\ (List.NoDup (map Movie.movieId movies) ->
      map rating_of (merge ratings movies) = ratings).
Proof.
  unfold merge. split; [|split; [|split]].
  - intros d Hd. apply in_flat_map in Hd as (r & Hr & Hd).
    now rewrite (merge_row_ratings movies r d Hd).
  - intros r Hr. apply in_map_iff.
    pose proof (merge_row_nonempty movies r) as Hlen.
    destruct (merge_row movies r) as [|d ds] eqn:E; [simpl in Hlen; lia|].
    exists d. split.
    + apply (merge_row_ratings movies r). rewrite E. now left.
    + apply in_flat_map. exists r. split; [exact Hr|]. rewrite E. now left.
  - induction ratings as [|r ratings IH]; [simpl; lia|].
    cbn [flat_map]. rewrite length_app. cbn [length].
    pose proof (merge_row_nonempty movies r). lia.
  - apply merge_unique.
Qed.

Lemma key_compare_eq (a b : Z * string) : key_compare a b = Eq -> a = b.
Proof.
  destruct a as [k t], b as [k' t']. unfold key_compare. cbn [fst snd].
  destruct (Z.compare_spec k k') as [->| |]; try discriminate.
  intros H. apply String.compare_eq_iff in H. now subst.
Qed.

Lemma pair_key_In (k x : Z * string) (keys : list (Z * string)) :
  In x (insert_key k keys) <-> x = k \/ In x keys.
Proof.
  induction keys as [|y keys IH]; simpl; [intuition congruence|].
  destruct (key_compare k y) eqn:E; simpl.
  - apply key_compare_eq in E. subst. intuition congruence.
  - intuition congruence.
  - rewrite IH. intuition congruence.
Qed.

Lemma movie_keys_In (df : list Merged.t) (k : Z * string) :
  In k (movie_keys df) <-> exists d, In d df /\ key_of d = Some k.
Proof.
  unfold movie_keys.
  assert (H : forall ks, In k (fold_right insert_key [] ks) <-> In k ks).
  { induction ks as [|x ks IH]; simpl; [tauto|].
    rewrite pair_key_In, IH. intuition congruence. }
  rewrite H, <- list_elem_of_In, list_elem_of_omap.
  split; intros (d & Hd & Hk); exists d; split; try exact Hk;
    now apply list_elem_of_In.
Qed.

Lemma in_group_key (k : Z * string) (d : Merged.t) :
  key_of d = Some k -> in_group k d = true.
Proof.
  unfold in_group. intros ->. now rewrite Z.eqb_refl, String.eqb_refl.
Qed.

Lemma popular_before_total (x y : MovieStat.t) :
  popular_before x y = false -> popular_before y x = true.
Proof.
  unfold popular_before. intros H. apply orb_false_elim in H as [Hlt Heq].
  apply Z.ltb_ge in Hlt.
  destruct (Z.ltb_spec (MovieStat.rating_count x) (MovieStat.rating_count y));
    [reflexivity|].
  assert (E : MovieStat.rating_count x = MovieStat.rating_count y) by lia.
  rewrite E, Z.eqb_refl in *. cbn [andb orb] in *. now apply sql_le_total.
Qed.

Lemma popular_before_trans (x y z : MovieStat.t) :
  popular_before x y = true -> popular_before y z = true ->
  popular_before x z = true.
Proof.
  unfold popular_before. intros Hxy Hyz.
  apply orb_prop in Hxy as [Hxy|Hxy]; apply orb_prop in Hyz as [Hyz|Hyz];
    rewrite ?Z.ltb_lt, ?andb_true_iff, ?Z.eqb_eq in *.
  - apply orb_true_intro. left. apply Z.ltb_lt. lia.
  - destruct Hyz as [E _]. apply orb_true_intro. left. apply Z.ltb_lt. lia.
  - destruct Hxy as [E _]. apply orb_true_intro. left. apply Z.ltb_lt. lia.
  - destruct Hxy as [E Hxy], Hyz as [E' Hyz]. apply orb_true_intro. right.
    apply andb_true_iff. split; [apply Z.eqb_eq; lia|].
    exact (sql_le_trans _ _ _ Hyz Hxy).
Qed.

(** The run of [main()] on two files that exist. *)
Lemma analysis_run (ratings : list Rating.t) (movies : list Movie.t) :
  main (Some ratings) (Some movies)
  = Returns
      (let df := merge (BuildDb.clean_ratings ratings) movies in
       mkOutputs (fst (Analysis.clean_ratings ratings)) df
                 (popular_top20 (movie_stats df)) (user_top20 (user_stats df))).
Proof. reflexivity. Qed.

(** X25: the popularity ranking.  [top20_popular_movies.csv] has at most 20
    rows, ordered by descending count and, for equal counts, descending
    average.  Each row has a count of at least 50, which is the number of
    merged rows of its movie and title, and its title is the title of a
    row of [movies.csv] with its identifier: a movie without metadata is
    never ranked.  Every other group with at least 50 rows ranks no better
    than each row of the table. *)
Theorem popular_ranking (ratings : list Rating.t) (movies : list Movie.t) :
  exists out : Outputs,
    main (Some ratings) (Some movies) = Returns out
    /\ ratings_merged_cleaned out = merge (BuildDb.clean_ratings ratings) movies
    /\ (length (top20_popular_movies out) <= 20)%nat
    /\ StronglySorted (fun a b => popular_before a b = true) (top20_popular_movies out)
    /\ (forall s, In s (top20_popular_movies out) ->
          50 <= MovieStat.rating_count s
          /\ MovieStat.rating_count s
             = Z.of_nat (length (List.filter
                                   (in_group (MovieStat.movieId s, MovieStat.title s))
                                   (ratings_merged_cleaned out)))
          /\ exists mv, In mv movies
                        /\ Movie.movieId mv = MovieStat.movieId s
                        /\ Movie.title mv = Some (MovieStat.title s))
    /\ exists rest : list MovieStat.t,
         Permutation (top20_popular_movies out ++ rest)
           (List.filter (fun s => 50 <=? MovieStat.rating_count s)
                        (movie_stats (ratings_merged_cleaned out)))
         /\ forall x y, In x (top20_popular_movies out) -> In y rest ->
              popular_before x y = true.
Proof.
  eexists. split; [apply analysis_run|].
  cbn [ratings_merged_cleaned top20_popular_movies].
  set (df := merge (BuildDb.clean_ratings ratings) movies).
  set (eligible := List.filter (fun s => 50 <=? MovieStat.rating_count s) (movie_stats df)).
  pose proof (sort_by_sorted _ _ popular_before_total popular_before_trans eligible)
    as Hsorted.
  pose proof (sort_by_perm _ popular_before eligible) as Hperm.
  unfold popular_top20. fold eligible.
  split; [reflexivity|].
  split; [apply firstn_le_length|].
  split; [now apply sorted_firstn|].
  split.
  - intros s Hs. apply firstn_In in Hs.
    apply (Permutation_in _ Hperm) in Hs.
    apply filter_In in Hs as [Hs H50]. apply Z.leb_le in H50.
    split; [exact H50|].
    unfold movie_stats in Hs. apply in_map_iff in Hs as ([k t] & <- & Hk).
    cbn [fst snd MovieStat.rating_count MovieStat.movieId MovieStat.title].
    split; [reflexivity|].
    apply movie_keys_In in Hk as (d & Hd & Hkey).
    unfold df, merge in Hd. apply in_flat_map in Hd as (r & _ & Hd).
    unfold key_of in Hkey.
    destruct (Merged.movieId d) as [k'|] eqn:Ek; [|discriminate].
    destruct (Merged.title d) as [t'|] eqn:Et; [|discriminate].
    injection Hkey as -> ->.
    destruct (merge_row_title movies r d t Hd Et) as (mv & Hmv & Hid & Htitle).
    exists mv. split; [exact Hmv|]. split; [congruence | exact Htitle].
  - exists (skipn 20 (sort_by popular_before eligible)).
    split; [now rewrite firstn_skipn|].
    intros x y Hx Hy. exact (sorted_firstn_skipn _ _ 20 _ x y Hsorted Hx Hy).
Qed.

Lemma sorted_weaken {A} (R S : A -> A -> Prop) (l : list A) :
  (forall a b, R a b -> S a b) -> StronglySorted R l -> StronglySorted S l.
Proof.
  intros HRS. induction 1 as [|x l Hs IH Hall]; constructor; [exact IH|].
  rewrite List.Forall_forall in *. intros y Hy. apply HRS, Hall, Hy.
Qed.

Lemma merge_users (ratings : list Rating.t) (movies : list Movie.t) (u : Z) :
  (exists d, In d (merge ratings movies) /\ Merged.userId d = Some u)
  <-> (exists r, In r ratings /\ Rating.userId r = Some u).
Proof.
  unfold merge. split.
  - intros (d & Hd & Hu). apply in_flat_map in Hd as (r & Hr & Hd).
    exists r. split; [exact Hr|].
    now rewrite <- (merge_row_ratings movies r d Hd).
  - intros (r & Hr & Hu).
    pose proof (merge_row_nonempty movies r) as Hlen.
    destruct (merge_row movies r) as [|d ds] eqn:E; [simpl in Hlen; lia|].
    assert (Hd : In d (merge_row movies r)) by (rewrite E; now left).
    exists d. split.
    + apply in_flat_map. exists r. now split.
    + now rewrite <- (merge_row_ratings movies r d Hd) in Hu.
Qed.

Lemma user_keys_sorted (df : list Merged.t) : StronglySorted Z.lt (user_keys df).
Proof.
  unfold user_keys.
  induction (omap Merged.userId df) as [|k ks IH]; simpl;
    [constructor | now apply insert_key_sorted].
Qed.

Lemma user_keys_In (df : list Merged.t) (u : Z) :
  In u (user_keys df) <-> exists d, In d df /\ Merged.userId d = Some u.
Proof.
  unfold user_keys.
  assert (H : forall ks : list Z,
             In u (fold_right BuildDb.insert_key [] ks) <-> In u ks).
  { induction ks as [|x ks IH]; simpl; [tauto|].
    rewrite insert_key_In, IH. intuition congruence. }
  rewrite H, <- list_elem_of_In, list_elem_of_omap.
  split; intros (d & Hd & Hk); exists d; split; try exact Hk;
    now apply list_elem_of_In.
Qed.

Lemma user_stats_ids (df : list Merged.t) :
  map UserStat.userId (user_stats df) = user_keys df.
Proof.
  unfold user_stats. rewrite map_map. cbn [UserStat.userId]. apply map_id.
Qed.

Lemma user_before_total (x y : UserStat.t) :
  user_before x y = false -> user_before y x = true.
Proof. unfold user_before. rewrite Z.leb_gt, Z.leb_le. lia. Qed.

Lemma user_before_trans (x y z : UserStat.t) :
  user_before x y = true -> user_before y z = true -> user_before x z = true.
Proof. unfold user_before. rewrite !Z.leb_le. lia. Qed.

(** X26: the activity ranking.  [top20_active_users.csv] has at most 20
    rows, one per user, ordered by descending count; the users that are
    left out have no more rows than any user of the table.  A user's count
    is the number of merged rows of that user, at least 1, and is the
    number of the user's cleaned ratings when no [movieId] occurs twice in
    [movies.csv].  The users ranked or left out are exactly those with a
    cleaned rating. *)
Theorem active_users (ratings : list Rating.t) (movies : list Movie.t) :
  exists out : Outputs,
    main (Some ratings) (Some movies) = Returns out
    /\ (length (top20_active_users out) <= 20)%nat
    /\ StronglySorted (fun a b => UserStat.rating_count b <= UserStat.rating_count a)
                      (top20_active_users out)
    /\ (forall s, In s (top20_active_users out) ->
          1 <= UserStat.rating_count s
          /\ UserStat.rating_count s
             = Z.of_nat (length (List.filter (of_user (UserStat.userId s))
                                             (ratings_merged_cleaned out)))
          /\ (List.NoDup (map Movie.movieId movies) ->
              UserStat.rating_count s
              = Z.of_nat (length (ratings_by (UserStat.userId s)
                                             (BuildDb.clean_ratings ratings)))))
    /\ exists rest : list UserStat.t,
         List.NoDup (map UserStat.userId (top20_active_users out ++ rest))
         /\ (forall u, In u (map UserStat.userId (top20_active_users out ++ rest))
                       <-> exists r, In r (BuildDb.clean_ratings ratings)
                                     /\ Rating.userId r = Some u)
         /\ forall x y, In x (top20_active_users out) -> In y rest ->
              UserStat.rating_count y <= UserStat.rating_count x.
Proof.
  eexists. split; [apply analysis_run|].
  cbn [ratings_merged_cleaned top20_active_users].
  set (clean := BuildDb.clean_ratings ratings).
  set (df := merge clean movies).
  pose proof (sort_by_sorted _ _ user_before_total user_before_trans (user_stats df))
    as Hsorted.
  pose proof (sort_by_perm _ user_before (user_stats df)) as Hperm.
  assert (Hle : forall a b, user_before a b = true ->
                            UserStat.rating_count b <= UserStat.rating_count a).
  { intros a b. unfold user_before. now rewrite Z.leb_le. }
  unfold user_top20.
  split; [apply firstn_le_length|].
  split.
  { apply sorted_firstn. eapply sorted_weaken; [|exact Hsorted]. exact Hle. }
  split.
  - intros s Hs. apply firstn_In in Hs.
    apply (Permutation_in _ Hperm) in Hs.
    unfold user_stats in Hs. apply in_map_iff in Hs as (u & <- & Hu).
    cbn [UserStat.rating_count UserStat.userId].
    split; [|split; [reflexivity|]].
    + apply user_keys_In in Hu as (d & Hd & Hu).
      assert (Hin : In d (List.filter (of_user u) df)).
      { apply filter_In. split; [exact Hd|]. unfold of_user. rewrite Hu.
        simpl. apply Z.eqb_refl. }
      destruct (List.filter (of_user u) df); [contradiction | simpl; lia].
    + intros Hnd. f_equal. unfold ratings_by.
      rewrite <- (merge_unique clean movies Hnd) at 1. fold df.
      rewrite filter_map_comm, length_map. reflexivity.
  - exists (skipn 20 (sort_by user_before (user_stats df))).
    rewrite firstn_skipn.
    assert (Hids : Permutation (map UserStat.userId (sort_by user_before (user_stats df)))
                               (user_keys df)).
    { rewrite <- user_stats_ids. now apply Permutation_map. }
    split; [|split].
    + apply (Permutation_NoDup (Permutation_sym Hids)).
      apply sorted_lt_NoDup, user_keys_sorted.
    + intros u. rewrite <- (merge_users clean movies u), <- user_keys_In.
      split; intros H.
      * exact (Permutation_in _ Hids H).
      * exact (Permutation_in _ (Permutation_sym Hids) H).
    + intros x y Hx Hy.
      apply Hle. exact (sorted_firstn_skipn _ _ 20 _ x y Hsorted Hx Hy).
Qed.

Lemma merge_row_single (movies : list Movie.t) (r : Rating.t) (mv : Movie.t) :
  List.NoDup (map Movie.movieId movies) -> In mv movies ->
  Rating.movieId r = Some (Movie.movieId mv) ->
  merge_row movies r = [with_meta r (Movie.title mv) (Movie.genres mv)].
Proof.
  intros Hnd Hmv Hid.
  destruct (merge_row_unique movies r Hnd) as (d & E). revert E.
  unfold merge_row.
  assert (Hin : In mv (List.filter
                         (fun mv => Rating.same_cell (Rating.movieId r)
                                      (Some (Movie.movieId mv))) movies)).
  { apply filter_In. split; [exact Hmv|]. rewrite Hid. simpl. apply Z.eqb_refl. }
  destruct (List.filter _ movies) as [|x [|y found]].
  - contradiction.
  - destruct Hin as [->|[]]. reflexivity.
  - discriminate.
Qed.

(** With each movie listed once, the group of a movie and its title holds
    exactly the ratings of the movie. *)
Lemma group_of_movie (R : list Rating.t) (movies : list Movie.t) (mv : Movie.t)
    (t : string) :
  List.NoDup (map Movie.movieId movies) -> In mv movies ->
  Movie.title mv = Some t ->
  map rating_of (List.filter (in_group (Movie.movieId mv, t)) (merge R movies))
  = ratings_of (Movie.movieId mv) R.
Proof.
  intros Hnd Hmv Ht. unfold merge, ratings_of.
  induction R as [|r R IH]; [reflexivity|].
  cbn [flat_map List.filter]. rewrite List.filter_app, map_app, IH. clear IH.
  destruct (Rating.same_cell (Rating.movieId r) (Some (Movie.movieId mv))) eqn:E.
  - assert (Hid : Rating.movieId r = Some (Movie.movieId mv)).
    { destruct (Rating.movieId r) as [k|]; [|discriminate].
      simpl in E. apply Z.eqb_eq in E. now subst. }
    rewrite (merge_row_single movies r mv Hnd Hmv Hid).
    cbn [List.filter]. unfold in_group, key_of.
    cbn [with_meta Merged.movieId Merged.title fst snd].
    rewrite Hid, Ht. cbn [fst snd]. rewrite Z.eqb_refl, String.eqb_refl.
    cbn [andb map app]. now rewrite rating_of_with_meta.
  - rewrite filter_none; [reflexivity|].
    intros d Hd. pose proof (merge_row_ratings movies r d Hd) as Hr.
    unfold in_group, key_of. cbn [fst snd].
    destruct (Merged.movieId d) as [k|] eqn:Ek; [|reflexivity].
    destruct (Merged.title d); [|reflexivity]. cbn [fst snd].
    destruct (Z.eqb_spec (Movie.movieId mv) k) as [Heq|_]; [|reflexivity].
    exfalso. rewrite <- Hr in E. cbn [rating_of Rating.movieId] in E.
    rewrite Ek in E. simpl in E. rewrite Heq, Z.eqb_refl in E. discriminate.
Qed.

(** X27: the two scripts agree.  When no [movieId] occurs twice in
    [movies.csv], every row of the statistics per movie and title that
    [analysis.py] computes is, without its title, a row of the statistics
    [build_db.py] computes from the same ratings: the same count and the
    same average.  (["size"] counts rows and ["count"] counts ratings that
    are present; after the cleaning the two are the same.) *)
Theorem statistics_agree (ratings : list Rating.t) (movies : list Movie.t)
    (s : MovieStat.t) :
  List.NoDup (map Movie.movieId movies) ->
  In s (movie_stats (merge (BuildDb.clean_ratings ratings) movies)) ->
  In (stats_of s) (BuildDb.movie_stats_rows (BuildDb.clean_ratings ratings)).
Proof.
  intros Hnd Hs.
  set (clean := BuildDb.clean_ratings ratings) in *.
  unfold movie_stats in Hs. apply in_map_iff in Hs as ([k t] & <- & Hk).
  unfold stats_of.
  cbn [fst snd MovieStat.movieId MovieStat.rating_count MovieStat.avg_rating].
  apply movie_keys_In in Hk as (d & Hd & Hkey).
  unfold merge in Hd. apply in_flat_map in Hd as (r & Hr & Hd).
  unfold key_of in Hkey.
  destruct (Merged.movieId d) as [k'|] eqn:Ek; [|discriminate].
  destruct (Merged.title d) as [t'|] eqn:Et; [|discriminate].
  injection Hkey as -> ->.
  destruct (merge_row_title movies r d t Hd Et) as (mv & Hmv & Hid & Htitle).
  assert (Hk : k = Movie.movieId mv) by congruence. subst k.
  pose proof (group_of_movie clean movies mv t Hnd Hmv Htitle) as Hgroup.
  set (g := List.filter (in_group (Movie.movieId mv, t)) (merge clean movies)) in *.
  assert (Hratings : map Merged.rating g
                     = BuildDb.group_ratings (Movie.movieId mv) clean).
  { unfold BuildDb.group_ratings. fold (ratings_of (Movie.movieId mv) clean).
    rewrite <- Hgroup, map_map. reflexivity. }
  assert (Hlen : length g = length (ratings_of (Movie.movieId mv) clean)).
  { now rewrite <- Hgroup, length_map. }
  destruct (ratings_fin (ratings_of (Movie.movieId mv) clean)) as (qs & Hqs & _).
  { intros x Hx. apply filter_In in Hx as [Hx _].
    exact (clean_ratings_In_valid ratings x Hx). }
  apply in_map_iff. exists (Movie.movieId mv). split.
  - cbv zeta. rewrite Hratings. f_equal.
    unfold BuildDb.group_ratings. fold (ratings_of (Movie.movieId mv) clean).
    rewrite Hqs, agg_count_fin, Hlen.
    now rewrite <- (length_map Rating.rating), Hqs, length_map.
  - apply group_keys_In. exists r. split; [exact Hr|].
    rewrite <- (merge_row_ratings movies r d Hd). exact Ek.
Qed.

Lemma statistics_agree_witness :
  In (stats_of (MovieStat.mk 1 "Toy Story" 2 (Float.Fin (10 # 2))))
     (BuildDb.movie_stats_rows (BuildDb.clean_ratings scenario_ratings)).
Proof.
  apply (statistics_agree scenario_ratings scenario_movies
           (MovieStat.mk 1 "Toy Story" 2 (Float.Fin (10 # 2)))).
  - simpl. repeat constructor; simpl; intuition discriminate.
  - vm_compute. now left.
Defined.

End MoreAnalysis.
